(** * Shallow embedding of the TAPLoss acoustic loss and of the Demucs Solver

    Sources embedded:
    - [src/TAPLoss/TAPLoss.py]                    (class [AcousticLoss])
    - [src/Demucs/denoiser/denoiser/solver.py]    (class [Solver])

    Tensors are nested lists of real numbers.  Python exceptions are values
    of type [exn]; every stateful method is a function from the state before
    the call to an outcome together with the state after it, and the state
    reached when an exception is raised is kept (Python does not roll back
    attribute assignments or file-system effects). *)

From Stdlib Require Import Reals Lra Lia List String.
From stdpp Require Import gmap strings pretty.
Import ListNotations.
Open Scope string_scope.

(** Python exceptions raised by the embedded code or by the library calls
    it makes. *)
Inductive exn : Type :=
| ValueError (msg : string)
| RuntimeError (msg : string)
| FileNotFoundError (path : string)
| UnpicklingError (path : string)
| AttributeError (name : string)
| UnboundLocalError (name : string)
| KeyError (key : string)
| ZeroDivisionError.

(** Outcome of a call: an exception or a value. *)
Abbreviation res A := (exn + A)%type.

(* ===================================================================== *)
(** * Tensors *)
(* ===================================================================== *)

Module Tensor.
Open Scope R_scope.

Abbreviation tensor1 := (list R).
Abbreviation tensor2 := (list (list R)).
Abbreviation tensor3 := (list (list (list R))).

(** [torch.sum] of a vector. *)
Definition tsum (x : tensor1) : R := foldr Rplus 0 x.

(** Elementwise maps. *)
Definition map2d {A B} (f : A -> B) : list (list A) -> list (list B) :=
  map (map f).
Definition map3d {A B} (f : A -> B)
  : list (list (list A)) -> list (list (list B)) :=
  map (map (map f)).

(** [torch.sigmoid]. *)
Definition sigmoid (x : R) : R := 1 / (1 + exp (- x)).

(** [x.unsqueeze(dim = -1)] on a two-dimensional tensor. *)
Definition unsqueeze_last (x : tensor2) : tensor3 := map2d (fun v => [v]) x.

(** One dimension of torch broadcasting for two tensors of the same rank:
    equal sizes are zipped, a size of one is stretched, anything else is a
    shape error ([None]). *)
Fixpoint zipM {A B C} (f : A -> B -> option C) (xs : list A) (ys : list B)
  : option (list C) :=
  match xs, ys with
  | [], [] => Some []
  | x :: xs', y :: ys' =>
      match f x y, zipM f xs' ys' with
      | Some z, Some zs => Some (z :: zs)
      | _, _ => None
      end
  | _, _ => None
  end.

Fixpoint mapOpt {A C} (f : A -> option C) (xs : list A) : option (list C) :=
  match xs with
  | [] => Some []
  | x :: xs' =>
      match f x, mapOpt f xs' with
      | Some z, Some zs => Some (z :: zs)
      | _, _ => None
      end
  end.

Definition bcast {A B C} (f : A -> B -> option C) (xs : list A) (ys : list B)
  : option (list C) :=
  if Nat.eqb (length xs) (length ys) then zipM f xs ys
  else match xs, ys with
       | [x], _ => mapOpt (f x) ys
       | _, [y] => mapOpt (fun x => f x y) xs
       | _, _ => None
       end.

(** Broadcasting binary operation on three-dimensional tensors. *)
Definition bop3 (op : R -> R -> R) (x y : tensor3) : option tensor3 :=
  bcast (bcast (bcast (fun a b => Some (op a b)))) x y.

(** [torch.mean] over all entries of a three-dimensional tensor. *)
Definition flatten3 (x : tensor3) : tensor1 := concat (concat x).
Definition mean3 (x : tensor3) : R :=
  tsum (flatten3 x) / INR (length (flatten3 x)).

(** [torch.nn.MSELoss()] and [torch.nn.L1Loss()] (mean reduction). *)
Definition MSELoss (input target : tensor3) : option R :=
  match bop3 Rminus input target with
  | Some d => Some (mean3 (map3d (fun v => v ^ 2) d))
  | None => None
  end.
Definition L1Loss (input target : tensor3) : option R :=
  match bop3 Rminus input target with
  | Some d => Some (mean3 (map3d Rabs d))
  | None => None
  end.

(** Sum of a two-dimensional tensor along its first dimension
    ([torch.sum(x, dim = 0)] of one batch entry). *)
Definition sum_dim0 (rows : tensor2) : tensor1 :=
  match rows with
  | [] => []
  | r :: rs => fold_left (zip_with Rplus) rs r
  end.

(** Transposition of the two dimensions of a rectangular tensor. *)
Definition transpose {A} (d : A) (rows : list (list A)) : list (list A) :=
  match rows with
  | [] => []
  | r :: _ => map (fun t => map (fun row => nth t row d) rows)
                  (seq 0 (length r))
  end.

(** ** [torch.stft]

    [torch.stft(wav, n_fft, hop_length, return_complex=False)] with the
    library defaults the source relies on: [win_length = n_fft], a
    rectangular window, [center = True] with reflect padding of
    [n_fft / 2] samples on both sides, [normalized = False] and a
    one-sided spectrum.  The result is indexed [b][f][t] and holds the
    pair (real part, imaginary part). *)

Definition reflect_pad (p : nat) (x : tensor1) : tensor1 :=
  rev (firstn p (skipn 1 x)) ++ x ++ firstn p (skipn 1 (rev x)).

Definition frame_at (n_fft hop : nat) (x : tensor1) (t : nat) : tensor1 :=
  firstn n_fft (skipn (t * hop) x).

Definition frames (n_fft hop : nat) (x : tensor1) : tensor2 :=
  map (frame_at n_fft hop x) (seq 0 (1 + (length x - n_fft) / hop)).

Definition dft_angle (n_fft w k : nat) : R :=
  2 * PI * INR w * INR k / INR n_fft.

Definition dft_bin (n_fft : nat) (frame : tensor1) (w : nat) : R * R :=
  (tsum (imap (fun k x => x * cos (dft_angle n_fft w k)) frame),
   tsum (imap (fun k x => - (x * sin (dft_angle n_fft w k))) frame)).

Definition stft_row (n_fft hop : nat) (w : tensor1) : list (list (R * R)) :=
  let fr := frames n_fft hop (reflect_pad (n_fft / 2) w) in
  map (fun f => map (fun frame => dft_bin n_fft frame f) fr)
      (seq 0 (n_fft / 2 + 1)).

Definition torch_stft (wav : tensor2) (n_fft hop : nat)
  : option (list (list (list (R * R)))) :=
  if forallb (fun w => Nat.ltb (n_fft / 2) (length w)) wav
  then Some (map (stft_row n_fft hop) wav)
  else None.

End Tensor.

(* ===================================================================== *)
(** * TAPLoss.py: class AcousticLoss *)
(* ===================================================================== *)

Module TAPLoss.
Import Tensor.
Open Scope R_scope.

(** The pretrained estimator of [TAP_estimator] and the checkpoint reader
    are collaborators of [AcousticLoss]; they are taken as an interface. *)
Class Estimator := {
  (** a parameter mapping ([state_dict]) of the estimator *)
  est_params : Type;
  (** [AcousticEstimator()]: the freshly initialised parameters *)
  AcousticEstimator : est_params;
  (** [torch.load(path, map_location=device)['model_state_dict']];
      [None] when the file cannot be read *)
  torch_load_state_dict : string -> option est_params;
  (** [load_state_dict]: [None] on a shape mismatch with the layout the
      estimator expects *)
  load_state_dict : est_params -> est_params -> option est_params;
  (** a forward pass of the estimator; it depends on the behaviour mode
      ([true] is training mode, where stochastic regularisation is active)
      and, in training mode, on how many passes were made before *)
  estimate : est_params -> bool -> nat -> tensor3 -> tensor3
}.

Section AcousticLoss.
Context `{Estimator}.

(** The attributes of an [AcousticLoss] object.  [l2] and [l1] exist only
    when [__init__] created them. *)
Record AcousticLoss := mkAcousticLoss {
  device : string;
  estimate_acoustics : est_params;
  est_training : bool;                 (* mode of [estimate_acoustics] *)
  est_calls : nat;                     (* forward passes made so far *)
  loss_type : string;
  l2 : option (tensor3 -> tensor3 -> option R);
  l1 : option (tensor3 -> tensor3 -> option R)
}.

Definition set_est_training (b : bool) (o : AcousticLoss) : AcousticLoss :=
  mkAcousticLoss (device o) (estimate_acoustics o) b (est_calls o)
                 (loss_type o) (l2 o) (l1 o).

(** [AcousticLoss.__init__(loss_type, acoustic_model_path, device)]. *)
Definition AcousticLoss_init (loss_type0 acoustic_model_path device0 : string)
  : res AcousticLoss :=
  let l2_attr := if decide (loss_type0 = "l2") then Some MSELoss else None in
  let l1_attr :=
    if decide (loss_type0 = "l2") then None
    else if decide (loss_type0 = "l1") then Some L1Loss else None in
  match torch_load_state_dict acoustic_model_path with
  | None => inl (FileNotFoundError acoustic_model_path)
  | Some model_state_dict =>
      match load_state_dict AcousticEstimator model_state_dict with
      | None => inl (RuntimeError "Error(s) in loading state_dict")
      | Some params =>
          inr (mkAcousticLoss device0 params true 0 loss_type0
                              l2_attr l1_attr)
      end
  end.

(** [AcousticLoss.get_stft(wav, return_short_time_energy)].  The two
    attributes it assigns, [nfft = 512] and [hop_length = 160], are
    constants and are kept as local definitions. *)
Definition nfft : nat := 512.
Definition hop_length : nat := 160.

Definition get_stft (wav : tensor2) (return_short_time_energy : bool)
  : res (tensor3 * option tensor2) :=
  match torch_stft wav nfft hop_length with
  | None => inl (RuntimeError "stft: padding size should be less than the input size")
  | Some spec =>
      let spec_real := map3d fst spec in
      let spec_imag := map3d snd spec in
      (* permute(0, 2, 1, 3) then reshape(B, -1, 2 * (nfft // 2 + 1)) *)
      let spec' :=
        map (fun sb => map (flat_map (fun c : R * R => [fst c; snd c]))
                           (transpose (0, 0) sb)) spec in
      if return_short_time_energy then
        let sq :=
          zip_with (zip_with (zip_with (fun re im => re ^ 2 + im ^ 2)))
                   spec_real spec_imag in
        let st_energy :=
          map2d (fun v => v * (2 / INR nfft)) (map sum_dim0 sq) in
        inr (spec', Some st_energy)
      else inr (spec', None)
  end.

Definition shape_error : exn :=
  RuntimeError "The size of tensor a must match the size of tensor b".

Definition of_option {A} (o : option A) : res A :=
  match o with Some v => inr v | None => inl shape_error end.

Definition bump_calls (o : AcousticLoss) : AcousticLoss :=
  mkAcousticLoss (device o) (estimate_acoustics o) (est_training o)
                 (2 + est_calls o) (loss_type o) (l2 o) (l1 o).

(** The distance between the two embeddings, selected by [loss_type]
    (the [if]/[elif] chain that ends [forward]). *)
Definition acoustic_distance (o : AcousticLoss) (enhan_st_energy : tensor2)
                             (enhan_acoustics clean_acoustics : tensor3)
  : res R :=
  if decide (loss_type o = "l2") then
    match l2 o with
    | Some f => of_option (f enhan_acoustics clean_acoustics)
    | None => inl (AttributeError "l2")
    end
  else if decide (loss_type o = "l1") then
    match l1 o with
    | Some f => of_option (f enhan_acoustics clean_acoustics)
    | None => inl (AttributeError "l1")
    end
  else if decide (loss_type o = "frame_energy_weighted_l2") then
    match bop3 Rminus enhan_acoustics clean_acoustics with
    | None => inl shape_error
    | Some d =>
        let w := unsqueeze_last
                   (map2d (fun e => Rpower (sigmoid e) 0.5) enhan_st_energy) in
        match bop3 Rmult w d with
        | None => inl shape_error
        | Some p => inr (mean3 (map3d (fun v => v ^ 2) p))
        end
    end
  else if decide (loss_type o = "frame_energy_weighted_l1") then
    match bop3 Rminus enhan_acoustics clean_acoustics with
    | None => inl shape_error
    | Some d =>
        let w := unsqueeze_last (map2d sigmoid enhan_st_energy) in
        of_option (option_map mean3 (bop3 Rmult w (map3d Rabs d)))
    end
  else inl (ValueError ("Invalid loss_type " +:+ loss_type o)).

(** The part of [forward] after the mode has been set: the two spectral
    transforms, the two estimator passes and the distance. *)
Definition forward_loss (clean_waveform enhan_waveform : tensor2)
                        (o : AcousticLoss) : res R * AcousticLoss :=
  match get_stft clean_waveform false with
  | inl e => (inl e, o)
  | inr (clean_spectrogram, _) =>
  match get_stft enhan_waveform true with
  | inl e => (inl e, o)
  | inr (_, None) => (inl (ValueError "not enough values to unpack"), o)
  | inr (enhan_spectrogram, Some enhan_st_energy) =>
      let clean_acoustics :=
        estimate (estimate_acoustics o) (est_training o) (est_calls o)
                 clean_spectrogram in
      let enhan_acoustics :=
        estimate (estimate_acoustics o) (est_training o) (S (est_calls o))
                 enhan_spectrogram in
      (acoustic_distance o enhan_st_energy enhan_acoustics clean_acoustics,
       bump_calls o)
  end end.

(** [AcousticLoss.forward(clean_waveform, enhan_waveform, mode)]. *)
Definition forward (clean_waveform enhan_waveform : tensor2) (mode : string)
                   (o : AcousticLoss) : res R * AcousticLoss :=
  if decide (mode = "train") then
    forward_loss clean_waveform enhan_waveform (set_est_training true o)
  else if decide (mode = "eval") then
    forward_loss clean_waveform enhan_waveform (set_est_training false o)
  else (inl (ValueError "Invalid mode, must be either 'train' or 'eval'."), o).

(** [AcousticLoss.__call__(clean_waveform, enhan_waveform, mode="train")]:
    [None] stands for an omitted [mode] argument. *)
Definition AcousticLoss_call (clean_waveform enhan_waveform : tensor2)
                             (mode : option string) (o : AcousticLoss)
  : res R * AcousticLoss :=
  forward clean_waveform enhan_waveform (default "train" mode) o.

End AcousticLoss.

(** ** The loss formulas as the specification words them

    The embeddings have shape (batch, frames, parameters) and the
    short-time energy has shape (batch, frames); entries are read by
    index. *)
Section SpecFormulas.

Definition at2 (x : tensor2) (b t : nat) : R := nth t (nth b x []) 0.
Definition at3 (x : tensor3) (b t d : nat) : R := nth d (nth t (nth b x []) []) 0.

(** Sum of [g i] for [i < n]. *)
Definition sum_upto (n : nat) (g : nat -> R) : R := tsum (map g (seq 0 n)).

(** Mean over all indices of a (B, T, D) array of terms. *)
Definition mean_over (B T D : nat) (g : nat -> nat -> nat -> R) : R :=
  sum_upto B (fun b => sum_upto T (fun t => sum_upto D (fun d => g b t d)))
  / INR (B * T * D).

(** l2: mean squared error between the embeddings. *)
Definition spec_l2 (B T D : nat) (enhan clean : tensor3) : R :=
  mean_over B T D (fun b t d => (at3 enhan b t d - at3 clean b t d) ^ 2).

(** l1: mean absolute error between the embeddings. *)
Definition spec_l1 (B T D : nat) (enhan clean : tensor3) : R :=
  mean_over B T D (fun b t d => Rabs (at3 enhan b t d - at3 clean b t d)).

(** frame-energy-weighted l2: weight = sqrt(sigmoid(energy)) per frame. *)
Definition spec_few_l2 (B T D : nat) (energy : tensor2) (enhan clean : tensor3) : R :=
  mean_over B T D (fun b t d =>
    (sqrt (sigmoid (at2 energy b t)) * (at3 enhan b t d - at3 clean b t d)) ^ 2).

(** frame-energy-weighted l1: weight = sigmoid(energy) per frame. *)
Definition spec_few_l1 (B T D : nat) (energy : tensor2) (enhan clean : tensor3) : R :=
  mean_over B T D (fun b t d =>
    sigmoid (at2 energy b t) * Rabs (at3 enhan b t d - at3 clean b t d)).

(** The four recognised loss kinds. *)
Definition recognised_loss_type (lt : string) : bool :=
  bool_decide (lt = "l2") || bool_decide (lt = "l1")
  || bool_decide (lt = "frame_energy_weighted_l2")
  || bool_decide (lt = "frame_energy_weighted_l1").

(** The loss of each recognised kind, as worded above; [None] for any
    other kind. *)
Definition spec_loss (lt : string) (B T D : nat) (energy : tensor2)
                     (enhan clean : tensor3) : option R :=
  if decide (lt = "l2") then Some (spec_l2 B T D enhan clean)
  else if decide (lt = "l1") then Some (spec_l1 B T D enhan clean)
  else if decide (lt = "frame_energy_weighted_l2")
  then Some (spec_few_l2 B T D energy enhan clean)
  else if decide (lt = "frame_energy_weighted_l1")
  then Some (spec_few_l1 B T D energy enhan clean)
  else None.

(** Time-domain energy of an analysis frame: the sum of its squared
    samples. *)
Definition frame_energy (frame : tensor1) : R := tsum (map (fun v => v ^ 2) frame).

(** The squared magnitude of a bin of the transform. *)
Definition power (c : R * R) : R := c.1 ^ 2 + c.2 ^ 2.

(** The analysis frames [torch.stft] cuts out of one waveform with the
    constants of [get_stft]. *)
Definition analysis_frames (w : tensor1) : tensor2 :=
  frames nfft hop_length (reflect_pad (nfft / 2) w).

(** Shapes. *)
Definition has_shape2 (B T : nat) (x : tensor2) : Prop :=
  length x = B /\ Forall (fun r => length r = T) x.
Definition has_shape3 (B T D : nat) (x : tensor3) : Prop :=
  length x = B /\ Forall (has_shape2 T D) x.

(** The two results of [get_stft] when it returns. *)
Definition spectrogram_of (wav : tensor2) : tensor3 :=
  match get_stft wav false with
  | inr (spec, _) => spec
  | inl _ => []
  end.
Definition st_energy_of (wav : tensor2) : tensor2 :=
  match get_stft wav true with
  | inr (_, Some st_energy) => st_energy
  | _ => []
  end.

(** The one-sided spectrum of an analysis frame: bins 0 to [nfft / 2]. *)
Definition spectrum (frame : tensor1) : list (R * R) :=
  map (dft_bin nfft frame) (seq 0 (nfft / 2 + 1)).

(** Real and imaginary parts, alternating. *)
Definition interleave (l : list (R * R)) : tensor1 :=
  flat_map (fun c : R * R => [c.1; c.2]) l.

End SpecFormulas.

Section EstimatorContract.
Context `{Estimator}.

(** The contract of the estimator: one embedding of [D] parameters per
    frame, for every batch entry. *)
Definition one_embedding_per_frame (D : nat) : Prop :=
  forall (p : est_params) (training : bool) (n : nat) (x : tensor3) (B T : nat),
    length x = B -> Forall (fun m => length m = T) x ->
    has_shape3 B T D (estimate p training n x).

(** The attributes [l2] and [l1] are those [__init__] creates. *)
Definition constructed (o : AcousticLoss) : Prop :=
  (loss_type o = "l2" -> l2 o = Some MSELoss)
  /\ (loss_type o = "l1" -> l1 o = Some L1Loss).

End EstimatorContract.

End TAPLoss.

(* ===================================================================== *)
(** * solver.py: class Solver *)
(* ===================================================================== *)

Module solver.
Import Tensor TAPLoss.
Open Scope R_scope.

(** A batch of waveforms has shape (batch, 1, samples); the single channel
    dimension is left implicit, so [squeeze(1)] is the identity. *)
Abbreviation waveform := tensor2.
Abbreviation batch := (waveform * waveform)%type.       (* (noisy, clean) *)

(** One record of the history: the dictionary
    [{'train': _, 'valid': _, 'best': _}], extended with ['pesq'] and
    ['stoi'] in the epochs that evaluate. *)
Record metrics := mkMetrics {
  train_loss : R;
  valid : R;
  best : R;
  pesq_stoi : option (R * R)
}.

(** The options of [args] that the embedded methods read. *)
Record Args := mkArgs {
  epochs : nat;
  eval_every : nat;
  continue_from : string;            (* '' when absent *)
  checkpoint : bool;
  checkpoint_file : string;
  best_file : string;
  history_file : string;
  restart : bool;
  samples_dir : string;
  optim : string;
  save_checkpoints : bool;
  continue_best : bool;
  continue_pretrained : string;      (* '' when absent *)
  save_again : bool;
  acoustic_loss_only : bool;
  loss : string;
  stft_loss : bool;
  stft_loss_weight : R;
  acoustic_loss : bool;
  ac_loss_weight : R;
  gradient_clip : bool;
  grad_max_norm : R;
  use_amp : bool
}.

(** Truth value of a Python string. *)
Definition truthy_str (s : string) : bool := negb (String.eqb s "").

(** ** Files *)

Section Files.
Context {model_state optim_state : Type}.

(** [serialize_model(model)]: of the dictionary it returns only the
    ['state'] entry is read back; [_serialize] overwrites it with
    [best_state], which may be [None]. *)
Record serialized_model := mkSerialized { sm_state : option model_state }.

(** The checkpoint package; ['optimizer'] is present only for adam. *)
Record package := mkPackage {
  pkg_model : serialized_model;
  pkg_optimizer : option optim_state;
  pkg_history : list metrics;
  pkg_best_state : option model_state;
  pkg_args : Args
}.

Inductive content : Type :=
| PackageFile (p : package)                (* torch.save(package, _) *)
| ModelFile (m : serialized_model)         (* torch.save(model, _) *)
| HistoryFile (h : list metrics).          (* json.dump(history, _) *)

(** A file is complete, or was left half written by a writer that was
    interrupted. *)
Inductive file : Type :=
| Complete (c : content)
| Partial.

(** The operations the Solver performs on the file system. *)
Inductive fs_op : Type :=
| Mkdir (path : string)                    (* os.mkdir / os.makedirs *)
| Save (c : content) (path : string)       (* torch.save / json.dump: opens
                                              [path] and writes into it *)
| Rename (src dst : string).               (* os.rename *)

Record FS := mkFS {
  files : gmap string file;
  dirs : gset string
}.

(** [os.path.exists]. *)
Definition exists_path (path : string) (d : FS) : bool :=
  bool_decide (path ∈ dirs d) || bool_decide (is_Some (files d !! path)).

(** Effect of a completed operation; [None] when [os.rename] finds no
    source file. *)
Definition apply_op (op : fs_op) (d : FS) : option FS :=
  match op with
  | Mkdir p => Some (mkFS (files d) ({[p]} ∪ dirs d))
  | Save c p => Some (mkFS (<[p := Complete c]> (files d)) (dirs d))
  | Rename src dst =>
      match files d !! src with
      | Some f => Some (mkFS (<[dst := f]> (delete src (files d))) (dirs d))
      | None => None
      end
  end.

(** What is on disk when the process is killed while [op] is running:
    only a [Save] has an intermediate state, a half-written file at its
    path; [Mkdir] and [Rename] are atomic. *)
Definition interrupted (op : fs_op) (d : FS) : list FS :=
  match op with
  | Save _ p => [mkFS (<[p := Partial]> (files d)) (dirs d)]
  | _ => []
  end.

(** All disk states that a termination of the process can leave behind
    while the operations [ops] are performed in order from [d]. *)
Fixpoint crash_states (ops : list fs_op) (d : FS) : list FS :=
  d :: match ops with
       | [] => []
       | op :: ops' =>
           interrupted op d ++
           match apply_op op d with
           | Some d' => crash_states ops' d'
           | None => []
           end
       end.

End Files.
Arguments serialized_model : clear implicits.
Arguments package : clear implicits.
Arguments content : clear implicits.
Arguments file : clear implicits.
Arguments fs_op : clear implicits.
Arguments FS : clear implicits.

(** ** Collaborators of the Solver *)

Class Collaborators := {
  (** parameter mapping ([state_dict]) of the enhancement model *)
  model_state : Type;
  (** [state_dict] of the optimizer *)
  optim_state : Type;
  (** [self.augment(sources)] on the stack (noise, clean); stochastic, so
      it may depend on the epoch and the batch index *)
  augment : nat -> nat -> waveform * waveform -> waveform * waveform;
  (** [self.dmodel(noisy)] in training ([true]) or evaluation mode *)
  dmodel : model_state -> bool -> waveform -> waveform;
  (** [F.l1_loss], [F.mse_loss], [F.smooth_l1_loss] *)
  l1_loss : waveform -> waveform -> R;
  mse_loss : waveform -> waveform -> R;
  smooth_l1_loss : waveform -> waveform -> R;
  (** [self.mrstftloss(estimate, clean)]: (sc_loss, mag_loss) *)
  mrstftloss : waveform -> waveform -> R * R;
  (** [zero_grad(); loss.backward(); clip_grad_norm_ (if asked);
      optimizer.step()] for the loss of the batch (noisy, clean) *)
  optimizer_step : Args -> model_state -> optim_state -> batch ->
                   model_state * optim_state;
  (** [distrib.average([x], count)[0]] and [distrib.rank] *)
  distrib_average : R -> nat -> R;
  distrib_rank : nat;
  (** [evaluate(args, model, tt_loader)]: (pesq, stoi) *)
  evaluate : Args -> model_state -> list batch -> R * R;
  (** [getattr(pretrained, name)().state_dict()]; [None] when the
      registry has no such name *)
  pretrained : string -> option model_state
}.

Section Methods.
Context `{Estimator} `{Collaborators}.

Abbreviation fsop := (fs_op model_state optim_state).

(** Calls to collaborators and output, in the order they happen. *)
Inductive event : Type :=
| EvFs (op : fsop)
| EvPrintTrainEpoch (n : nat)        (* print("Train Epoch: ", n) *)
| EvPrintValidationFinished          (* print("Validation finished") *)
| EvPrintCheckpointSaved (n : nat)   (* print("Checkpoint Epoch %d is saved") *)
| EvAugment (epoch i : nat)          (* self.augment(sources) *)
| EvForward (cross_valid : bool) (epoch i : nat)   (* self.dmodel(noisy) *)
| EvAcousticLoss (mode : option string)  (* self.ac_loss(clean, estimate) *)
| EvOptimizerStep (epoch i : nat)
| EvEvaluate (epoch : nat)           (* evaluate(args, model, tt_loader) *)
| EvEnhance (epoch : nat).           (* enhance(args, model, samples_dir) *)

(** The Solver object together with the world it acts on (the disk and
    the log of events).  The attributes [__init__] copies from [args]
    and never assigns again ([epochs], [checkpoint], [checkpoint_file],
    ...) are read from [args]. *)
Record Solver := mkSolver {
  args : Args;
  tr_loader : option (list batch);
  cv_loader : option (list batch);
  tt_loader : option (list batch);
  model : model_state;
  model_training : bool;               (* model.train() / model.eval() *)
  optimizer : optim_state;
  epoch : nat;
  history : list metrics;
  best_state : option model_state;
  ac_loss : AcousticLoss;
  disk : FS model_state optim_state;
  trace : list event
}.

Definition set_model (m : model_state) (s : Solver) : Solver :=
  mkSolver (args s) (tr_loader s) (cv_loader s) (tt_loader s) m
           (model_training s) (optimizer s) (epoch s) (history s)
           (best_state s) (ac_loss s) (disk s) (trace s).
Definition set_model_training (b : bool) (s : Solver) : Solver :=
  mkSolver (args s) (tr_loader s) (cv_loader s) (tt_loader s) (model s)
           b (optimizer s) (epoch s) (history s)
           (best_state s) (ac_loss s) (disk s) (trace s).
Definition set_optimizer (o : optim_state) (s : Solver) : Solver :=
  mkSolver (args s) (tr_loader s) (cv_loader s) (tt_loader s) (model s)
           (model_training s) o (epoch s) (history s)
           (best_state s) (ac_loss s) (disk s) (trace s).
Definition set_epoch (e : nat) (s : Solver) : Solver :=
  mkSolver (args s) (tr_loader s) (cv_loader s) (tt_loader s) (model s)
           (model_training s) (optimizer s) e (history s)
           (best_state s) (ac_loss s) (disk s) (trace s).
Definition set_history (h : list metrics) (s : Solver) : Solver :=
  mkSolver (args s) (tr_loader s) (cv_loader s) (tt_loader s) (model s)
           (model_training s) (optimizer s) (epoch s) h
           (best_state s) (ac_loss s) (disk s) (trace s).
Definition set_best_state (b : option model_state) (s : Solver) : Solver :=
  mkSolver (args s) (tr_loader s) (cv_loader s) (tt_loader s) (model s)
           (model_training s) (optimizer s) (epoch s) (history s)
           b (ac_loss s) (disk s) (trace s).
Definition set_ac_loss (o : AcousticLoss) (s : Solver) : Solver :=
  mkSolver (args s) (tr_loader s) (cv_loader s) (tt_loader s) (model s)
           (model_training s) (optimizer s) (epoch s) (history s)
           (best_state s) o (disk s) (trace s).
Definition set_disk (d : FS model_state optim_state) (s : Solver) : Solver :=
  mkSolver (args s) (tr_loader s) (cv_loader s) (tt_loader s) (model s)
           (model_training s) (optimizer s) (epoch s) (history s)
           (best_state s) (ac_loss s) d (trace s).
Definition add_event (e : event) (s : Solver) : Solver :=
  mkSolver (args s) (tr_loader s) (cv_loader s) (tt_loader s) (model s)
           (model_training s) (optimizer s) (epoch s) (history s)
           (best_state s) (ac_loss s) (disk s) (trace s ++ [e]).

(** ** The monad of Solver methods: state and exceptions *)

Definition M (A : Type) : Type := Solver -> res A * Solver.

Definition ret {A} (a : A) : M A := fun s => (inr a, s).
Definition bind {A B} (c : M A) (k : A -> M B) : M B :=
  fun s => match c s with
           | (inl e, s') => (inl e, s')
           | (inr a, s') => k a s'
           end.
Definition raise {A} (e : exn) : M A := fun s => (inl e, s).
Definition get : M Solver := fun s => (inr s, s).
Definition modify (f : Solver -> Solver) : M unit := fun s => (inr tt, f s).
Definition emit (e : event) : M unit := modify (add_event e).
Definition when (b : bool) (c : M unit) : M unit := if b then c else ret tt.

Notation "x <- c ;; k" := (bind c (fun x => k))
  (at level 100, c at next level, right associativity).
Notation "c ;;; k" := (bind c (fun _ => k))
  (at level 100, right associativity).

(** A file-system operation: performed on the disk and logged. *)
Definition fs_do (op : fsop) : M unit :=
  fun s => match apply_op op (disk s) with
           | Some d => (inr tt, add_event (EvFs op) (set_disk d s))
           | None =>
               (inl (FileNotFoundError
                       match op with
                       | Rename src _ => src
                       | Mkdir p => p
                       | Save _ p => p
                       end), s)
           end.

(** The file-system operations of a log, in order. *)
Definition fs_ops (t : list event) : list fsop :=
  flat_map (fun e => match e with EvFs op => [op] | _ => [] end) t.

(** The dictionary [package] that [_serialize] and [save_ckpts] build. *)
Definition make_package (s : Solver) : package model_state optim_state :=
  mkPackage (mkSerialized (Some (model s)))
            (if decide (optim (args s) = "adam") then Some (optimizer s)
             else None)
            (history s) (best_state s) (args s).

(** [Solver._serialize].  The attribute [checkpoint_file] exists only when
    [checkpoint] is set. *)
Definition _serialize : M unit :=
  s <- get ;;
  let package := make_package s in
  if negb (checkpoint (args s)) then raise (AttributeError "checkpoint_file")
  else
    let tmp_path := checkpoint_file (args s) +:+ ".tmp" in
    fs_do (Save (PackageFile package) tmp_path) ;;;
    fs_do (Rename tmp_path (checkpoint_file (args s))) ;;;
    (* Saving only the latest best model. *)
    let model' := mkSerialized (best_state s) in
    let tmp_path := best_file (args s) +:+ ".tmp" in
    fs_do (Save (ModelFile model') tmp_path) ;;;
    fs_do (Rename tmp_path (best_file (args s))).

(** The file-system operations of [_serialize], in order. *)
Definition serialize_ops (s : Solver) : list fsop :=
  [ Save (PackageFile (make_package s)) (checkpoint_file (args s) +:+ ".tmp");
    Rename (checkpoint_file (args s) +:+ ".tmp") (checkpoint_file (args s));
    Save (ModelFile (mkSerialized (best_state s)))
         (best_file (args s) +:+ ".tmp");
    Rename (best_file (args s) +:+ ".tmp") (best_file (args s)) ].

Definition checkpoints_dir : string := "./checkpoints".
Definition ckpt_path (n : nat) : string :=
  "./checkpoints/checkpoint_epoch_" +:+ pretty n +:+ ".pt".

(** [Solver.save_ckpts]. *)
Definition save_ckpts : M unit :=
  s <- get ;;
  let package := make_package s in
  when (negb (exists_path checkpoints_dir (disk s)))
       (fs_do (Mkdir checkpoints_dir)) ;;;
  when (save_checkpoints (args s))
       (fs_do (Save (PackageFile package) (ckpt_path (epoch s + 1))) ;;;
        emit (EvPrintCheckpointSaved (epoch s + 1))).

(** [torch.load(load_from, 'cpu')] followed by the first subscript of
    the result, ['best_state'] or ['model'], which is missing when the
    file holds a bare model instead of a package. *)
Definition torch_load (path : string) (load_best : bool)
  : M (package model_state optim_state) :=
  s <- get ;;
  match files (disk s) !! path with
  | None => raise (FileNotFoundError path)
  | Some Partial => raise (UnpicklingError path)
  | Some (Complete (PackageFile p)) => ret p
  | Some (Complete (ModelFile _)) =>
      raise (KeyError (if load_best then "best_state" else "model"))
  | Some (Complete (HistoryFile _)) => raise (UnpicklingError path)
  end.

(** [self.model.load_state_dict(state)]; [state] may be [None]. *)
Definition model_load_state_dict (state : option model_state) : M unit :=
  match state with
  | Some m => modify (set_model m)
  | None => raise (AttributeError "NoneType has no attribute copy")
  end.

(** [Solver._reset]. *)
Definition _reset : M unit :=
  s <- get ;;
  let a := args s in
  let '(load_from, load_best, keep_history) :=
    if checkpoint a && exists_path (checkpoint_file a) (disk s)
       && negb (restart a)
    then (Some (checkpoint_file a), false, true)
    else if truthy_str (continue_from a)
    then (Some (continue_from a), continue_best a, false)
    else (None, false, true) in
  match load_from with
  | Some path =>
      package <- torch_load path load_best ;;
      (if load_best : bool then model_load_state_dict (pkg_best_state package)
       else model_load_state_dict (sm_state (pkg_model package))) ;;;
      match pkg_optimizer package with
      | Some o =>
          when (negb load_best && bool_decide (optim a = "adam"))
               (modify (set_optimizer o))
      | None => ret tt
      end ;;;
      when keep_history (modify (set_history (pkg_history package))) ;;;
      modify (set_best_state (pkg_best_state package))
  | None => ret tt
  end ;;;
  if truthy_str (continue_pretrained a) then
    match pretrained (continue_pretrained a) with
    | Some m => modify (set_model m)
    | None => raise (AttributeError (continue_pretrained a))
    end
  else ret tt.

(** The attributes [Solver.__init__] assigns before it calls [_reset].
    The acoustic-loss object [self.ac_loss] is taken as constructed (the
    call in the source passes, besides [loss_type] and
    [acoustic_model_path], the keywords [paap] and [paap_weight_path],
    which the [__init__] of TAPLoss.py does not declare). *)
Definition init_fields (tr_loader0 cv_loader0 tt_loader0 : option (list batch))
                       (model0 : model_state)
                       (optimizer0 : optim_state) (a : Args)
                       (acl : AcousticLoss)
                       (d : FS model_state optim_state) : Solver :=
  mkSolver a tr_loader0 cv_loader0 tt_loader0 model0 true optimizer0 0 []
           None acl d [].

(** [Solver.__init__]. *)
Definition Solver_init (tr_loader0 cv_loader0 tt_loader0 : option (list batch))
                       (model0 : model_state)
                       (optimizer0 : optim_state) (a : Args)
                       (acl : AcousticLoss)
                       (d : FS model_state optim_state) : res unit * Solver :=
  _reset (init_fields tr_loader0 cv_loader0 tt_loader0 model0 optimizer0 a
                      acl d).

(** [self.ac_loss(torch.squeeze(clean, 1), torch.squeeze(estimate, 1))]:
    both call sites of the Solver omit the [mode] argument. *)
Definition ac_loss_call (clean estimate : waveform) : M R :=
  emit (EvAcousticLoss None) ;;;
  fun s => let '(r, o) := AcousticLoss_call clean estimate None (ac_loss s) in
           (r, set_ac_loss o s).

Definition acoustic_only_message : string :=
  "Acoustic Loss must be set to True while Acoustic Only is True".

(** The loss composition of one batch: (loss, enh_loss, ac_loss). *)
Definition compute_loss (clean estimate : waveform) : M (R * R * R) :=
  s <- get ;;
  let a := args s in
  if negb (acoustic_loss_only a) then
    enh_loss <-
      (if decide (loss a = "l1") then ret (l1_loss clean estimate)
       else if decide (loss a = "l2") then ret (mse_loss clean estimate)
       else if decide (loss a = "huber") then ret (smooth_l1_loss clean estimate)
       else raise (ValueError ("Invalid loss " +:+ loss a))) ;;
    (* MultiResolution STFT loss *)
    let enh_loss :=
      if stft_loss a then
        let '(sc_loss, mag_loss) := mrstftloss estimate clean in
        enh_loss + stft_loss_weight a * (sc_loss + mag_loss)
      else enh_loss in
    if acoustic_loss a then
      v <- ac_loss_call clean estimate ;;
      let ac := ac_loss_weight a * v in
      ret (enh_loss + ac, enh_loss, ac)
    else ret (enh_loss, enh_loss, 0)
  else
    if negb (acoustic_loss a) then
      raise (ValueError acoustic_only_message)
    else
      v <- ac_loss_call clean estimate ;;
      let ac := ac_loss_weight a * v in
      ret (ac, 0, ac).

(** The body of the loop of [_run_one_epoch] for batch number [i]; [tot]
    holds the three running totals. *)
Definition batch_step (epoch0 : nat) (cross_valid : bool) (i : nat)
                      (data : batch) (tot : R * R * R) : M (R * R * R) :=
  when (Nat.eqb ((i + 1) mod 1000) 0 && negb cross_valid) save_ckpts ;;;
  let '(noisy, clean) := data in
  aug <-
    (if negb cross_valid then
       let sources := (zip_with (zip_with Rminus) noisy clean, clean) in
       emit (EvAugment epoch0 i) ;;;
       let '(noise, clean') := augment epoch0 i sources in
       ret (zip_with (zip_with Rplus) noise clean', clean')
     else ret (noisy, clean)) ;;
  let '(noisy, clean) := aug in
  s <- get ;;
  emit (EvForward cross_valid epoch0 i) ;;;
  let estimate := dmodel (model s) (model_training s) noisy in
  losses <- compute_loss clean estimate ;;
  let '(loss0, enh_loss, ac_loss0) := losses in
  (* optimize model in training mode *)
  when (negb cross_valid)
       (s <- get ;;
        let '(m, o) := optimizer_step (args s) (model s) (optimizer s)
                                      (noisy, clean) in
        emit (EvOptimizerStep epoch0 i) ;;;
        modify (set_model m) ;;;
        modify (set_optimizer o)) ;;;
  let '(total_loss, total_enhancement_loss, total_acoustic_loss) := tot in
  ret (total_loss + loss0, total_enhancement_loss + enh_loss,
       total_acoustic_loss + ac_loss0).

(** [for i, data in enumerate(data_loader)], starting at index [i]. *)
Fixpoint for_batches (body : nat -> batch -> R * R * R -> M (R * R * R))
                     (i : nat) (l : list batch) (tot : R * R * R)
  : M (R * R * R) :=
  match l with
  | [] => ret tot
  | data :: l' => tot' <- body i data tot ;; for_batches body (S i) l' tot'
  end.

(** [Solver._run_one_epoch(epoch, cross_valid)]: the averaged total,
    enhancement and acoustic losses of the pass. *)
Definition _run_one_epoch (epoch0 : nat) (cross_valid : bool) : M (R * R * R) :=
  s <- get ;;
  match (if cross_valid then cv_loader s else tr_loader s) with
  | None => raise (AttributeError "epoch")
  | Some data_loader =>
      tot <- for_batches (batch_step epoch0 cross_valid) 0 data_loader
                         (0, 0, 0) ;;
      let '(total_loss, total_enhancement_loss, total_acoustic_loss) := tot in
      match data_loader with
      | [] => raise (UnboundLocalError "i")
      | _ :: _ =>
          let n := length data_loader in            (* i + 1 *)
          ret (distrib_average (total_loss / INR n) n,
               distrib_average (total_enhancement_loss / INR n) n,
               distrib_average (total_acoustic_loss / INR n) n)
      end
  end.

(** Truth value of a data loader: [None] and a loader without batches
    are false. *)
Definition truthy_loader (l : option (list batch)) : bool :=
  match l with
  | Some (_ :: _) => true
  | _ => false
  end.

(** Modelled from the spec: [pull_metric] of [denoiser.utils], which is
    not among the sources; [pull_metric(history, 'valid')] is the list of
    all previously recorded valid losses, in order. *)
Definition pull_metric_valid (h : list metrics) : list R := map valid h.

(** Python's [min] of a list: the first least element; [None] stands for
    the [ValueError] on an empty list. *)
Definition py_min (l : list R) : option R :=
  match l with
  | [] => None
  | x :: xs => Some (fold_left (fun m v => if Rlt_dec v m then v else m) xs x)
  end.

(** The cross-validation step of an epoch: the valid loss, which is 0
    when there is no validation data. *)
Definition cross_validation (epoch0 : nat) : M R :=
  s <- get ;;
  if truthy_loader (cv_loader s) then
    (* Cross validation *)
    modify (set_model_training false) ;;;
    valid_losses <- _run_one_epoch epoch0 true ;;
    emit EvPrintValidationFinished ;;;
    ret valid_losses.1.1
  else ret 0.

(** The end of an epoch on the coordinating worker: the history file and,
    with checkpointing enabled, the checkpoints. *)
Definition persist_epoch : M unit :=
  when (Nat.eqb distrib_rank 0)
       (s <- get ;;
        fs_do (Save (HistoryFile (history s)) (history_file (args s))) ;;;
        (* Save model each epoch *)
        when (checkpoint (args s)) (save_ckpts ;;; _serialize)).

(** The bookkeeping of an epoch once both losses are known: best loss,
    snapshot, evaluation when due, and the new record. *)
Definition record_epoch (epoch0 : nat) (train_loss0 valid_loss : R) : M unit :=
  s <- get ;;
  match py_min (pull_metric_valid (history s) ++ [valid_loss]) with
  | None => raise (ValueError "min() arg is an empty sequence")
  | Some best_loss =>
      let metrics0 := mkMetrics train_loss0 valid_loss best_loss None in
      (* Save the best model *)
      when (if Req_dec_T valid_loss best_loss then true else false)
           (modify (set_best_state (Some (model s)))) ;;;
      if Nat.eqb (eval_every (args s)) 0 then raise ZeroDivisionError
      else
        metrics1 <-
          (if (Nat.eqb ((epoch0 + 1) mod eval_every (args s)) 0
               || Nat.eqb (epoch0 + 1) (epochs (args s)))
              && truthy_loader (tt_loader s)
           then
             emit (EvEvaluate epoch0) ;;;
             let pq := evaluate (args s) (model s) (default [] (tt_loader s)) in
             emit (EvEnhance epoch0) ;;;
             ret (mkMetrics train_loss0 valid_loss best_loss (Some pq))
           else ret metrics0) ;;
        modify (fun s => set_history (history s ++ [metrics1]) s) ;;;
        persist_epoch
  end.

(** One iteration of the epoch loop of [train]. *)
Definition train_epoch (epoch0 : nat) : M unit :=
  modify (set_epoch epoch0) ;;;
  (* Train one epoch *)
  modify (set_model_training true) ;;;
  emit (EvPrintTrainEpoch (epoch0 + 1)) ;;;
  train_losses <- _run_one_epoch epoch0 false ;;
  valid_loss <- cross_validation epoch0 ;;
  record_epoch epoch0 train_losses.1.1 valid_loss.

Fixpoint for_epochs (l : list nat) : M unit :=
  match l with
  | [] => ret tt
  | e :: l' => train_epoch e ;;; for_epochs l'
  end.

Definition tensorboard_dir : string := "./tensorboard/log".

(** [Solver.train]; [range(len(self.history), self.epochs)] is evaluated
    once, before the first epoch. *)
Definition train : M unit :=
  s <- get ;;
  if save_again (args s) then _serialize
  else
    when (negb (exists_path tensorboard_dir (disk s)))
         (fs_do (Mkdir tensorboard_dir)) ;;;
    for_epochs (seq (length (history s))
                    (epochs (args s) - length (history s))).

(** ** Assertions on the outcome of a method *)

(** [post c s Qok Qerr]: run from [s], the computation [c] either returns
    a value and a state that satisfy [Qok], or raises an exception in a
    state that satisfies [Qerr]. *)
Definition post {A} (c : M A) (s : Solver)
                (Qok : A -> Solver -> Prop) (Qerr : exn -> Solver -> Prop)
  : Prop :=
  match c s with
  | (inr a, s') => Qok a s'
  | (inl e, s') => Qerr e s'
  end.

(** [c] keeps the relation [R] between the states before and after it,
    whatever its outcome. *)
Definition preserves (R : Solver -> Solver -> Prop) {A} (c : M A) : Prop :=
  forall s, R s (c s).2.

Definition is_acoustic_call (ev : event) : bool :=
  match ev with EvAcousticLoss _ => true | _ => false end.

(** An event that is not a call of the acoustic loss with a [mode]
    argument. *)
Definition without_mode (ev : event) : bool :=
  match ev with EvAcousticLoss (Some _) => false | _ => true end.

(** The epoch numbers printed by [print("Train Epoch: ", epoch+1)]. *)
Definition printed_epochs (t : list event) : list nat :=
  flat_map (fun ev => match ev with EvPrintTrainEpoch n => [n] | _ => [] end) t.

(** What every step inside an epoch guarantees: the options and the
    loaders stay as they are; the log grows by events among which no
    acoustic-loss call carries a mode and no epoch is announced; and the
    acoustic-loss object is either untouched (no call was made) or has
    its estimator in training mode. *)
Definition step_ok (s s' : Solver) : Prop :=
  args s' = args s /\ tr_loader s' = tr_loader s
  /\ cv_loader s' = cv_loader s /\ tt_loader s' = tt_loader s /\
  exists t, trace s' = (trace s ++ t)%list
            /\ forallb without_mode t = true
            /\ printed_epochs t = []
            /\ if existsb is_acoustic_call t
               then est_training (ac_loss s') = true
               else ac_loss s' = ac_loss s.

(** What a pass over a loader leaves alone. *)
Definition pass_frame (s s' : Solver) : Prop :=
  history s' = history s /\ best_state s' = best_state s.

(** What the end of an epoch (history file, checkpoints) leaves alone. *)
Definition disk_only (s s' : Solver) : Prop :=
  history s' = history s /\ best_state s' = best_state s
  /\ model s' = model s /\ optimizer s' = optimizer s
  /\ epoch s' = epoch s /\ model_training s' = model_training s.

(** The options under which every batch reaches a call of the acoustic
    loss: the acoustic loss is enabled and, unless acoustic-loss-only is
    set, the enhancement-loss kind is a recognised one. *)
Definition calls_acoustic_loss (a : Args) : bool :=
  acoustic_loss a
  && (acoustic_loss_only a
      || bool_decide (loss a = "l1") || bool_decide (loss a = "l2")
      || bool_decide (loss a = "huber")).

(** [b] is a least element of [l]. *)
Definition is_min (b : R) (l : list R) : Prop :=
  In b l /\ Forall (Rle b) l.

(** From index [n] on, the ['best'] entry of every record is the least
    ['valid'] entry of the records up to and including it. *)
Definition best_is_running_min_from (n : nat) (h : list metrics) : Prop :=
  forall k m, (n <= k)%nat -> h !! k = Some m ->
              is_min (best m) (map valid (take (S k) h)).

(** What an iteration of the epoch loop for epoch [e] guarantees in any
    case: options and loaders stay, and the log grows by events that
    announce exactly the epoch number [e + 1]. *)
Definition epoch_frame (e : nat) (s s' : Solver) : Prop :=
  args s' = args s /\ tr_loader s' = tr_loader s
  /\ cv_loader s' = cv_loader s /\ tt_loader s' = tt_loader s /\
  exists t, trace s' = (trace s ++ t)%list /\ printed_epochs t = [(e + 1)%nat].

(** An iteration that returns: exactly one record [m] is appended; its
    ['best'] is the least of all recorded valid losses, its own
    included; its ['valid'] is 0 when there is no validation data; and
    Best State is the current model state when ['valid'] equals
    ['best'], the Best State of before otherwise. *)
Definition epoch_completed (e : nat) (s s' : Solver) : Prop :=
  epoch_frame e s s' /\
  exists m, history s' = (history s ++ [m])%list
            /\ is_min (best m) (map valid (history s) ++ [valid m])
            /\ (truthy_loader (cv_loader s) = false -> valid m = 0)
            /\ best_state s' = if Req_dec_T (valid m) (best m)
                               then Some (model s') else best_state s.

(** An iteration that raises: nothing is recorded. *)
Definition epoch_failed (e : nat) (s s' : Solver) : Prop :=
  epoch_frame e s s' /\ history s' = history s.

(** The state [s'] that the epoch loop over the epoch indices [l],
    started in [s], has reached after [n] completed iterations and [p]
    announced epochs: the announced epochs are the first [p] of [l], in
    order; the history has grown by [n] records; the ['best'] of every
    new record is the least of all ['valid'] entries up to and including
    it; and without validation data every new ['valid'] is 0. *)
Definition epochs_run (l : list nat) (n p : nat) (s s' : Solver) : Prop :=
  args s' = args s /\ tr_loader s' = tr_loader s
  /\ cv_loader s' = cv_loader s /\ tt_loader s' = tt_loader s
  /\ (exists t, trace s' = (trace s ++ t)%list
                /\ printed_epochs t = map (fun e => (e + 1)%nat) (take p l))
  /\ exists new,
       history s' = (history s ++ new)%list /\ length new = n
       /\ (forall j m, new !! j = Some m ->
             is_min (best m) (map valid (history s ++ take (S j) new)))
       /\ (truthy_loader (cv_loader s) = false ->
           Forall (fun m => valid m = 0) new).

(** The options under which no batch can raise: a recognised
    enhancement-loss kind, and neither the acoustic loss nor the
    acoustic-loss-only mode. *)
Definition plain_losses (a : Args) : bool :=
  negb (acoustic_loss a) && negb (acoustic_loss_only a)
  && (bool_decide (loss a = "l1") || bool_decide (loss a = "l2")
      || bool_decide (loss a = "huber")).

(** A computation that returns a value (raises nothing) from [s]. *)
Definition returns {A} (c : M A) (s : Solver) : Prop :=
  exists a, (c s).1 = inr a.

(** ** Further assertions *)

(** The three running totals (total, enhancement, acoustic) agree: the
    total is the sum of the other two. *)
Definition sum_ok (tot : R * R * R) : Prop := tot.1.1 = tot.1.2 + tot.2.

(** The events of a validation pass: forward passes of the model in
    validation and calls of the acoustic loss. *)
Definition is_validation_event (ev : event) : bool :=
  match ev with
  | EvForward true _ _ | EvAcousticLoss _ => true
  | _ => false
  end.

(** What a validation pass leaves alone: the model, the optimizer, the
    disk, the epoch counter, the mode of the model, the history and Best
    State; the log grows by validation events only. *)
Definition validation_frame (s s' : Solver) : Prop :=
  model s' = model s /\ optimizer s' = optimizer s /\ disk s' = disk s
  /\ epoch s' = epoch s /\ model_training s' = model_training s
  /\ history s' = history s /\ best_state s' = best_state s
  /\ exists t, trace s' = (trace s ++ t)%list
               /\ forallb is_validation_event t = true.

(** The disk is as before and no file-system operation was logged. *)
Definition disk_kept (s s' : Solver) : Prop :=
  disk s' = disk s
  /\ exists t, trace s' = (trace s ++ t)%list /\ fs_ops t = [].

(** The condition under which an epoch evaluates on the test set: the
    epoch number is a multiple of [eval_every], or the epoch is the last
    one; and there are test data. *)
Definition evaluation_due (e : nat) (s : Solver) : bool :=
  (Nat.eqb ((e + 1) mod eval_every (args s)) 0
   || Nat.eqb (e + 1) (epochs (args s)))
  && truthy_loader (tt_loader s).

(** The history file is none of the files the checkpoints are written
    to. *)
Definition history_file_apart (a : Args) : Prop :=
  (forall n, history_file a <> ckpt_path n)
  /\ history_file a <> checkpoint_file a
  /\ history_file a <> checkpoint_file a +:+ ".tmp"
  /\ history_file a <> best_file a
  /\ history_file a <> best_file a +:+ ".tmp".

(** The checkpoint file, the best file and their temporary names do not
    collide. *)
Definition checkpoint_files_apart (a : Args) : Prop :=
  checkpoint_file a <> best_file a
  /\ checkpoint_file a <> best_file a +:+ ".tmp"
  /\ checkpoint_file a +:+ ".tmp" <> best_file a.

(** The batch indices of the optimizer steps of a log, in order. *)
Definition optimizer_steps (t : list event) : list nat :=
  flat_map (fun ev => match ev with EvOptimizerStep _ i => [i] | _ => [] end)
           t.

(** The log has grown by events among which the optimizer steps are
    those of the batches [l], in order. *)
Definition steps_made (l : list nat) (s s' : Solver) : Prop :=
  exists t, trace s' = (trace s ++ t)%list /\ optimizer_steps t = l.

End Methods.
End solver.
(* ===================================================================== *)
(** * Concrete collaborators, used to run the embedding on inputs *)
(* ===================================================================== *)

Module Examples.
Import Tensor TAPLoss solver.
Open Scope R_scope.

(** An estimator without parameters that answers two zeros per frame; its
    checkpoint is stored under ["tap.pt"]. *)
Definition ex_estimator : Estimator :=
  {| est_params := unit;
     AcousticEstimator := tt;
     torch_load_state_dict :=
       fun p => if decide (p = "tap.pt") then Some tt else None;
     load_state_dict := fun _ st => Some st;
     estimate := fun _ _ _ spec => map2d (fun _ => [0; 0]) spec |}.

(** Model and optimizer states are numbers; the model is the identity,
    an optimizer step adds one to both states, and one worker runs. *)
Definition ex_collaborators : Collaborators :=
  {| model_state := nat;
     optim_state := nat;
     augment := fun _ _ src => src;
     dmodel := fun _ _ x => x;
     l1_loss := fun _ _ => 0;
     mse_loss := fun _ _ => 0;
     smooth_l1_loss := fun _ _ => 0;
     mrstftloss := fun _ _ => (0, 0);
     optimizer_step := fun _ m o _ => (S m, S o);
     distrib_average := fun x _ => x;
     distrib_rank := 0%nat;
     evaluate := fun _ _ _ => (0, 0);
     pretrained := fun _ => None |}.

#[local] Existing Instance ex_estimator.
#[local] Existing Instance ex_collaborators.

(** Options of a run of two epochs with the l1 loss; the parameters are
    the options the examples vary. *)
Definition ex_args_with (continue_from0 : string)
                        (checkpoint0 save_checkpoints0 : bool)
                        (acoustic_loss_only0 acoustic_loss0 : bool) : Args :=
  {| epochs := 2; eval_every := 10; continue_from := continue_from0;
     checkpoint := checkpoint0; checkpoint_file := "checkpoint.th";
     best_file := "best.th"; history_file := "history.json";
     restart := false; samples_dir := "samples"; optim := "adam";
     save_checkpoints := save_checkpoints0; continue_best := false;
     continue_pretrained := ""; save_again := false;
     acoustic_loss_only := acoustic_loss_only0; loss := "l1";
     stft_loss := false; stft_loss_weight := 0;
     acoustic_loss := acoustic_loss0; ac_loss_weight := 1;
     gradient_clip := false; grad_max_norm := 0; use_amp := false |}.

Definition ex_args : Args := ex_args_with "" false false false false.

(** The acoustic-loss object [AcousticLoss("l2", "tap.pt")]. *)
Definition ex_ac_loss : AcousticLoss :=
  mkAcousticLoss "cuda" tt true 0 "l2" (Some MSELoss) None.

Definition empty_disk : FS nat nat := mkFS ∅ ∅.

(** One batch holding one waveform without samples. *)
Definition ex_loader : option (list batch) := Some [([[]], [[]])].

(** A Solver as [__init__] leaves it: fresh, one training batch, no
    validation and no test data. *)
Definition ex_solver (a : Args) (d : FS nat nat) : Solver :=
  init_fields ex_loader None None 0%nat 0%nat a ex_ac_loss d.

(** A checkpoint package written by an earlier run: model state 5,
    optimizer state 7, best state 3 and one record in the history. *)
Definition ex_package : package nat nat :=
  mkPackage (mkSerialized (Some 5%nat)) (Some 7%nat)
            [mkMetrics 1 1 1 None] (Some 3%nat) ex_args.

(** A disk that holds that package under ["external.th"]. *)
Definition ex_disk_external : FS nat nat :=
  mkFS {[ "external.th" := Complete (PackageFile ex_package) ]} ∅.

(** Options that name that package as the external checkpoint. *)
Definition ex_args_external : Args :=
  ex_args_with "external.th" false false false false.

(** Options that ask for acoustic-loss-only mode with the acoustic loss
    disabled. *)
Definition ex_args_acoustic_only : Args :=
  ex_args_with "" false false true false.

(** Options with the acoustic loss enabled. *)
Definition ex_args_acoustic : Args :=
  ex_args_with "" false false false true.

(** An acoustic-loss object whose estimator is in evaluation mode. *)
Definition ex_ac_loss_eval : AcousticLoss :=
  mkAcousticLoss "cuda" tt false 0 "l2" (Some MSELoss) None.

(** A Solver with validation data, the acoustic loss enabled, and the
    estimator of the acoustic loss in evaluation mode. *)
Definition ex_solver_valid : Solver :=
  mkSolver ex_args_acoustic ex_loader ex_loader None 0%nat false 0%nat
           0%nat [] None ex_ac_loss_eval empty_disk [].

(** Options with checkpointing and the periodic named checkpoints
    enabled. *)
Definition ex_args_checkpoints : Args :=
  ex_args_with "" true true false false.

(** The object [AcousticLoss("cosine", "tap.pt")], of a loss kind that is
    none of the four. *)
Definition ex_ac_loss_cosine : AcousticLoss :=
  mkAcousticLoss "cuda" tt true 0 "cosine" None None.

(** A waveform of 512 samples, all equal to one. *)
Definition constant_waveform : tensor1 := repeat 1 512.

(** Options for the runs at the edges: the parameters are checkpointing,
    save-again, the evaluation period, the enhancement-loss kind and the
    name of a pretrained model. *)
Definition ex_args_edge (checkpoint0 save_again0 : bool) (eval_every0 : nat)
                        (loss0 continue_pretrained0 : string) : Args :=
  {| epochs := 2; eval_every := eval_every0; continue_from := "";
     checkpoint := checkpoint0; checkpoint_file := "checkpoint.th";
     best_file := "best.th"; history_file := "history.json";
     restart := false; samples_dir := "samples"; optim := "adam";
     save_checkpoints := false; continue_best := false;
     continue_pretrained := continue_pretrained0; save_again := save_again0;
     acoustic_loss_only := false; loss := loss0;
     stft_loss := false; stft_loss_weight := 0;
     acoustic_loss := false; ac_loss_weight := 1;
     gradient_clip := false; grad_max_norm := 0; use_amp := false |}.

(** Checkpointing enabled, to be resumed from. *)
Definition ex_args_resume : Args := ex_args_edge true false 10 "l1" "".

(** Only serialize again. *)
Definition ex_args_save_again : Args := ex_args_edge true true 10 "l1" "".

(** An evaluation period of zero epochs. *)
Definition ex_args_eval_never : Args := ex_args_edge false false 0 "l1" "".

(** An enhancement-loss kind that is none of the three. *)
Definition ex_args_cosine : Args := ex_args_edge false false 10 "cosine" "".

(** Fine tuning from the pretrained model ["dns48"]. *)
Definition ex_args_pretrained : Args :=
  ex_args_edge false false 10 "l1" "dns48".

(** The collaborators of the examples with a registry that holds the
    pretrained model ["dns48"], of state 48. *)
Definition ex_collaborators_zoo : Collaborators :=
  {| model_state := nat;
     optim_state := nat;
     augment := fun _ _ src => src;
     dmodel := fun _ _ x => x;
     l1_loss := fun _ _ => 0;
     mse_loss := fun _ _ => 0;
     smooth_l1_loss := fun _ _ => 0;
     mrstftloss := fun _ _ => (0, 0);
     optimizer_step := fun _ m o _ => (S m, S o);
     distrib_average := fun x _ => x;
     distrib_rank := 0%nat;
     evaluate := fun _ _ _ => (0, 0);
     pretrained := fun name => if decide (name = "dns48") then Some 48%nat
                               else None |}.

(** A disk that holds the package of the examples as the checkpoint
    file. *)
Definition ex_disk_checkpoint : FS nat nat :=
  mkFS (<["checkpoint.th" := Complete (PackageFile ex_package)]> ∅) ∅.

(** The disk a process leaves that is killed while [_serialize] writes
    the temporary checkpoint file on an empty disk. *)
Definition ex_disk_crashed : FS nat nat :=
  mkFS (<["checkpoint.th.tmp" := Partial]> ∅) ∅.


(** A fresh Solver without any loader. *)
Definition ex_solver_no_data : Solver :=
  init_fields None None None 0%nat 0%nat ex_args ex_ac_loss empty_disk.

(** A fresh Solver with one training batch and one test batch. *)
Definition ex_solver_tested : Solver :=
  init_fields ex_loader None ex_loader 0%nat 0%nat ex_args ex_ac_loss
              empty_disk.

End Examples.

(* ===================================================================== *)
(** * Properties of the Solver *)
(* ===================================================================== *)

Import Tensor TAPLoss solver.

(** Unfolds the monad operations in a goal. *)
Ltac unfold_M :=
  unfold bind, ret, raise, get, modify, emit, when, fs_do in *.

Section SolverFacts.
Context `{Estimator} `{Collaborators}.

(** ** [save_ckpts] *)

Lemma exists_path_mkdir (p : string) (d : FS model_state optim_state) :
  exists_path p (mkFS (files d) ({[p]} ∪ dirs d)) = true.
Proof.
  unfold exists_path; cbn.
  rewrite bool_decide_eq_true_2; [done | set_solver].
Qed.

(** C10.  Every invocation of [save_ckpts] returns normally and leaves a
    path ["./checkpoints"] on disk: the directory is created when the
    path did not exist, whatever the periodic-checkpoint-save toggle says.
    The only file it can write is the named checkpoint of the current
    epoch, and with the toggle off it writes no file at all. *)
Theorem save_ckpts_creates_checkpoints_dir (s : Solver) :
  (save_ckpts s).1 = inr tt
  ∧ exists_path checkpoints_dir (disk (save_ckpts s).2) = true
  ∧ dirs (disk (save_ckpts s).2) =
      (if exists_path checkpoints_dir (disk s) then dirs (disk s)
       else {[checkpoints_dir]} ∪ dirs (disk s))
  ∧ files (disk (save_ckpts s).2) =
      (if save_checkpoints (args s)
       then <[ckpt_path (epoch s + 1) := Complete (PackageFile (make_package s))]>
              (files (disk s))
       else files (disk s)).
Proof.
  unfold save_ckpts; unfold_M.
  destruct (exists_path checkpoints_dir (disk s)) eqn:Hex;
    destruct (save_checkpoints (args s)) eqn:Hsave; cbn;
    rewrite ?Hsave; cbn; rewrite ?Hex; repeat split; try done.
  - unfold exists_path in *; cbn.
    apply orb_true_iff in Hex as [Hd | Hf].
    + by rewrite Hd.
    + apply bool_decide_eq_true in Hf.
      apply orb_true_iff; right; apply bool_decide_eq_true.
      rewrite lookup_insert. case_decide; [by eexists | done].
  - unfold exists_path; cbn.
    rewrite bool_decide_eq_true_2; [done | set_solver].
  - apply exists_path_mkdir.
Qed.

(** ** [_serialize] writes through temporary files *)

Lemma serialize_trace (s : Solver) :
  checkpoint (args s) = true ->
  (_serialize s).1 = inr ()
  /\ trace (_serialize s).2 = (trace s ++ map EvFs (serialize_ops s))%list.
Proof.
  intros Hc. unfold _serialize, serialize_ops; unfold_M; cbn.
  rewrite Hc; cbn.
  rewrite lookup_insert_eq; cbn. rewrite lookup_insert_eq; cbn.
  by rewrite <- !app_assoc.
Qed.

(** Whenever the process is killed during [_serialize], a path that is
    not one of the two temporary names never holds a half-written file,
    unless it did before: the checkpoint and the best model appear under
    their final names by a rename only. *)
Lemma serialize_crash_safe (s : Solver) (p : string)
    (d : FS model_state optim_state) :
  p <> checkpoint_file (args s) +:+ ".tmp" ->
  p <> best_file (args s) +:+ ".tmp" ->
  files (disk s) !! p <> Some Partial ->
  In d (crash_states (serialize_ops s) (disk s)) ->
  files d !! p <> Some Partial.
Proof.
  intros Hp1 Hp2 Hinit Hin. unfold serialize_ops in Hin.
  cbn in Hin. rewrite lookup_insert_eq in Hin. cbn in Hin.
  rewrite lookup_insert_eq in Hin. cbn in Hin.
  repeat (destruct Hin as [<- | Hin]); try done; cbn;
    repeat first
      [ rewrite lookup_insert_ne by done
      | rewrite lookup_delete_ne by done
      | rewrite lookup_insert; case_decide; [done |] ];
    done.
Qed.

(** ** [_reset] *)

(** C3, as the code has it.  When no resumable checkpoint is found and an
    external continue-from checkpoint is given (and readable, with the
    state it is asked for, and no pretrained model is named), [__init__]
    returns normally with: the model state of the package (its best-state
    snapshot when the continue-best flag is set, its latest state
    otherwise); the optimizer state of the package when the package has
    one, the flag is not set and the optimizer kind is adam, the
    optimizer unchanged otherwise; the best state of the package as Best
    State; and an empty history, so [train] counts epochs from zero. *)
Theorem reset_from_external_checkpoint
    (trl cvl ttl : option (list batch)) (m0 : model_state) (o0 : optim_state)
    (a : Args) (acl : AcousticLoss) (d : FS model_state optim_state)
    (p : package model_state optim_state) (m : model_state) :
  checkpoint a && exists_path (checkpoint_file a) d && negb (restart a) = false ->
  truthy_str (continue_from a) = true ->
  files d !! continue_from a = Some (Complete (PackageFile p)) ->
  (if continue_best a then pkg_best_state p else sm_state (pkg_model p)) = Some m ->
  truthy_str (continue_pretrained a) = false ->
  (Solver_init trl cvl ttl m0 o0 a acl d).1 = inr tt
  ∧ model (Solver_init trl cvl ttl m0 o0 a acl d).2 = m
  ∧ optimizer (Solver_init trl cvl ttl m0 o0 a acl d).2 =
      match pkg_optimizer p with
      | Some o => if negb (continue_best a) && bool_decide (optim a = "adam")
                  then o else o0
      | None => o0
      end
  ∧ best_state (Solver_init trl cvl ttl m0 o0 a acl d).2 = pkg_best_state p
  ∧ history (Solver_init trl cvl ttl m0 o0 a acl d).2 = []
  ∧ seq (length (history (Solver_init trl cvl ttl m0 o0 a acl d).2))
        (epochs a - length (history (Solver_init trl cvl ttl m0 o0 a acl d).2))
    = seq 0 (epochs a).
Proof.
  intros Hno Hcf Hfile Hstate Hpre.
  unfold Solver_init, _reset, torch_load, model_load_state_dict; unfold_M.
  cbn. rewrite Hno, Hcf, Hpre; cbn. rewrite Hfile; cbn.
  destruct (continue_best a); cbn in *; rewrite Hstate; cbn;
    destruct (pkg_optimizer p); cbn;
    try destruct (bool_decide (optim a = "adam")); cbn;
    rewrite ?Nat.sub_0_r; done.
Qed.

(** ** The monad *)

Lemma bind_inl {A B} (c : M A) (k : A -> M B) (s s' : Solver) (e : exn) :
  c s = (inl e, s') -> bind c k s = (inl e, s').
Proof. unfold bind. by intros ->. Qed.

Lemma bind_inr {A B} (c : M A) (k : A -> M B) (s s' : Solver) (a : A) :
  c s = (inr a, s') -> bind c k s = k a s'.
Proof. unfold bind. by intros ->. Qed.

Lemma get_eq (s : Solver) : get s = (inr s, s).
Proof. reflexivity. Qed.

Lemma post_bind {A B} (c : M A) (k : A -> M B) (s : Solver)
    (Qok : B -> Solver -> Prop) (Qerr : exn -> Solver -> Prop) :
  post c s (fun a s1 => post (k a) s1 Qok Qerr) Qerr ->
  post (bind c k) s Qok Qerr.
Proof. unfold post, bind. by destruct (c s) as [[e | a] s1]. Qed.

Lemma post_conseq {A} (c : M A) (s : Solver)
    (Qok Qok' : A -> Solver -> Prop) (Qerr Qerr' : exn -> Solver -> Prop) :
  post c s Qok Qerr ->
  (forall a s', Qok a s' -> Qok' a s') ->
  (forall e s', Qerr e s' -> Qerr' e s') ->
  post c s Qok' Qerr'.
Proof. unfold post. destruct (c s) as [[e | a] s1]; auto. Qed.

Lemma post_and {A} (c : M A) (s : Solver)
    (Qok Qok' : A -> Solver -> Prop) (Qerr Qerr' : exn -> Solver -> Prop) :
  post c s Qok Qerr -> post c s Qok' Qerr' ->
  post c s (fun a s' => Qok a s' /\ Qok' a s')
           (fun e s' => Qerr e s' /\ Qerr' e s').
Proof. unfold post. by destruct (c s) as [[e | a] s1]. Qed.

Lemma post_preserves {A} (R : Solver -> Solver -> Prop) (c : M A) (s : Solver) :
  preserves R c -> post c s (fun _ s' => R s s') (fun _ s' => R s s').
Proof.
  intros Hc. specialize (Hc s). unfold post.
  by destruct (c s) as [[e | a] s1].
Qed.

Lemma post_outcome {A} (c : M A) (s : Solver)
    (Qok : A -> Solver -> Prop) (Qerr : exn -> Solver -> Prop) :
  post c s Qok Qerr ->
  match (c s).1 with
  | inr a => Qok a (c s).2
  | inl e => Qerr e (c s).2
  end.
Proof. unfold post. by destruct (c s) as [[e | a] s1]. Qed.

(** Relations kept by the monad operations. *)
Section Preserves.
Variable Rel : Solver -> Solver -> Prop.
Hypothesis R_refl : forall s, Rel s s.
Hypothesis R_trans : forall s1 s2 s3, Rel s1 s2 -> Rel s2 s3 -> Rel s1 s3.

Lemma preserves_ret {A} (a : A) : preserves Rel (ret a).
Proof. intros s. apply R_refl. Qed.

Lemma preserves_raise {A} (e : exn) : preserves Rel (raise (A := A) e).
Proof. intros s. apply R_refl. Qed.

Lemma preserves_get : preserves Rel get.
Proof. intros s. apply R_refl. Qed.

Lemma preserves_bind {A B} (c : M A) (k : A -> M B) :
  preserves Rel c -> (forall a, preserves Rel (k a)) -> preserves Rel (bind c k).
Proof.
  intros Hc Hk s. unfold bind. specialize (Hc s).
  destruct (c s) as [[e | a] s1]; [done |].
  eapply R_trans; [exact Hc | apply Hk].
Qed.

Lemma preserves_when (b : bool) (c : M unit) :
  preserves Rel c -> preserves Rel (when b c).
Proof. destruct b; [done | intros _; apply preserves_ret]. Qed.

Lemma preserves_modify (f : Solver -> Solver) :
  (forall s, Rel s (f s)) -> preserves Rel (modify f).
Proof. intros Hf s. apply Hf. Qed.

Lemma preserves_fs_do (op : fs_op model_state optim_state) :
  (forall s d, Rel s (add_event (EvFs op) (set_disk d s))) ->
  preserves Rel (fs_do op).
Proof.
  intros Hf s. unfold fs_do.
  destruct (apply_op op (disk s)); [apply Hf | apply R_refl].
Qed.

Lemma preserves_for_batches (body : nat -> batch -> R * R * R -> M (R * R * R))
    (l : list batch) :
  (forall i b tot, preserves Rel (body i b tot)) ->
  forall i tot, preserves Rel (for_batches body i l tot).
Proof.
  intros Hbody. induction l as [| b l IH]; intros i tot; cbn.
  - apply preserves_ret.
  - apply preserves_bind; [apply Hbody | intros a; apply IH].
Qed.

End Preserves.

(** ** The three frame relations *)

Lemma step_ok_refl (s : Solver) : step_ok s s.
Proof.
  repeat split; try done. exists []. by rewrite app_nil_r.
Qed.

Lemma step_ok_trans (s1 s2 s3 : Solver) :
  step_ok s1 s2 -> step_ok s2 s3 -> step_ok s1 s3.
Proof.
  intros (Ha & Htr & Hcv & Htt & t & Ht & Hm & Hp & Hac)
         (Ha' & Htr' & Hcv' & Htt' & t' & Ht' & Hm' & Hp' & Hac').
  repeat split; try congruence.
  exists (t ++ t')%list. repeat split.
  - by rewrite Ht', Ht, app_assoc.
  - rewrite forallb_app, Hm, Hm'; done.
  - unfold printed_epochs in *. by rewrite flat_map_app, Hp, Hp'.
  - rewrite existsb_app.
    destruct (existsb is_acoustic_call t'); [by rewrite orb_true_r |].
    rewrite orb_false_r, Hac'.
    by destruct (existsb is_acoustic_call t).
Qed.

Lemma pass_frame_refl (s : Solver) : pass_frame s s.
Proof. done. Qed.

Lemma pass_frame_trans (s1 s2 s3 : Solver) :
  pass_frame s1 s2 -> pass_frame s2 s3 -> pass_frame s1 s3.
Proof. unfold pass_frame. intuition congruence. Qed.

Lemma disk_only_refl (s : Solver) : disk_only s s.
Proof. done. Qed.

Lemma disk_only_trans (s1 s2 s3 : Solver) :
  disk_only s1 s2 -> disk_only s2 s3 -> disk_only s1 s3.
Proof. unfold disk_only. intuition congruence. Qed.

(** A step that logs the events [t] and leaves the acoustic-loss object
    alone. *)
Lemma step_ok_events (s s' : Solver) (t : list event) :
  args s' = args s -> tr_loader s' = tr_loader s ->
  cv_loader s' = cv_loader s -> tt_loader s' = tt_loader s ->
  trace s' = (trace s ++ t)%list ->
  forallb without_mode t = true -> printed_epochs t = [] ->
  existsb is_acoustic_call t = false -> ac_loss s' = ac_loss s ->
  step_ok s s'.
Proof.
  intros. repeat split; try done. exists t. repeat split; try done.
  by rewrite H8.
Qed.

(** The estimator is in training mode after every call that leaves the
    mode argument out. *)
Lemma call_without_mode_trains (clean enhan : tensor2) (o : AcousticLoss) :
  est_training (AcousticLoss_call clean enhan None o).2 = true.
Proof.
  unfold AcousticLoss_call, forward, forward_loss; cbn.
  destruct (get_stft clean false) as [e | [cs ?]]; [done |].
  destruct (get_stft enhan true) as [e | [es [en |]]]; done.
Qed.

Lemma step_ok_ac_loss_call (clean estimate : waveform) :
  preserves step_ok (ac_loss_call clean estimate).
Proof.
  intros s. unfold ac_loss_call; unfold_M; cbn.
  pose proof (call_without_mode_trains clean estimate (ac_loss s)) as Ht.
  destruct (AcousticLoss_call clean estimate None (ac_loss s)) as [r o].
  cbn in *. repeat split. exists [EvAcousticLoss None]. by repeat split.
Qed.

Lemma pass_frame_ac_loss_call (clean estimate : waveform) :
  preserves pass_frame (ac_loss_call clean estimate).
Proof.
  intros s. unfold ac_loss_call; unfold_M; cbn.
  by destruct (AcousticLoss_call clean estimate None _) as [r o].
Qed.

(** Decomposes a goal [preserves Rel c] along the structure of [c]; the
    leaves are left to [leaf]. *)
Ltac preserves_with refl trans leaf :=
  repeat first
    [ leaf
    | apply preserves_ret; exact refl
    | apply preserves_raise; exact refl
    | apply preserves_get; exact refl
    | apply preserves_bind; [exact trans | | intros ?]
    | apply preserves_when; [exact refl |]
    | apply preserves_for_batches; [exact refl | exact trans | intros ? ? ?]
    | lazymatch goal with
      | |- preserves _ (if ?b then _ else _) => destruct b
      | |- preserves _ (match ?x with _ => _ end) => destruct x
      end ].

Ltac step_ok_leaf :=
  first
    [ apply step_ok_ac_loss_call
    | apply preserves_modify; intros ?;
      eapply (step_ok_events _ _ []); cbn; rewrite ?app_nil_r; reflexivity
    | apply preserves_fs_do; [apply step_ok_refl |]; intros ? ?;
      eapply (step_ok_events _ _ [_]); cbn; reflexivity
    | unfold emit; apply preserves_modify; intros ?;
      eapply (step_ok_events _ _ [_]); cbn; reflexivity ].

Ltac pass_frame_leaf :=
  first
    [ apply pass_frame_ac_loss_call
    | apply preserves_modify; intros ?; by repeat split
    | apply preserves_fs_do; [apply pass_frame_refl |]; intros ? ?;
      by repeat split
    | unfold emit; apply preserves_modify; intros ?; by repeat split ].

Ltac disk_only_leaf :=
  first
    [ apply preserves_modify; intros ?; by repeat split
    | apply preserves_fs_do; [apply disk_only_refl |]; intros ? ?;
      by repeat split
    | unfold emit; apply preserves_modify; intros ?; by repeat split ].

Lemma step_ok_save_ckpts : preserves step_ok save_ckpts.
Proof.
  unfold save_ckpts.
  preserves_with step_ok_refl step_ok_trans step_ok_leaf.
Qed.

Lemma pass_frame_save_ckpts : preserves pass_frame save_ckpts.
Proof.
  unfold save_ckpts.
  preserves_with pass_frame_refl pass_frame_trans pass_frame_leaf.
Qed.

Lemma disk_only_save_ckpts : preserves disk_only save_ckpts.
Proof.
  unfold save_ckpts.
  preserves_with disk_only_refl disk_only_trans disk_only_leaf.
Qed.

Lemma step_ok_serialize : preserves step_ok _serialize.
Proof.
  unfold _serialize.
  preserves_with step_ok_refl step_ok_trans step_ok_leaf.
Qed.

Lemma disk_only_serialize : preserves disk_only _serialize.
Proof.
  unfold _serialize.
  preserves_with disk_only_refl disk_only_trans disk_only_leaf.
Qed.

Lemma step_ok_compute_loss (clean estimate : waveform) :
  preserves step_ok (compute_loss clean estimate).
Proof.
  unfold compute_loss.
  preserves_with step_ok_refl step_ok_trans step_ok_leaf.
Qed.

Lemma pass_frame_compute_loss (clean estimate : waveform) :
  preserves pass_frame (compute_loss clean estimate).
Proof.
  unfold compute_loss.
  preserves_with pass_frame_refl pass_frame_trans pass_frame_leaf.
Qed.

Lemma step_ok_batch_step (e : nat) (cv : bool) (i : nat) (b : batch)
    (tot : R * R * R) :
  preserves step_ok (batch_step e cv i b tot).
Proof.
  unfold batch_step.
  preserves_with step_ok_refl step_ok_trans
    ltac:(first [apply step_ok_save_ckpts | apply step_ok_compute_loss
                | step_ok_leaf]).
Qed.

Lemma pass_frame_batch_step (e : nat) (cv : bool) (i : nat) (b : batch)
    (tot : R * R * R) :
  preserves pass_frame (batch_step e cv i b tot).
Proof.
  unfold batch_step.
  preserves_with pass_frame_refl pass_frame_trans
    ltac:(first [apply pass_frame_save_ckpts | apply pass_frame_compute_loss
                | pass_frame_leaf]).
Qed.

Lemma step_ok_run_one_epoch (e : nat) (cv : bool) :
  preserves step_ok (_run_one_epoch e cv).
Proof.
  unfold _run_one_epoch.
  preserves_with step_ok_refl step_ok_trans
    ltac:(first [apply step_ok_batch_step | step_ok_leaf]).
Qed.

Lemma pass_frame_run_one_epoch (e : nat) (cv : bool) :
  preserves pass_frame (_run_one_epoch e cv).
Proof.
  unfold _run_one_epoch.
  preserves_with pass_frame_refl pass_frame_trans
    ltac:(first [apply pass_frame_batch_step | pass_frame_leaf]).
Qed.

(** ** The acoustic-loss-only check *)

(** The first training batch: augmentation, forward pass, then the
    check. *)
Lemma batch_step_acoustic_only_error
    (e : nat) (b : batch) (tot : R * R * R) (s : Solver) :
  acoustic_loss_only (args s) = true ->
  acoustic_loss (args s) = false ->
  batch_step e false 0 b tot s =
    (inl (ValueError acoustic_only_message),
     add_event (EvForward false e 0) (add_event (EvAugment e 0) s)).
Proof.
  intros Halo Hal. destruct b as [noisy clean].
  unfold batch_step; unfold_M; cbn.
  destruct (augment _ _ _) as [noise clean']; cbn.
  unfold compute_loss; unfold_M; cbn.
  by rewrite Halo, Hal.
Qed.

Lemma run_one_epoch_acoustic_only_error
    (e : nat) (b : batch) (bs : list batch) (s : Solver) :
  acoustic_loss_only (args s) = true ->
  acoustic_loss (args s) = false ->
  tr_loader s = Some (b :: bs) ->
  _run_one_epoch e false s =
    (inl (ValueError acoustic_only_message),
     add_event (EvForward false e 0) (add_event (EvAugment e 0) s)).
Proof.
  intros Halo Hal Htr.
  unfold _run_one_epoch.
  rewrite (bind_inr _ _ _ _ _ (get_eq s)), Htr.
  cbn [for_batches].
  apply bind_inl, bind_inl.
  by apply batch_step_acoustic_only_error.
Qed.

Lemma train_epoch_acoustic_only_error
    (e : nat) (b : batch) (bs : list batch) (s : Solver) :
  acoustic_loss_only (args s) = true ->
  acoustic_loss (args s) = false ->
  tr_loader s = Some (b :: bs) ->
  train_epoch e s =
    (inl (ValueError acoustic_only_message),
     add_event (EvForward false e 0)
       (add_event (EvAugment e 0)
          (add_event (EvPrintTrainEpoch (e + 1))
             (set_model_training true (set_epoch e s))))).
Proof.
  intros Halo Hal Htr.
  unfold train_epoch, modify, emit, modify.
  cbn [bind].
  apply bind_inl.
  by apply (run_one_epoch_acoustic_only_error _ b bs).
Qed.

(** C5, as the code has it.  When the configuration asks for
    acoustic-loss-only mode while the acoustic loss is disabled, [train]
    (not in save-again mode, with an epoch left to run and a training
    loader that yields a batch) raises the configuration error while it
    processes the first training batch of the first epoch it runs: that
    batch has been augmented and passed through the model, no loss has
    been computed, no optimizer step taken, and nothing is recorded. *)
Theorem acoustic_only_error_in_first_batch
    (s : Solver) (b : batch) (bs : list batch) :
  save_again (args s) = false ->
  acoustic_loss_only (args s) = true ->
  acoustic_loss (args s) = false ->
  tr_loader s = Some (b :: bs) ->
  (length (history s) < epochs (args s))%nat ->
  (train s).1 = inl (ValueError acoustic_only_message)
  ∧ trace (train s).2 =
      (trace s
       ++ (if exists_path tensorboard_dir (disk s) then []
           else [EvFs (Mkdir tensorboard_dir)])
       ++ [EvPrintTrainEpoch (length (history s) + 1);
           EvAugment (length (history s)) 0;
           EvForward false (length (history s)) 0])%list
  ∧ history (train s).2 = history s
  ∧ model (train s).2 = model s
  ∧ optimizer (train s).2 = optimizer s.
Proof.
  intros Hsa Halo Hal Htr Hlt.
  unfold train. rewrite (bind_inr _ _ _ _ _ (get_eq s)), Hsa.
  destruct (epochs (args s) - length (history s))%nat eqn:E; [lia |].
  cbn [seq for_epochs].
  set (e := length (history s)).
  set (s1 := (if exists_path tensorboard_dir (disk s) then s
              else add_event (EvFs (Mkdir tensorboard_dir))
                     (set_disk (mkFS (files (disk s))
                                     ({[tensorboard_dir]} ∪ dirs (disk s))) s))).
  assert (Hw : when (negb (exists_path tensorboard_dir (disk s)))
                    (fs_do (Mkdir tensorboard_dir)) s = (inr (), s1)).
  { unfold s1. destruct (exists_path tensorboard_dir (disk s)); reflexivity. }
  rewrite (bind_inr _ _ _ _ _ Hw).
  assert (Hs1 : args s1 = args s ∧ tr_loader s1 = tr_loader s
                ∧ history s1 = history s ∧ model s1 = model s
                ∧ optimizer s1 = optimizer s).
  { unfold s1. destruct (exists_path tensorboard_dir (disk s)); done. }
  destruct Hs1 as (Ha & Hl & Hh & Hm & Ho).
  assert (Hep : train_epoch e s1 =
                (inl (ValueError acoustic_only_message),
                 add_event (EvForward false e 0)
                   (add_event (EvAugment e 0)
                      (add_event (EvPrintTrainEpoch (e + 1))
                         (set_model_training true (set_epoch e s1)))))).
  { apply (train_epoch_acoustic_only_error _ b bs); congruence. }
  rewrite (bind_inl _ _ _ _ _ Hep). cbn.
  repeat split; try done.
  unfold s1. destruct (exists_path tensorboard_dir (disk s)); cbn;
    rewrite <- ?app_assoc; done.
Qed.

(** ** Calls of the acoustic loss *)

Lemma save_ckpts_returns (s : Solver) : (save_ckpts s).1 = inr ().
Proof.
  unfold save_ckpts; unfold_M.
  by destruct (exists_path checkpoints_dir (disk s));
    destruct (save_checkpoints (args s)) eqn:Hsave; cbn; rewrite ?Hsave.
Qed.

Lemma bind_trained_later {A B} (c : M A) (k : A -> M B) (s : Solver) :
  (exists a, (c s).1 = inr a) ->
  (forall a, (c s).1 = inr a ->
             est_training (ac_loss (k a (c s).2).2) = true) ->
  est_training (ac_loss (bind c k s).2) = true.
Proof.
  intros [a Ha] Hk. unfold bind. specialize (Hk a Ha).
  destruct (c s) as [[e | a'] s1]; cbn in *; [done | congruence].
Qed.

Lemma bind_trained_now {A B} (c : M A) (k : A -> M B) (s : Solver) :
  est_training (ac_loss (c s).2) = true ->
  (forall a, preserves step_ok (k a)) ->
  est_training (ac_loss (bind c k s).2) = true.
Proof.
  intros Hc Hk. unfold bind.
  destruct (c s) as [[e | a] s1]; cbn in *; [done |].
  destruct (Hk a s1) as (_ & _ & _ & _ & t & _ & _ & _ & Hac).
  destruct (existsb is_acoustic_call t); congruence.
Qed.

Lemma compute_loss_trains (clean estimate : waveform) (s : Solver) :
  calls_acoustic_loss (args s) = true ->
  est_training (ac_loss (compute_loss clean estimate s).2) = true.
Proof.
  unfold calls_acoustic_loss. intros Hc.
  apply andb_true_iff in Hc as [Hal Hk].
  pose proof (call_without_mode_trains clean estimate (ac_loss s)) as Ht.
  unfold compute_loss, ac_loss_call; unfold_M; cbn. rewrite Hal.
  destruct (acoustic_loss_only (args s)); cbn.
  - by destruct (AcousticLoss_call clean estimate None (ac_loss s)) as [[?|?] o].
  - repeat case_decide; cbn;
      try by destruct (AcousticLoss_call clean estimate None (ac_loss s))
               as [[?|?] o].
Qed.

Lemma batch_step_trains (e : nat) (cv : bool) (i : nat) (b : batch)
    (tot : R * R * R) (s : Solver) :
  calls_acoustic_loss (args s) = true ->
  est_training (ac_loss (batch_step e cv i b tot s).2) = true.
Proof.
  intros Hc. destruct b as [noisy clean]. unfold batch_step.
  apply bind_trained_later.
  { unfold when. destruct (_ && _); [| by eexists].
    exists (). apply save_ckpts_returns. }
  intros [] _.
  set (s1 := (when _ save_ckpts s).2).
  assert (Hs1 : args s1 = args s).
  { assert (Hp : preserves step_ok
                   (when (Nat.eqb ((i + 1) mod 1000) 0 && negb cv) save_ckpts)).
    { apply preserves_when; [apply step_ok_refl | apply step_ok_save_ckpts]. }
    apply (Hp s). }
  clearbody s1.
  destruct cv; cbn [negb].
  - unfold ret at 1. cbn [bind].
    apply bind_trained_later; [eexists; reflexivity |]. intros s2 _.
    cbn [get emit modify snd].
    apply bind_trained_later; [eexists; reflexivity |]. intros [] _.
    cbn [get emit modify snd].
    apply bind_trained_now.
    + apply compute_loss_trains. cbn. congruence.
    + intros [[l0 l1] l2].
      preserves_with step_ok_refl step_ok_trans step_ok_leaf.
  - unfold emit, modify at 1. cbn [bind].
    destruct (augment e i _) as [noise clean']. unfold ret at 1. cbn [bind].
    apply bind_trained_later; [eexists; reflexivity |]. intros s2 _.
    cbn [get emit modify snd].
    apply bind_trained_later; [eexists; reflexivity |]. intros [] _.
    cbn [get emit modify snd].
    apply bind_trained_now.
    + apply compute_loss_trains. cbn. congruence.
    + intros [[l0 l1] l2].
      preserves_with step_ok_refl step_ok_trans step_ok_leaf.
Qed.

Lemma run_one_epoch_trains (e : nat) (cv : bool) (s : Solver)
    (b : batch) (bs : list batch) :
  calls_acoustic_loss (args s) = true ->
  (if cv then cv_loader s else tr_loader s) = Some (b :: bs) ->
  est_training (ac_loss (_run_one_epoch e cv s).2) = true.
Proof.
  intros Hc Hl. unfold _run_one_epoch.
  apply bind_trained_later; [eexists; reflexivity |].
  intros s' [= <-]. cbn [get snd].
  rewrite Hl. cbn [for_batches].
  apply bind_trained_now.
  - apply bind_trained_now; [by apply batch_step_trains |].
    intros tot. apply preserves_for_batches;
      [apply step_ok_refl | apply step_ok_trans |].
    intros. apply step_ok_batch_step.
  - intros [[t0 t1] t2].
    preserves_with step_ok_refl step_ok_trans step_ok_leaf.
Qed.

(** C8.  The Solver calls the acoustic loss without a [mode] argument,
    and an omitted [mode] is ["train"]: in any pass, training or
    validation, no call logged carries a mode, and the acoustic-loss
    object is left untouched when the pass made no call and with its
    estimator in training mode when it made one.  When the options make
    every batch reach the call and the loader of the pass yields a batch,
    the estimator is in training mode after the pass, a validation pass
    included. *)
Theorem acoustic_loss_called_in_train_mode
    (e : nat) (cross_valid : bool) (s : Solver) :
  (forall clean enhan o,
      AcousticLoss_call clean enhan None o = forward clean enhan "train" o)
  /\ (exists t,
        trace (_run_one_epoch e cross_valid s).2 = (trace s ++ t)%list
        /\ forallb without_mode t = true
        /\ if existsb is_acoustic_call t
           then est_training (ac_loss (_run_one_epoch e cross_valid s).2) = true
           else ac_loss (_run_one_epoch e cross_valid s).2 = ac_loss s)
  /\ (calls_acoustic_loss (args s) = true ->
      (exists b bs,
          (if cross_valid then cv_loader s else tr_loader s) = Some (b :: bs)) ->
      est_training (ac_loss (_run_one_epoch e cross_valid s).2) = true).
Proof.
  split; [done |]. split.
  - destruct (step_ok_run_one_epoch e cross_valid s)
      as (_ & _ & _ & _ & t & Ht & Hm & _ & Hac).
    by exists t.
  - intros Hc (b & bs & Hl). by apply (run_one_epoch_trains _ _ _ b bs).
Qed.

(** ** Python's [min] *)

Lemma fold_min_is_min (xs : list R) (x : R) :
  is_min (fold_left (fun m v => if Rlt_dec v m then v else m) xs x) (x :: xs).
Proof.
  revert x. induction xs as [| y ys IH]; intros x; cbn.
  - split; [by left | constructor; [lra | constructor]].
  - destruct (IH (if Rlt_dec y x then y else x)) as [Hin Hle].
    inversion Hle as [| ? ? Hm Hys]; subst.
    split.
    + destruct Hin as [<- | Hin].
      * destruct (Rlt_dec y x); [right; by left | by left].
      * right; by right.
    + destruct (Rlt_dec y x);
        (constructor; [lra | constructor; [lra | done]]).
Qed.

Lemma py_min_snoc (l : list R) (v : R) :
  exists b, py_min (l ++ [v]) = Some b /\ is_min b (l ++ [v]).
Proof.
  destruct l as [| x xs].
  - exists v. split; [done |]. apply (fold_min_is_min [] v).
  - eexists. split; [reflexivity |]. apply (fold_min_is_min (xs ++ [v]) x).
Qed.

(** ** The steps of an epoch *)

Lemma returns_bind {A B} (c : M A) (k : A -> M B) (s : Solver) :
  returns c s ->
  (forall a, (c s).1 = inr a -> returns (k a) (c s).2) ->
  returns (bind c k) s.
Proof.
  intros [a Ha] Hk. specialize (Hk a Ha). unfold returns, bind in *.
  destruct (c s) as [[e | a'] s1]; cbn in *; [done |].
  by injection Ha as ->.
Qed.

Lemma serialize_returns (s : Solver) :
  checkpoint (args s) = true -> returns _serialize s.
Proof.
  intros Hc. unfold returns, _serialize; unfold_M; cbn.
  rewrite Hc; cbn.
  rewrite lookup_insert_eq; cbn. rewrite lookup_insert_eq; cbn.
  by eexists.
Qed.

Lemma persist_epoch_returns (s : Solver) : returns persist_epoch s.
Proof.
  unfold persist_epoch, when.
  destruct (Nat.eqb distrib_rank 0); [| by eexists].
  apply returns_bind; [by eexists |]. intros s' [= <-]. cbn [get snd].
  apply returns_bind; [by eexists |]. intros [] _.
  destruct (checkpoint (args s)) eqn:Hc; [| by eexists].
  apply returns_bind; [exists (); apply save_ckpts_returns |]. intros [] _.
  apply serialize_returns.
  etrans; [| exact Hc]. f_equal.
  etrans; [apply (step_ok_save_ckpts _) |]. done.
Qed.

Lemma disk_only_persist_epoch : preserves disk_only persist_epoch.
Proof.
  unfold persist_epoch.
  preserves_with disk_only_refl disk_only_trans
    ltac:(first [apply disk_only_save_ckpts | apply disk_only_serialize
                | disk_only_leaf]).
Qed.

Lemma step_ok_persist_epoch : preserves step_ok persist_epoch.
Proof.
  unfold persist_epoch.
  preserves_with step_ok_refl step_ok_trans
    ltac:(first [apply step_ok_save_ckpts | apply step_ok_serialize
                | step_ok_leaf]).
Qed.

Lemma step_ok_cross_validation (e : nat) :
  preserves step_ok (cross_validation e).
Proof.
  unfold cross_validation.
  preserves_with step_ok_refl step_ok_trans
    ltac:(first [apply step_ok_run_one_epoch | step_ok_leaf]).
Qed.

Lemma pass_frame_cross_validation (e : nat) :
  preserves pass_frame (cross_validation e).
Proof.
  unfold cross_validation.
  preserves_with pass_frame_refl pass_frame_trans
    ltac:(first [apply pass_frame_run_one_epoch | pass_frame_leaf]).
Qed.

Lemma cross_validation_without_loader (e : nat) (s : Solver) :
  truthy_loader (cv_loader s) = false ->
  cross_validation e s = (inr 0, s).
Proof. intros Hcv. unfold cross_validation; unfold_M. by rewrite Hcv. Qed.

Lemma post_bind_pure {A B} (c : M A) (k : A -> M B) (s s1 : Solver) (a : A)
    (Qok : B -> Solver -> Prop) (Qerr : exn -> Solver -> Prop) :
  c s = (inr a, s1) -> post (k a) s1 Qok Qerr -> post (bind c k) s Qok Qerr.
Proof. intros Hc Hk. apply post_bind. unfold post at 1. by rewrite Hc. Qed.

Lemma post_of_returns {A} (R1 R2 : Solver -> Solver -> Prop) (c : M A)
    (s : Solver) :
  returns c s -> preserves R1 c -> preserves R2 c ->
  post c s (fun _ s' => R1 s s' /\ R2 s s') (fun _ _ => False).
Proof.
  intros [a Ha] H1 H2. specialize (H1 s). specialize (H2 s). unfold post.
  by destruct (c s) as [[e | a'] s1].
Qed.

Lemma record_epoch_spec (e : nat) (tl v : R) (s : Solver) :
  post (record_epoch e tl v) s
    (fun _ s' =>
       step_ok s s' /\ model s' = model s /\
       exists m, valid m = v
                 /\ history s' = (history s ++ [m])%list
                 /\ is_min (best m) (map valid (history s) ++ [v])
                 /\ best_state s' = if Req_dec_T v (best m)
                                    then Some (model s) else best_state s)
    (fun _ s' => step_ok s s' /\ history s' = history s).
Proof.
  unfold record_epoch.
  apply (post_bind_pure _ _ s s s); [done |].
  destruct (py_min_snoc (pull_metric_valid (history s)) v) as (b & -> & Hmin).
  set (s4 := if Req_dec_T v b then set_best_state (Some (model s)) s else s).
  assert (H4 : step_ok s s4 /\ history s4 = history s /\ model s4 = model s
               /\ best_state s4 = (if Req_dec_T v b then Some (model s)
                                   else best_state s)).
  { unfold s4. destruct (Req_dec_T v b); repeat split;
      try apply step_ok_refl.
    eapply (step_ok_events _ _ []); cbn; rewrite ?app_nil_r; reflexivity. }
  destruct H4 as (Hok4 & Hh4 & Hm4 & Hb4).
  apply (post_bind_pure _ _ s s4 ()).
  { unfold s4, when, modify, ret. by destruct (Req_dec_T v b). }
  clearbody s4.
  destruct (Nat.eqb (eval_every (args s)) 0); [by split |].
  set (due := (Nat.eqb ((e + 1) mod eval_every (args s)) 0
               || Nat.eqb (e + 1) (epochs (args s)))
              && truthy_loader (tt_loader s)).
  set (m1 := if due
             then mkMetrics tl v b
                    (Some (evaluate (args s) (model s)
                                    (default [] (tt_loader s))))
             else mkMetrics tl v b None).
  set (s5 := if due
             then add_event (EvEnhance e) (add_event (EvEvaluate e) s4)
             else s4).
  assert (H5 : step_ok s4 s5 /\ history s5 = history s4
               /\ model s5 = model s4 /\ best_state s5 = best_state s4).
  { unfold s5. destruct due; repeat split; try apply step_ok_refl.
    eapply (step_ok_events _ _ [_; _]); cbn;
      rewrite <- ?app_assoc; reflexivity. }
  destruct H5 as (Hok5 & Hh5 & Hm5 & Hb5).
  apply (post_bind_pure _ _ s4 s5 m1).
  { unfold s5, m1. by destruct due. }
  assert (Hm1 : valid m1 = v /\ best m1 = b) by (unfold m1; by destruct due).
  destruct Hm1 as [Hv1 Hb1].
  clearbody s5 m1. clear due.
  set (s6 := set_history (history s5 ++ [m1]) s5).
  apply (post_bind_pure _ _ s5 s6 ()); [done |].
  assert (Hok6 : step_ok s5 s6).
  { eapply (step_ok_events _ _ []); cbn; rewrite ?app_nil_r; reflexivity. }
  eapply post_conseq.
  - apply (post_of_returns disk_only step_ok);
      [apply persist_epoch_returns | apply disk_only_persist_epoch
      | apply step_ok_persist_epoch].
  - intros [] s' [(Hh & Hb & Hm & _) Hok].
    unfold s6 in Hh, Hb, Hm. cbn in Hh, Hb, Hm.
    split; [| split].
    + repeat (eapply step_ok_trans; [eassumption |]). apply step_ok_refl.
    + congruence.
    + exists m1. rewrite Hb1. split; [done |]. split; [congruence |].
      split; [exact Hmin | congruence].
  - done.
Qed.

Lemma epoch_frame_step (e : nat) (s s1 s2 : Solver) :
  epoch_frame e s s1 -> step_ok s1 s2 -> epoch_frame e s s2.
Proof.
  intros (Ha & Htr & Hcv & Htt & t & Ht & Hp)
         (Ha' & Htr' & Hcv' & Htt' & t' & Ht' & _ & Hp' & _).
  repeat split; try congruence.
  exists (t ++ t')%list. split.
  - by rewrite Ht', Ht, app_assoc.
  - unfold printed_epochs in *. by rewrite flat_map_app, Hp, Hp'.
Qed.

Lemma cross_validation_spec (e : nat) (s : Solver) :
  post (cross_validation e) s
    (fun v s' => step_ok s s' /\ pass_frame s s'
                 /\ (truthy_loader (cv_loader s) = false -> v = 0))
    (fun _ s' => step_ok s s' /\ pass_frame s s').
Proof.
  destruct (truthy_loader (cv_loader s)) eqn:Hcv.
  - eapply post_conseq.
    + apply post_and;
        [apply (post_preserves step_ok), step_ok_cross_validation
        | apply (post_preserves pass_frame), pass_frame_cross_validation].
    + intros v s' [? ?]. split; [done |]. split; [done |]. intros [=].
    + done.
  - unfold post. rewrite cross_validation_without_loader by done.
    split; [apply step_ok_refl |]. split; [apply pass_frame_refl | done].
Qed.

(** Every iteration of the epoch loop either completes, with one record
    appended, or raises, with nothing recorded. *)
Lemma train_epoch_spec (e : nat) (s : Solver) :
  post (train_epoch e) s
    (fun _ s' => epoch_completed e s s') (fun _ s' => epoch_failed e s s').
Proof.
  unfold train_epoch.
  set (s0 := add_event (EvPrintTrainEpoch (e + 1))
               (set_model_training true (set_epoch e s))).
  assert (Hf0 : epoch_frame e s s0).
  { repeat split. by exists [EvPrintTrainEpoch (e + 1)]. }
  assert (Hh0 : history s0 = history s /\ best_state s0 = best_state s)
    by done.
  destruct Hh0 as [Hh0 Hb0].
  apply (post_bind_pure _ _ s (set_epoch e s) ()); [done |].
  apply (post_bind_pure _ _ _ (set_model_training true (set_epoch e s)) ());
    [done |].
  apply (post_bind_pure _ _ _ s0 ()); [done |].
  clearbody s0.
  apply post_bind. eapply post_conseq.
  { apply post_and;
      [apply (post_preserves step_ok), step_ok_run_one_epoch
      | apply (post_preserves pass_frame), pass_frame_run_one_epoch]. }
  2: { intros ex s1 [Hok1 [Hh1 Hb1]]. split.
       - by apply (epoch_frame_step _ _ s0).
       - congruence. }
  intros train_losses s1 [Hok1 [Hh1 Hb1]].
  pose proof (epoch_frame_step _ _ _ _ Hf0 Hok1) as Hf1.
  apply post_bind. eapply post_conseq; [apply cross_validation_spec | |].
  2: { intros ex s2 [Hok2 [Hh2 Hb2]]. split.
       - by apply (epoch_frame_step _ _ s1).
       - congruence. }
  intros v s2 (Hok2 & [Hh2 Hb2] & Hv).
  pose proof (epoch_frame_step _ _ _ _ Hf1 Hok2) as Hf2.
  eapply post_conseq; [apply record_epoch_spec | |].
  2: { intros ex s3 [Hok3 Hh3]. split.
       - by apply (epoch_frame_step _ _ s2).
       - congruence. }
  intros [] s3 (Hok3 & Hm3 & m & Hvm & Hh3 & Hmin & Hb3).
  split; [by apply (epoch_frame_step _ _ s2) |].
  exists m. rewrite Hvm.
  split; [congruence |]. split; [by rewrite <- Hh0, <- Hh1, <- Hh2 |].
  split.
  - intros Hcv. apply Hv.
    destruct Hf1 as (_ & _ & Hcv1 & _). by rewrite Hcv1.
  - rewrite Hb3, Hm3. destruct (Req_dec_T v (best m)); congruence.
Qed.

(** ** The epoch loop *)

Lemma epochs_run_cons (e : nat) (l : list nat) (n p : nat)
    (s s1 s' : Solver) :
  epoch_completed e s s1 -> epochs_run l n p s1 s' ->
  epochs_run (e :: l) (S n) (S p) s s'.
Proof.
  intros [(Ha & Htr & Hcv & Htt & t & Ht & Hp)
          (m & Hh & Hmin & Hv0 & _)]
         (Ha' & Htr' & Hcv' & Htt' & (t' & Ht' & Hp')
          & new & Hh' & Hlen & Hnew & Hz).
  repeat split; try congruence.
  - exists (t ++ t')%list. split.
    + by rewrite Ht', Ht, app_assoc.
    + unfold printed_epochs in *. by rewrite flat_map_app, Hp, Hp'.
  - exists (m :: new). split; [| split; [| split]].
    + by rewrite Hh', Hh, <- app_assoc.
    + cbn. by rewrite Hlen.
    + intros [| j] m' Hj.
      * injection Hj as <-. cbn. rewrite take_0. by rewrite map_app.
      * cbn in Hj. specialize (Hnew j m' Hj).
        rewrite Hh, <- app_assoc in Hnew. exact Hnew.
    + intros Hcv0. constructor; [by apply Hv0 |].
      apply Hz. by rewrite Hcv.
Qed.

Lemma epochs_run_failed (e : nat) (l : list nat) (s s1 : Solver) :
  epoch_failed e s s1 -> epochs_run (e :: l) 0 1 s s1.
Proof.
  intros [(Ha & Htr & Hcv & Htt & t & Ht & Hp) Hh].
  repeat split; try done.
  - by exists t.
  - exists []. rewrite app_nil_r. by repeat split.
Qed.

Lemma for_epochs_spec (l : list nat) (s : Solver) :
  post (for_epochs l) s
    (fun _ s' => epochs_run l (length l) (length l) s s')
    (fun _ s' => exists n, (n < length l)%nat /\ epochs_run l n (S n) s s').
Proof.
  revert s. induction l as [| e l IH]; intros s; cbn [for_epochs].
  - unfold post, ret. repeat split; try done.
    + exists []. by rewrite app_nil_r.
    + exists []. rewrite app_nil_r. by repeat split.
  - apply post_bind. eapply post_conseq; [apply train_epoch_spec | |].
    + intros [] s1 Hc. eapply post_conseq; [apply IH | |].
      * intros [] s' Hr. by apply (epochs_run_cons _ _ _ _ _ s1).
      * intros ex s' (n & Hn & Hr). exists (S n). split; [cbn; lia |].
        by apply (epochs_run_cons _ _ _ _ _ s1).
    + intros ex s1 Hf. exists 0%nat. split; [cbn; lia |].
      by apply epochs_run_failed.
Qed.

(** ** Runs that cannot raise *)

Lemma returns_args {A} (c : M A) (s : Solver) :
  preserves step_ok c -> args (c s).2 = args s.
Proof. intros Hc. apply (Hc s). Qed.

Lemma compute_loss_returns (clean estimate : waveform) (s : Solver) :
  plain_losses (args s) = true -> returns (compute_loss clean estimate) s.
Proof.
  unfold plain_losses. intros Hp.
  apply andb_true_iff in Hp as [Hp Hk].
  apply andb_true_iff in Hp as [Hal Halo].
  apply negb_true_iff in Hal, Halo.
  unfold returns, compute_loss; unfold_M; cbn. rewrite Hal, Halo; cbn.
  repeat case_decide; cbn;
    first [eexists; reflexivity | exfalso; cbn in Hk; done].
Qed.

Lemma batch_step_returns (e : nat) (cv : bool) (i : nat) (b : batch)
    (tot : R * R * R) (s : Solver) :
  plain_losses (args s) = true -> returns (batch_step e cv i b tot) s.
Proof.
  intros Hc. destruct b as [noisy clean]. unfold batch_step.
  apply returns_bind.
  { unfold when. destruct (_ && _); [| by eexists].
    exists (). apply save_ckpts_returns. }
  intros [] _.
  set (s1 := (when _ save_ckpts s).2).
  assert (Hs1 : args s1 = args s).
  { apply returns_args, preserves_when;
      [apply step_ok_refl | apply step_ok_save_ckpts]. }
  clearbody s1.
  assert (Hrest : forall (n c : waveform) (s2 : Solver),
             args s2 = args s ->
             returns
               (bind get (fun s0 =>
                  bind (emit (EvForward cv e i)) (fun _ =>
                    bind (compute_loss c (dmodel (model s0)
                                                 (model_training s0) n))
                      (fun losses =>
                         let '(loss0, enh_loss, ac_loss0) := losses in
                         bind (when (negb cv)
                                 (bind get (fun s3 =>
                                    let '(m, o) :=
                                      optimizer_step (args s3) (model s3)
                                        (optimizer s3) (n, c) in
                                    bind (emit (EvOptimizerStep e i)) (fun _ =>
                                      bind (modify (set_model m)) (fun _ =>
                                        modify (set_optimizer o))))))
                           (fun _ =>
                              let '(total_loss, total_enhancement_loss,
                                    total_acoustic_loss) := tot in
                              ret (total_loss + loss0,
                                   total_enhancement_loss + enh_loss,
                                   total_acoustic_loss + ac_loss0))))))
               s2).
  { intros n c s2 Hs2.
    apply returns_bind; [by eexists |]. intros s0 [= <-]. cbn [get snd].
    apply returns_bind; [by eexists |]. intros [] _.
    cbn [get emit modify snd].
    apply returns_bind; [apply compute_loss_returns; cbn; congruence |].
    intros [[l0 l1] l2] _.
    apply returns_bind.
    - unfold when. destruct (negb cv); [| by eexists].
      unfold returns; unfold_M; cbn.
      destruct (optimizer_step _ _ _ _); by eexists.
    - intros [] _. destruct tot as [[t0 t1] t2]. by eexists. }
  destruct cv; cbn [negb].
  - unfold ret at 1. cbn [bind]. by apply Hrest.
  - unfold emit, modify at 1. cbn [bind].
    destruct (augment e i _) as [noise clean']. unfold ret at 1. cbn [bind].
    by apply Hrest.
Qed.

Lemma for_batches_returns (e : nat) (cv : bool) (l : list batch) :
  forall (i : nat) (tot : R * R * R) (s : Solver),
    plain_losses (args s) = true ->
    returns (for_batches (batch_step e cv) i l tot) s.
Proof.
  induction l as [| b l IH]; intros i tot s Hp; cbn [for_batches].
  - by eexists.
  - apply returns_bind; [by apply batch_step_returns |].
    intros tot' _. apply IH.
    by rewrite (returns_args _ _ (step_ok_batch_step e cv i b tot)).
Qed.

Lemma run_one_epoch_returns (e : nat) (cv : bool) (s : Solver)
    (b : batch) (bs : list batch) :
  plain_losses (args s) = true ->
  (if cv then cv_loader s else tr_loader s) = Some (b :: bs) ->
  returns (_run_one_epoch e cv) s.
Proof.
  intros Hp Hl. unfold _run_one_epoch.
  apply returns_bind; [by eexists |]. intros s' [= <-]. cbn [get snd].
  rewrite Hl.
  apply returns_bind; [by apply for_batches_returns |].
  intros [[t0 t1] t2] _. by eexists.
Qed.

Lemma cross_validation_returns (e : nat) (s : Solver) :
  plain_losses (args s) = true -> returns (cross_validation e) s.
Proof.
  intros Hp. unfold cross_validation.
  apply returns_bind; [by eexists |]. intros s' [= <-]. cbn [get snd].
  destruct (cv_loader s) as [[| b bs] |] eqn:Hcv; cbn [truthy_loader];
    try by eexists.
  apply returns_bind; [by eexists |]. intros [] _. cbn [modify snd].
  apply returns_bind; [by apply (run_one_epoch_returns _ _ _ b bs) |].
  intros v _. by eexists.
Qed.

Lemma record_epoch_returns (e : nat) (tl v : R) (s : Solver) :
  eval_every (args s) <> 0%nat -> returns (record_epoch e tl v) s.
Proof.
  intros He. unfold record_epoch.
  apply returns_bind; [by eexists |]. intros s' [= <-]. cbn [get snd].
  destruct (py_min_snoc (pull_metric_valid (history s)) v) as (b & -> & _).
  apply returns_bind.
  { unfold when. destruct (Req_dec_T v b); by eexists. }
  intros [] _.
  apply Nat.eqb_neq in He. rewrite He.
  apply returns_bind.
  { destruct (_ && _); by eexists. }
  intros m1 _.
  apply returns_bind; [by eexists |]. intros [] _.
  apply persist_epoch_returns.
Qed.

Lemma train_epoch_returns (e : nat) (s : Solver) (b : batch) (bs : list batch) :
  plain_losses (args s) = true -> tr_loader s = Some (b :: bs) ->
  eval_every (args s) <> 0%nat ->
  returns (train_epoch e) s.
Proof.
  intros Hp Htr He. unfold train_epoch.
  apply returns_bind; [by eexists |]. intros [] _. cbn [modify snd].
  apply returns_bind; [by eexists |]. intros [] _. cbn [modify snd].
  apply returns_bind; [by eexists |]. intros [] _. cbn [emit modify snd].
  apply returns_bind; [by apply (run_one_epoch_returns _ _ _ b bs) |].
  intros tl _.
  set (s1 := (_run_one_epoch e false _).2).
  assert (Hs1 : args s1 = args s).
  { unfold s1.
    by rewrite (returns_args _ _ (step_ok_run_one_epoch e false)). }
  clearbody s1.
  apply returns_bind; [apply cross_validation_returns; congruence |].
  intros v _. apply record_epoch_returns.
  rewrite (returns_args _ _ (step_ok_cross_validation e)). congruence.
Qed.

Lemma for_epochs_returns (l : list nat) :
  forall (s : Solver) (b : batch) (bs : list batch),
    plain_losses (args s) = true -> tr_loader s = Some (b :: bs) ->
    eval_every (args s) <> 0%nat ->
    returns (for_epochs l) s.
Proof.
  induction l as [| e l IH]; intros s b bs Hp Htr He; cbn [for_epochs].
  - by eexists.
  - apply returns_bind; [by apply (train_epoch_returns _ _ b bs) |].
    intros [] _.
    pose proof (post_outcome _ _ _ _ (train_epoch_spec e s)) as Hspec.
    assert (Hf : epoch_frame e s (train_epoch e s).2).
    { destruct ((train_epoch e s).1); [apply Hspec | apply Hspec]. }
    destruct Hf as (Ha & Htr' & _).
    apply (IH _ b bs); congruence.
Qed.

(** ** [train] *)

Lemma epochs_run_after (l : list nat) (n p : nat) (s s0 s' : Solver) :
  step_ok s s0 -> history s0 = history s ->
  epochs_run l n p s0 s' -> epochs_run l n p s s'.
Proof.
  intros (Ha & Htr & Hcv & Htt & t & Ht & _ & Hp & _) Hh
         (Ha' & Htr' & Hcv' & Htt' & (t' & Ht' & Hp')
          & new & Hh' & Hlen & Hnew & Hz).
  repeat split; try congruence.
  - exists (t ++ t')%list. split.
    + by rewrite Ht', Ht, app_assoc.
    + unfold printed_epochs in *. by rewrite flat_map_app, Hp, Hp'.
  - exists new. rewrite <- Hh, <- Hcv.
    split; [exact Hh' | split; [exact Hlen | split; [exact Hnew | exact Hz]]].
Qed.

(** The state in which [train] enters the epoch loop. *)
Lemma train_enters_loop (s : Solver) :
  save_again (args s) = false ->
  exists s0, step_ok s s0 /\ history s0 = history s
             /\ train s = for_epochs (seq (length (history s))
                                          (epochs (args s) - length (history s)))
                                     s0.
Proof.
  intros Hsa. unfold train; unfold_M. rewrite Hsa.
  destruct (exists_path tensorboard_dir (disk s)); cbn.
  - exists s. split; [apply step_ok_refl | done].
  - eexists. split; [| split; [| reflexivity]]; [| done].
    eapply (step_ok_events _ _ [_]); cbn; reflexivity.
Qed.

Lemma running_min_of_new (h new : list metrics) :
  (forall j m, new !! j = Some m ->
               is_min (best m) (map valid (h ++ take (S j) new))) ->
  best_is_running_min_from (length h) (h ++ new).
Proof.
  intros Hnew k m Hk Hm.
  rewrite lookup_app_r in Hm by done.
  specialize (Hnew _ _ Hm).
  rewrite take_app, (take_ge h) by lia.
  by replace (S k - length h)%nat with (S (k - length h)) by lia.
Qed.

Lemma running_min_extends (h new : list metrics) :
  best_is_running_min_from 0 h ->
  best_is_running_min_from (length h) (h ++ new) ->
  best_is_running_min_from 0 (h ++ new).
Proof.
  intros Hold Hnew k m _ Hm.
  destruct (decide (k < length h)%nat) as [Hlt | Hge].
  - rewrite lookup_app_l in Hm by done.
    rewrite take_app_le by lia. apply Hold; [lia | done].
  - apply Hnew; [lia | done].
Qed.

Lemma train_run (s : Solver) :
  save_again (args s) = false ->
  exists n p,
    epochs_run (seq (length (history s))
                    (epochs (args s) - length (history s)))
               n p s (train s).2
    /\ match (train s).1 with
       | inr _ => n = (epochs (args s) - length (history s))%nat /\ p = n
       | inl _ => (n < epochs (args s) - length (history s))%nat /\ p = S n
       end.
Proof.
  intros Hsa.
  destruct (train_enters_loop s Hsa) as (s0 & Hok0 & Hh0 & Htrain).
  set (l := seq (length (history s)) (epochs (args s) - length (history s)))
    in *.
  pose proof (post_outcome _ _ _ _ (for_epochs_spec l s0)) as Hloop.
  rewrite <- Htrain in Hloop.
  destruct ((train s).1) as [ex | []].
  - destruct Hloop as (n & Hn & Hr). exists n, (S n).
    unfold l in Hn. rewrite length_seq in Hn.
    split; [by apply (epochs_run_after _ _ _ _ s0) | done].
  - exists (length l), (length l).
    split; [by apply (epochs_run_after _ _ _ _ s0) |].
    unfold l. by rewrite length_seq.
Qed.

Lemma train_returns (s : Solver) (b : batch) (bs : list batch) :
  save_again (args s) = false ->
  plain_losses (args s) = true -> tr_loader s = Some (b :: bs) ->
  eval_every (args s) <> 0%nat ->
  (train s).1 = inr ().
Proof.
  intros Hsa Hp Htr He.
  destruct (train_enters_loop s Hsa) as (s0 & Hok0 & Hh0 & Htrain).
  assert (Hret : returns train s).
  { unfold returns. rewrite Htrain.
    destruct Hok0 as (Ha & Htr0 & _).
    apply (for_epochs_returns _ _ b bs); congruence. }
  by destruct Hret as [[] Hret].
Qed.

(** C1.  Unless [train] only saves again: the epoch loop runs the epoch
    indices from [len(history)] up to, not including, the epoch budget,
    in order, and stops at the first iteration that raises; every
    iteration that returns appends exactly one record, whose ['best'] is
    the least ['valid'] entry of the history up to and including it, and
    leaves the current model state as Best State when its ['valid']
    equals that least value; an iteration that raises records nothing.
    So after the run the ['best'] of every record of index
    [len(history)] or more is the least ['valid'] up to it, and of every
    record when that held for the history the run started with.  A run
    whose batches cannot raise returns with a history of
    [max(len(history), epochs)] records. *)
Theorem train_history_invariant (s : Solver) :
  save_again (args s) = false ->
  (forall e s1,
      match (train_epoch e s1).1 with
      | inr _ => epoch_completed e s1 (train_epoch e s1).2
      | inl _ => epoch_failed e s1 (train_epoch e s1).2
      end)
  /\ (exists n p,
        epochs_run (seq (length (history s))
                        (epochs (args s) - length (history s)))
                   n p s (train s).2
        /\ match (train s).1 with
           | inr _ => n = (epochs (args s) - length (history s))%nat /\ p = n
           | inl _ => (n < epochs (args s) - length (history s))%nat
                      /\ p = S n
           end)
  /\ best_is_running_min_from (length (history s)) (history (train s).2)
  /\ (best_is_running_min_from 0 (history s) ->
      best_is_running_min_from 0 (history (train s).2))
  /\ (plain_losses (args s) = true ->
      (exists b bs, tr_loader s = Some (b :: bs)) ->
      eval_every (args s) <> 0%nat ->
      (train s).1 = inr ()
      /\ length (history (train s).2)
         = Nat.max (length (history s)) (epochs (args s))).
Proof.
  intros Hsa.
  split;
    [intros e s1; exact (post_outcome _ _ _ _ (train_epoch_spec e s1)) |].
  pose proof (train_run s Hsa) as Hrun.
  split; [exact Hrun |].
  destruct Hrun as (n & p & Hr & Hout).
  assert (Hr' := Hr).
  destruct Hr' as (_ & _ & _ & _ & _ & new & Hh & Hlen & Hnew & _).
  assert (Hfrom : best_is_running_min_from (length (history s))
                                           (history (train s).2)).
  { rewrite Hh. by apply running_min_of_new. }
  split; [exact Hfrom |]. split.
  - intros Hold. rewrite Hh. apply running_min_extends; [done |].
    by rewrite <- Hh.
  - intros Hp (b & bs & Htr) He.
    pose proof (train_returns s b bs Hsa Hp Htr He) as Hret.
    split; [exact Hret |].
    rewrite Hret in Hout. destruct Hout as [-> _].
    rewrite Hh, length_app, Hlen. lia.
Qed.

(** ** Runs without validation data *)

Lemma is_min_zero (b : R) (l : list R) :
  is_min b l -> Forall (Rle 0) l -> In 0 l -> b = 0.
Proof.
  intros [Hin Hle] Hpos Hz.
  rewrite List.Forall_forall in Hle, Hpos.
  specialize (Hle _ Hz). specialize (Hpos _ Hin). lra.
Qed.

(** C9.  Without validation data, and with no negative valid loss among
    the records already in the history (none at all in a fresh run):
    every iteration of the epoch loop that returns appends one record
    whose valid loss is 0 and whose best loss is 0, and leaves the
    current model state as Best State; the two premises hold again
    afterwards, so this is so at the end of every epoch; an iteration
    that raises records nothing.  Over a whole run every new record has
    valid loss 0 and best loss 0, and an iteration whose batches cannot
    raise returns. *)
Theorem no_validation_every_epoch_is_best (s : Solver) :
  truthy_loader (cv_loader s) = false ->
  Forall (fun m => 0 <= valid m) (history s) ->
  (forall e,
      match (train_epoch e s).1 with
      | inr _ =>
          (exists m,
              history (train_epoch e s).2 = (history s ++ [m])%list
              /\ valid m = 0 /\ best m = 0)
          /\ best_state (train_epoch e s).2
             = Some (model (train_epoch e s).2)
          /\ truthy_loader (cv_loader (train_epoch e s).2) = false
          /\ Forall (fun m => 0 <= valid m) (history (train_epoch e s).2)
      | inl _ => history (train_epoch e s).2 = history s
      end)
  /\ (save_again (args s) = false ->
      exists new,
        history (train s).2 = (history s ++ new)%list
        /\ Forall (fun m => valid m = 0 /\ best m = 0) new)
  /\ (forall e,
        plain_losses (args s) = true ->
        (exists b bs, tr_loader s = Some (b :: bs)) ->
        eval_every (args s) <> 0%nat ->
        (train_epoch e s).1 = inr ()).
Proof.
  intros Hcv Hpos. split; [| split].
  - intros e.
    pose proof (post_outcome _ _ _ _ (train_epoch_spec e s)) as Hspec.
    destruct ((train_epoch e s).1) as [ex | []].
    + apply Hspec.
    + destruct Hspec as [(_ & _ & Hcv' & _) (m & Hh & Hmin & Hv0 & Hb)].
      specialize (Hv0 Hcv).
      assert (Hb0 : best m = 0).
      { apply (is_min_zero _ _ Hmin).
        - apply Forall_app. split.
          + apply Forall_map. exact Hpos.
          + constructor; [lra | constructor].
        - apply in_or_app. right. by left. }
      split; [by exists m |]. split.
      * rewrite Hb. destruct (Req_dec_T (valid m) (best m)); [done | lra].
      * split; [by rewrite Hcv' |].
        rewrite Hh. apply Forall_app. split; [done |].
        constructor; [lra | constructor].
  - intros Hsa.
    destruct (train_run s Hsa)
      as (n & p & (_ & _ & _ & _ & _ & new & Hh & _ & Hnew & Hz) & _).
    exists new. split; [done |].
    specialize (Hz Hcv).
    apply Forall_lookup. intros j m Hj.
    assert (Hv : valid m = 0).
    { rewrite Forall_lookup in Hz. by apply (Hz j). }
    split; [done |].
    apply (is_min_zero _ _ (Hnew j m Hj)).
    + rewrite map_app. apply Forall_app. split.
      * apply Forall_map. exact Hpos.
      * apply Forall_map. apply Forall_take.
        eapply Forall_impl; [exact Hz |]. cbn. intros ? ->. lra.
    + rewrite <- Hv. apply in_map, in_or_app. right.
      apply list_elem_of_In, list_elem_of_lookup. exists j.
      rewrite lookup_take_lt by lia. done.
  - intros e Hp (b & bs & Htr) He.
    destruct (train_epoch_returns e s b bs Hp Htr He) as [[] Hr]. exact Hr.
Qed.

(** ** Checkpoint files and resuming *)

(** A temporary name is never the name it stands in for. *)
Lemma length_append (s1 s2 : string) :
  String.length (s1 +:+ s2) = (String.length s1 + String.length s2)%nat.
Proof. induction s1 as [| c s1 IH]; simpl; [done | by rewrite IH]. Qed.

Lemma tmp_path_fresh (p : string) : p +:+ ".tmp" <> p.
Proof.
  intros Heq. apply (f_equal String.length) in Heq.
  rewrite length_append in Heq. cbn in Heq. lia.
Qed.


(** The disk [_serialize] leaves behind. *)
Lemma serialize_disk (s : Solver) :
  checkpoint (args s) = true ->
  disk (_serialize s).2
  = mkFS (<[best_file (args s) :=
              Complete (ModelFile (mkSerialized (best_state s)))]>
            (delete (best_file (args s) +:+ ".tmp")
               (<[best_file (args s) +:+ ".tmp" :=
                    Complete (ModelFile (mkSerialized (best_state s)))]>
                  (<[checkpoint_file (args s) :=
                       Complete (PackageFile (make_package s))]>
                     (delete (checkpoint_file (args s) +:+ ".tmp")
                        (<[checkpoint_file (args s) +:+ ".tmp" :=
                             Complete (PackageFile (make_package s))]>
                           (files (disk s))))))))
         (dirs (disk s)).
Proof.
  intros Hc. unfold _serialize; unfold_M; cbn.
  rewrite Hc; cbn.
  rewrite lookup_insert_eq; cbn. by rewrite lookup_insert_eq.
Qed.

(** X1.  With checkpointing enabled and the checkpoint file, the best
    file and their temporary names apart from each other, [_serialize]
    returns; afterwards the checkpoint file holds the complete package
    of the current state, the best file holds the serialized model with
    Best State as its state, neither temporary file is left, and every
    other path and every directory is as before. *)
Theorem serialize_writes_both_files (s : Solver) :
  checkpoint (args s) = true ->
  checkpoint_file (args s) <> best_file (args s) ->
  checkpoint_file (args s) <> best_file (args s) +:+ ".tmp" ->
  checkpoint_file (args s) +:+ ".tmp" <> best_file (args s) ->
  (_serialize s).1 = inr tt
  /\ files (disk (_serialize s).2) !! checkpoint_file (args s)
     = Some (Complete (PackageFile (make_package s)))
  /\ files (disk (_serialize s).2) !! best_file (args s)
     = Some (Complete (ModelFile (mkSerialized (best_state s))))
  /\ files (disk (_serialize s).2) !! (checkpoint_file (args s) +:+ ".tmp")
     = None
  /\ files (disk (_serialize s).2) !! (best_file (args s) +:+ ".tmp") = None
  /\ (forall p,
        p <> checkpoint_file (args s) -> p <> best_file (args s) ->
        p <> checkpoint_file (args s) +:+ ".tmp" ->
        p <> best_file (args s) +:+ ".tmp" ->
        files (disk (_serialize s).2) !! p = files (disk s) !! p)
  /\ dirs (disk (_serialize s).2) = dirs (disk s).
Proof.
  intros Hc Hcb Hcbt Hctb.
  pose proof (tmp_path_fresh (checkpoint_file (args s))) as Hct.
  pose proof (tmp_path_fresh (best_file (args s))) as Hbt.
  split; [exact (proj1 (serialize_trace s Hc)) |].
  rewrite (serialize_disk s Hc); cbn.
  repeat split.
  - rewrite lookup_insert_ne by done. rewrite lookup_delete_ne by done.
    rewrite lookup_insert_ne by done. by rewrite lookup_insert_eq.
  - by rewrite lookup_insert_eq.
  - rewrite lookup_insert_ne by done.
    destruct (decide (best_file (args s) +:+ ".tmp"
                      = checkpoint_file (args s) +:+ ".tmp")) as [-> | Hne].
    + by rewrite lookup_delete_eq.
    + rewrite lookup_delete_ne by done. rewrite lookup_insert_ne by done.
      rewrite lookup_insert_ne by done. by rewrite lookup_delete_eq.
  - rewrite lookup_insert_ne by done. by rewrite lookup_delete_eq.
  - intros p Hp1 Hp2 Hp3 Hp4.
    rewrite lookup_insert_ne by done. rewrite lookup_delete_ne by done.
    rewrite lookup_insert_ne by done. rewrite lookup_insert_ne by done.
    rewrite lookup_delete_ne by done. by rewrite lookup_insert_ne.
Qed.

Lemma fs_ops_events (ops : list (fs_op model_state optim_state)) :
  fs_ops (map EvFs ops) = ops.
Proof. induction ops as [| op ops IH]; [done |]. cbn. f_equal. exact IH. Qed.

(** The file-system operations [_serialize] logs. *)
Lemma serialize_logged_ops (s : Solver) (t : list event) :
  checkpoint (args s) = true ->
  trace (_serialize s).2 = (trace s ++ t)%list ->
  fs_ops t = serialize_ops s.
Proof.
  intros Hc Ht. rewrite (proj2 (serialize_trace s Hc)) in Ht.
  apply app_inv_head in Ht. subst t. apply fs_ops_events.
Qed.

(** X2.  A process killed at any point of [_serialize] leaves no
    half-written file under a name other than the two temporary ones,
    unless the file was half written before. *)
Theorem serialize_never_leaves_partial_file (s : Solver) (t : list event)
    (p : string) (d : FS model_state optim_state) :
  checkpoint (args s) = true ->
  trace (_serialize s).2 = (trace s ++ t)%list ->
  p <> checkpoint_file (args s) +:+ ".tmp" ->
  p <> best_file (args s) +:+ ".tmp" ->
  files (disk s) !! p <> Some Partial ->
  In d (crash_states (fs_ops t) (disk s)) ->
  files d !! p <> Some Partial.
Proof.
  intros Hc Ht Hp1 Hp2 Hinit Hin.
  rewrite (serialize_logged_ops s t Hc Ht) in Hin.
  by apply (serialize_crash_safe s p d).
Qed.

(** X3.  A process killed at any point of [_serialize] finds, under the
    name of the checkpoint file, either what was there before or the
    complete new package, and under the name of the best file either
    what was there before or the complete new model: each of the two
    files is replaced in one step. *)
Theorem serialize_replaces_files_atomically (s : Solver) (t : list event)
    (d : FS model_state optim_state) :
  checkpoint (args s) = true ->
  trace (_serialize s).2 = (trace s ++ t)%list ->
  checkpoint_file (args s) <> best_file (args s) ->
  checkpoint_file (args s) <> best_file (args s) +:+ ".tmp" ->
  checkpoint_file (args s) +:+ ".tmp" <> best_file (args s) ->
  In d (crash_states (fs_ops t) (disk s)) ->
  (files d !! checkpoint_file (args s)
   = files (disk s) !! checkpoint_file (args s)
   \/ files d !! checkpoint_file (args s)
      = Some (Complete (PackageFile (make_package s))))
  /\ (files d !! best_file (args s) = files (disk s) !! best_file (args s)
      \/ files d !! best_file (args s)
         = Some (Complete (ModelFile (mkSerialized (best_state s))))).
Proof.
  intros Hc Ht Hcb Hcbt Hctb Hin.
  pose proof (tmp_path_fresh (checkpoint_file (args s))) as Hct.
  pose proof (tmp_path_fresh (best_file (args s))) as Hbt.
  rewrite (serialize_logged_ops s t Hc Ht) in Hin.
  unfold serialize_ops in Hin.
  cbn in Hin. rewrite lookup_insert_eq in Hin. cbn in Hin.
  rewrite lookup_insert_eq in Hin. cbn in Hin.
  repeat (destruct Hin as [<- | Hin]); try done; cbn;
    (split;
     repeat first
       [ rewrite lookup_insert_eq
       | rewrite lookup_insert_ne by done
       | rewrite lookup_delete_ne by done ];
     first [by left | by right]).
Qed.

(** X4.  With the save-again option, [train] serializes and does nothing
    else: no epoch is announced, and the history, Best State, the model,
    the optimizer, the epoch counter and the mode of the model stay as
    they are.  When checkpointing is disabled the attribute
    [checkpoint_file] was never assigned and the call raises
    [AttributeError] without any effect. *)
Theorem train_save_again_only_serializes (s : Solver) :
  save_again (args s) = true ->
  train s = _serialize s
  /\ disk_only s (train s).2
  /\ (train s).1 = (if checkpoint (args s) then inr tt
                    else inl (AttributeError "checkpoint_file"))
  /\ trace (train s).2
     = (trace s ++ (if checkpoint (args s) then map EvFs (serialize_ops s)
                    else []))%list
  /\ (checkpoint (args s) = false -> (train s).2 = s).
Proof.
  intros Hsa.
  assert (Ht : train s = _serialize s).
  { unfold train. by rewrite (bind_inr _ _ _ _ _ (get_eq s)), Hsa. }
  rewrite Ht. split; [done |]. split; [apply disk_only_serialize |].
  destruct (checkpoint (args s)) eqn:Hc.
  - destruct (serialize_trace s Hc) as [Hr Htr]. by rewrite Hr, Htr.
  - unfold _serialize. rewrite (bind_inr _ _ _ _ _ (get_eq s)), Hc. cbn.
    by rewrite app_nil_r.
Qed.

Lemma exists_path_file (p : string) (d : FS model_state optim_state)
    (f : file model_state optim_state) :
  files d !! p = Some f -> exists_path p d = true.
Proof.
  intros Hf. unfold exists_path. rewrite Hf.
  rewrite (bool_decide_eq_true_2 (is_Some (Some f))) by by eexists.
  apply orb_true_r.
Qed.

(** What [__init__] does when it finds its own checkpoint file. *)
Lemma reset_own_checkpoint
    (trl cvl ttl : option (list batch)) (m0 : model_state) (o0 : optim_state)
    (a : Args) (acl : AcousticLoss) (d : FS model_state optim_state)
    (p : package model_state optim_state) (m : model_state) :
  checkpoint a = true -> restart a = false ->
  files d !! checkpoint_file a = Some (Complete (PackageFile p)) ->
  sm_state (pkg_model p) = Some m ->
  truthy_str (continue_pretrained a) = false ->
  Solver_init trl cvl ttl m0 o0 a acl d
  = (inr tt,
     mkSolver a trl cvl ttl m true
       (match pkg_optimizer p with
        | Some o => if bool_decide (optim a = "adam") then o else o0
        | None => o0
        end) 0 (pkg_history p) (pkg_best_state p) acl d []).
Proof.
  intros Hc Hr Hfile Hstate Hpre.
  unfold Solver_init, _reset, torch_load, model_load_state_dict; unfold_M.
  cbn. rewrite Hc, (exists_path_file _ _ _ Hfile), Hr, Hpre; cbn.
  rewrite Hfile; cbn. rewrite Hstate; cbn.
  destruct (pkg_optimizer p); cbn;
    try destruct (bool_decide (optim a = "adam")); cbn; done.
Qed.

(** X5.  When checkpointing is enabled, the checkpoint file exists and
    holds a package, and restart is not asked for, [__init__] resumes
    from it whatever the continue-from options say: the model and (for
    adam) the optimizer take the states of the package, the history is
    the history of the package and Best State its best state. *)
Theorem reset_resumes_own_checkpoint
    (trl cvl ttl : option (list batch)) (m0 : model_state) (o0 : optim_state)
    (a : Args) (acl : AcousticLoss) (d : FS model_state optim_state)
    (p : package model_state optim_state) (m : model_state) :
  checkpoint a = true -> restart a = false ->
  files d !! checkpoint_file a = Some (Complete (PackageFile p)) ->
  sm_state (pkg_model p) = Some m ->
  truthy_str (continue_pretrained a) = false ->
  (Solver_init trl cvl ttl m0 o0 a acl d).1 = inr tt
  /\ model (Solver_init trl cvl ttl m0 o0 a acl d).2 = m
  /\ optimizer (Solver_init trl cvl ttl m0 o0 a acl d).2
     = match pkg_optimizer p with
       | Some o => if bool_decide (optim a = "adam") then o else o0
       | None => o0
       end
  /\ history (Solver_init trl cvl ttl m0 o0 a acl d).2 = pkg_history p
  /\ best_state (Solver_init trl cvl ttl m0 o0 a acl d).2 = pkg_best_state p
  /\ disk (Solver_init trl cvl ttl m0 o0 a acl d).2 = d.
Proof.
  intros Hc Hr Hfile Hstate Hpre.
  by rewrite (reset_own_checkpoint _ _ _ _ _ _ _ _ p m Hc Hr Hfile Hstate Hpre).
Qed.

(** X6.  Round trip: a Solver constructed, with the same options, on the
    disk that [_serialize] has left resumes the serialized state: the
    model, the history and Best State are those of the Solver that
    serialized, and so is the optimizer when its kind is adam (it is the
    fresh one otherwise). *)
Theorem resume_after_serialize
    (s : Solver) (trl cvl ttl : option (list batch)) (m0 : model_state)
    (o0 : optim_state) (acl : AcousticLoss) :
  checkpoint (args s) = true -> restart (args s) = false ->
  truthy_str (continue_pretrained (args s)) = false ->
  checkpoint_file (args s) <> best_file (args s) ->
  checkpoint_file (args s) <> best_file (args s) +:+ ".tmp" ->
  (Solver_init trl cvl ttl m0 o0 (args s) acl (disk (_serialize s).2)).1
  = inr tt
  /\ model (Solver_init trl cvl ttl m0 o0 (args s) acl
                        (disk (_serialize s).2)).2 = model s
  /\ history (Solver_init trl cvl ttl m0 o0 (args s) acl
                          (disk (_serialize s).2)).2 = history s
  /\ best_state (Solver_init trl cvl ttl m0 o0 (args s) acl
                             (disk (_serialize s).2)).2 = best_state s
  /\ optimizer (Solver_init trl cvl ttl m0 o0 (args s) acl
                            (disk (_serialize s).2)).2
     = (if decide (optim (args s) = "adam") then optimizer s else o0).
Proof.
  intros Hc Hr Hpre Hcb Hcbt.
  assert (Hfile : files (disk (_serialize s).2) !! checkpoint_file (args s)
                  = Some (Complete (PackageFile (make_package s)))).
  { rewrite (serialize_disk s Hc); cbn.
    rewrite lookup_insert_ne by done. rewrite lookup_delete_ne by done.
    rewrite lookup_insert_ne by done. by rewrite lookup_insert_eq. }
  rewrite (reset_own_checkpoint _ _ _ _ _ _ _ _ (make_package s) (model s)
             Hc Hr Hfile eq_refl Hpre).
  cbn. repeat split.
  destruct (decide (optim (args s) = "adam")) as [Hadam | Hadam]; cbn.
  - by rewrite bool_decide_eq_true_2.
  - done.
Qed.

(** X7.  A pretrained model named in the options has the last word: if
    [__init__] returns, the model holds the pretrained state, whatever
    checkpoint was loaded before; and when the registry has no model of
    that name, [__init__] raises. *)
Theorem pretrained_overrides_checkpoint
    (trl cvl ttl : option (list batch)) (m0 : model_state) (o0 : optim_state)
    (a : Args) (acl : AcousticLoss) (d : FS model_state optim_state) :
  truthy_str (continue_pretrained a) = true ->
  ((Solver_init trl cvl ttl m0 o0 a acl d).1 = inr tt ->
   pretrained (continue_pretrained a)
   = Some (model (Solver_init trl cvl ttl m0 o0 a acl d).2))
  /\ (pretrained (continue_pretrained a) = None ->
      exists e, (Solver_init trl cvl ttl m0 o0 a acl d).1 = inl e)
  /\ (checkpoint a && exists_path (checkpoint_file a) d && negb (restart a)
      = false ->
      truthy_str (continue_from a) = false ->
      forall m, pretrained (continue_pretrained a) = Some m ->
      Solver_init trl cvl ttl m0 o0 a acl d
      = (inr tt, set_model m (init_fields trl cvl ttl m0 o0 a acl d))).
Proof.
  intros Hpre.
  unfold Solver_init, _reset, torch_load, model_load_state_dict; unfold_M.
  cbn. rewrite Hpre.
  repeat split.
  - repeat (case_match; cbn in *; simplify_eq; try done).
  - intros Hnone. rewrite Hnone.
    repeat (case_match; cbn in *; simplify_eq; try by eexists).
  - intros Hno Hcf m Hm. rewrite Hno, Hcf, Hm. done.
Qed.

(** X20.  A fresh start.  When there is no checkpoint to resume from
    (checkpointing is disabled, or the checkpoint file does not exist,
    or restart is asked for, in which case an existing checkpoint file
    is not even opened) and neither an external checkpoint nor a
    pretrained model is named, [__init__] returns with the model and the
    optimizer it was given, an empty history and no Best State, and
    touches neither the disk nor the log. *)
Theorem reset_fresh_start
    (trl cvl ttl : option (list batch)) (m0 : model_state) (o0 : optim_state)
    (a : Args) (acl : AcousticLoss) (d : FS model_state optim_state) :
  checkpoint a = false \/ exists_path (checkpoint_file a) d = false
  \/ restart a = true ->
  truthy_str (continue_from a) = false ->
  truthy_str (continue_pretrained a) = false ->
  Solver_init trl cvl ttl m0 o0 a acl d
  = (inr tt, init_fields trl cvl ttl m0 o0 a acl d)
  /\ history (Solver_init trl cvl ttl m0 o0 a acl d).2 = []
  /\ best_state (Solver_init trl cvl ttl m0 o0 a acl d).2 = None.
Proof.
  intros Hno Hcf Hpre.
  assert (Hcond : checkpoint a && exists_path (checkpoint_file a) d
                  && negb (restart a) = false).
  { destruct Hno as [-> | [-> | ->]]; [done | |];
      by rewrite ?andb_false_r. }
  assert (Hinit : Solver_init trl cvl ttl m0 o0 a acl d
                  = (inr tt, init_fields trl cvl ttl m0 o0 a acl d)).
  { unfold Solver_init, _reset; unfold_M. cbn.
    by rewrite Hcond, Hcf, Hpre. }
  by rewrite Hinit.
Qed.

(** ** The epoch loop at its edges *)

(** The state in which [train] enters the epoch loop. *)
Lemma train_loop_state (s : Solver) :
  save_again (args s) = false ->
  train s
  = for_epochs (seq (length (history s))
                    (epochs (args s) - length (history s)))
      (if exists_path tensorboard_dir (disk s) then s
       else add_event (EvFs (Mkdir tensorboard_dir))
              (set_disk (mkFS (files (disk s))
                              ({[tensorboard_dir]} ∪ dirs (disk s))) s)).
Proof.
  intros Hsa. unfold train. rewrite (bind_inr _ _ _ _ _ (get_eq s)), Hsa.
  destruct (exists_path tensorboard_dir (disk s)); reflexivity.
Qed.


(** An epoch without training batches fails as soon as the pass starts:
    a missing loader has no attribute [epoch], and after a loop that
    never ran the batch index [i] is unbound. *)
Lemma train_epoch_without_training_data (e : nat) (s : Solver) :
  truthy_loader (tr_loader s) = false ->
  train_epoch e s
  = (inl (match tr_loader s with
          | None => AttributeError "epoch"
          | Some _ => UnboundLocalError "i"
          end),
     add_event (EvPrintTrainEpoch (e + 1))
       (set_model_training true (set_epoch e s))).
Proof.
  intros Ht.
  unfold train_epoch, modify, emit, modify.
  cbn [bind].
  apply bind_inl. unfold _run_one_epoch.
  rewrite (bind_inr _ _ _ _ _ (get_eq _)). cbn [tr_loader add_event
    set_model_training set_epoch].
  destruct (tr_loader s) as [[| b bs] |]; done.
Qed.

(** A run whose first iteration raises ends there. *)
Lemma train_first_epoch_raises (s : Solver) (err : exn) (t : list event) :
  save_again (args s) = false ->
  (length (history s) < epochs (args s))%nat ->
  (forall s1, args s1 = args s -> tr_loader s1 = tr_loader s ->
     exists s2, train_epoch (length (history s)) s1 = (inl err, s2)
                /\ trace s2 = (trace s1 ++ t)%list
                /\ history s2 = history s1 /\ model s2 = model s1
                /\ optimizer s2 = optimizer s1
                /\ best_state s2 = best_state s1
                /\ ac_loss s2 = ac_loss s1) ->
  (train s).1 = inl err
  /\ trace (train s).2
     = (trace s
        ++ (if exists_path tensorboard_dir (disk s) then []
            else [EvFs (Mkdir tensorboard_dir)])
        ++ t)%list
  /\ history (train s).2 = history s
  /\ model (train s).2 = model s
  /\ optimizer (train s).2 = optimizer s
  /\ best_state (train s).2 = best_state s
  /\ ac_loss (train s).2 = ac_loss s.
Proof.
  intros Hsa Hlt Hep. rewrite (train_loop_state s Hsa).
  destruct (epochs (args s) - length (history s))%nat eqn:E; [lia |].
  cbn [seq for_epochs].
  set (s1 := (if exists_path tensorboard_dir (disk s) then s else _)).
  assert (Hs1 : args s1 = args s /\ tr_loader s1 = tr_loader s
                /\ history s1 = history s /\ model s1 = model s
                /\ optimizer s1 = optimizer s
                /\ best_state s1 = best_state s /\ ac_loss s1 = ac_loss s
                /\ trace s1
                   = (trace s
                      ++ (if exists_path tensorboard_dir (disk s) then []
                          else [EvFs (Mkdir tensorboard_dir)]))%list).
  { unfold s1. destruct (exists_path tensorboard_dir (disk s)); cbn;
      rewrite ?app_nil_r; done. }
  destruct Hs1 as (Ha & Hl & Hh & Hm & Ho & Hb & Hac & Htr).
  destruct (Hep s1 Ha Hl) as (s2 & Hrun & Ht2 & Hh2 & Hm2 & Ho2 & Hb2 & Hac2).
  rewrite (bind_inl _ _ _ _ _ Hrun). cbn [fst snd].
  rewrite Ht2, Htr, <- app_assoc.
  repeat split; congruence.
Qed.

(** X9.  Without a training batch (no training loader, or one that
    yields nothing) a run with an epoch left fails in its first epoch,
    right after announcing it: a missing loader has no attribute
    [epoch], and after a loop over no batch the index [i] is unbound.
    Nothing is recorded and nothing is trained. *)
Theorem train_without_training_data (s : Solver) :
  save_again (args s) = false ->
  (length (history s) < epochs (args s))%nat ->
  truthy_loader (tr_loader s) = false ->
  (train s).1 = inl (match tr_loader s with
                     | None => AttributeError "epoch"
                     | Some _ => UnboundLocalError "i"
                     end)
  /\ trace (train s).2
     = (trace s
        ++ (if exists_path tensorboard_dir (disk s) then []
            else [EvFs (Mkdir tensorboard_dir)])
        ++ [EvPrintTrainEpoch (length (history s) + 1)])%list
  /\ history (train s).2 = history s
  /\ model (train s).2 = model s
  /\ optimizer (train s).2 = optimizer s
  /\ best_state (train s).2 = best_state s
  /\ ac_loss (train s).2 = ac_loss s.
Proof.
  intros Hsa Hlt Htr.
  apply (train_first_epoch_raises s _ _ Hsa Hlt).
  intros s1 Ha Hl. eexists. split.
  - rewrite <- Hl. apply train_epoch_without_training_data. by rewrite Hl.
  - done.
Qed.

(** An enhancement-loss kind that is none of the three is found in the
    loss composition, before any call of the acoustic loss. *)
Lemma compute_loss_invalid_kind (clean estimate : waveform) (s : Solver) :
  acoustic_loss_only (args s) = false ->
  loss (args s) <> "l1" -> loss (args s) <> "l2" ->
  loss (args s) <> "huber" ->
  compute_loss clean estimate s
  = (inl (ValueError ("Invalid loss " +:+ loss (args s))), s).
Proof.
  intros Halo H1 H2 H3. unfold compute_loss; unfold_M; cbn.
  rewrite Halo; cbn. by repeat case_decide.
Qed.

(** The first training batch of an epoch when the loss composition
    raises without an effect. *)
Lemma train_epoch_loss_error
    (e : nat) (b : batch) (bs : list batch) (s : Solver) (err : exn) :
  tr_loader s = Some (b :: bs) ->
  (forall clean estimate s1,
      args s1 = args s -> compute_loss clean estimate s1 = (inl err, s1)) ->
  train_epoch e s
  = (inl err,
     add_event (EvForward false e 0)
       (add_event (EvAugment e 0)
          (add_event (EvPrintTrainEpoch (e + 1))
             (set_model_training true (set_epoch e s))))).
Proof.
  intros Htr Herr.
  unfold train_epoch, modify, emit, modify.
  cbn [bind].
  apply bind_inl. unfold _run_one_epoch.
  rewrite (bind_inr _ _ _ _ _ (get_eq _)).
  cbn [tr_loader add_event set_model_training set_epoch]. rewrite Htr.
  cbn [for_batches].
  apply bind_inl, bind_inl.
  destruct b as [noisy clean].
  unfold batch_step; unfold_M; cbn -[compute_loss].
  destruct (augment _ _ _) as [noise clean']; cbn -[compute_loss].
  by rewrite Herr.
Qed.

(** X10.  With an enhancement-loss kind that is none of ["l1"], ["l2"]
    and ["huber"] (and not in acoustic-loss-only mode), a run with an
    epoch left and a training batch raises [ValueError] while it
    processes the first batch of its first epoch: the batch has been
    augmented and passed through the model, the acoustic loss has not
    been called, no optimizer step was made, and nothing is recorded. *)
Theorem invalid_loss_kind_error_in_first_batch
    (s : Solver) (b : batch) (bs : list batch) :
  save_again (args s) = false ->
  acoustic_loss_only (args s) = false ->
  loss (args s) <> "l1" -> loss (args s) <> "l2" ->
  loss (args s) <> "huber" ->
  tr_loader s = Some (b :: bs) ->
  (length (history s) < epochs (args s))%nat ->
  (train s).1 = inl (ValueError ("Invalid loss " +:+ loss (args s)))
  /\ trace (train s).2
     = (trace s
        ++ (if exists_path tensorboard_dir (disk s) then []
            else [EvFs (Mkdir tensorboard_dir)])
        ++ [EvPrintTrainEpoch (length (history s) + 1);
            EvAugment (length (history s)) 0;
            EvForward false (length (history s)) 0])%list
  /\ history (train s).2 = history s
  /\ model (train s).2 = model s
  /\ optimizer (train s).2 = optimizer s
  /\ best_state (train s).2 = best_state s
  /\ ac_loss (train s).2 = ac_loss s.
Proof.
  intros Hsa Halo H1 H2 H3 Htr Hlt.
  apply (train_first_epoch_raises s _ _ Hsa Hlt).
  intros s1 Ha Hl. eexists. split.
  - apply (train_epoch_loss_error _ b bs); [congruence |].
    intros clean estimate s2 Ha2. rewrite <- Ha, <- Ha2.
    apply compute_loss_invalid_kind; congruence.
  - cbn. rewrite <- !app_assoc. done.
Qed.

(** ** One pass over a loader *)

Lemma bind_inr_inv {A B} (c : M A) (k : A -> M B) (s s' : Solver) (b : B) :
  bind c k s = (inr b, s') ->
  exists a s1, c s = (inr a, s1) /\ k a s1 = (inr b, s').
Proof.
  unfold bind. destruct (c s) as [[e | a] s1]; [done |]. by exists a, s1.
Qed.

(** The loss composition of a batch: the loss that is optimised is the
    sum of its two parts. *)
Lemma compute_loss_parts (clean estimate : waveform) (s : Solver)
    (l : R * R * R) :
  (compute_loss clean estimate s).1 = inr l ->
  sum_ok l
  /\ (acoustic_loss_only (args s) = true -> l.1.2 = 0)
  /\ (acoustic_loss (args s) = false -> l.2 = 0).
Proof.
  unfold sum_ok, compute_loss, ac_loss_call; unfold_M; cbn.
  destruct (acoustic_loss_only (args s)), (acoustic_loss (args s)); cbn;
    repeat case_decide; cbn;
    try destruct (AcousticLoss_call clean estimate None (ac_loss s))
      as [[err | v] o]; cbn;
    try destruct (stft_loss (args s)); try destruct (mrstftloss _ _); cbn;
    intros Hl; simplify_eq; cbn;
    repeat split; intros; try done; lra.
Qed.

(** What a batch adds to the running totals. *)
Lemma batch_step_totals (e : nat) (cv : bool) (i : nat) (b : batch)
    (tot r : R * R * R) (s s' : Solver) :
  batch_step e cv i b tot s = (inr r, s') ->
  exists clean estimate s1 l,
    (compute_loss clean estimate s1).1 = inr l
    /\ r = (tot.1.1 + l.1.1, tot.1.2 + l.1.2, tot.2 + l.2).
Proof.
  destruct b as [noisy clean]. unfold batch_step. intros Hrun.
  apply bind_inr_inv in Hrun as ([] & s1 & _ & Hrun).
  apply bind_inr_inv in Hrun as ([noisy' clean'] & s2 & _ & Hrun).
  apply bind_inr_inv in Hrun as (s3 & s3' & _ & Hrun).
  apply bind_inr_inv in Hrun as ([] & s4 & _ & Hrun).
  apply bind_inr_inv in Hrun as ([[l0 en] ac] & s5 & Hcl & Hrun).
  apply bind_inr_inv in Hrun as ([] & s6 & _ & Hrun).
  destruct tot as [[t0 t1] t2]. injection Hrun as <- _.
  eexists _, _, _, (l0, en, ac). split; [by rewrite Hcl | done].
Qed.

Lemma for_batches_sum_ok (e : nat) (cv : bool) (l : list batch) :
  forall (i : nat) (tot r : R * R * R) (s s' : Solver),
    sum_ok tot ->
    for_batches (batch_step e cv) i l tot s = (inr r, s') -> sum_ok r.
Proof.
  induction l as [| b l IH]; intros i tot r s s' Htot Hrun; cbn in Hrun.
  - by injection Hrun as <- _.
  - apply bind_inr_inv in Hrun as (tot' & s1 & Hb & Hrun).
    eapply IH; [| exact Hrun].
    apply batch_step_totals in Hb as (clean & estimate & s2 & l0 & Hl & ->).
    apply compute_loss_parts in Hl as [Hl _].
    unfold sum_ok in *. cbn. lra.
Qed.

(** X11.  The total loss is the sum of its parts.  In the loss
    composition of a batch the loss that is optimised is the enhancement
    part plus the acoustic part; the enhancement part is 0 in
    acoustic-loss-only mode and the acoustic part is 0 when the acoustic
    loss is disabled.  When the average over the workers is additive,
    the total loss a pass returns is the sum of the enhancement loss and
    the acoustic loss it returns. *)
Theorem total_loss_is_sum_of_parts (e : nat) (cv : bool) (s : Solver) :
  (forall clean estimate l,
      (compute_loss clean estimate s).1 = inr l ->
      sum_ok l
      /\ (acoustic_loss_only (args s) = true -> l.1.2 = 0)
      /\ (acoustic_loss (args s) = false -> l.2 = 0))
  /\ ((forall x y n, distrib_average (x + y) n
                     = distrib_average x n + distrib_average y n) ->
      forall r, (_run_one_epoch e cv s).1 = inr r -> sum_ok r).
Proof.
  split; [intros clean estimate l; apply compute_loss_parts |].
  intros Hadd r Hr.
  destruct (_run_one_epoch e cv s) as [x s'] eqn:E. cbn in Hr. subst x.
  unfold _run_one_epoch in E.
  rewrite (bind_inr _ _ _ _ _ (get_eq s)) in E.
  destruct (if cv then cv_loader s else tr_loader s) as [l |]; [| done].
  apply bind_inr_inv in E as ([[t0 t1] t2] & s1 & Hfb & E).
  destruct l as [| b l]; [done |]. injection E as <- _.
  apply for_batches_sum_ok in Hfb; [| unfold sum_ok; cbn; lra].
  unfold sum_ok in *. cbn in *. rewrite <- Hadd. f_equal.
  rewrite Hfb. unfold Rdiv. ring.
Qed.

(** *** A validation pass *)

Lemma validation_frame_refl (s : Solver) : validation_frame s s.
Proof.
  repeat split. exists []. by rewrite app_nil_r.
Qed.

Lemma validation_frame_trans (s1 s2 s3 : Solver) :
  validation_frame s1 s2 -> validation_frame s2 s3 -> validation_frame s1 s3.
Proof.
  intros (Hm & Ho & Hd & He & Hmt & Hh & Hb & t & Ht & Hv)
         (Hm' & Ho' & Hd' & He' & Hmt' & Hh' & Hb' & t' & Ht' & Hv').
  repeat split; try congruence.
  exists (t ++ t')%list. split.
  - by rewrite Ht', Ht, app_assoc.
  - rewrite forallb_app, Hv, Hv'. done.
Qed.

Lemma validation_frame_events (s s' : Solver) (t : list event) :
  model s' = model s -> optimizer s' = optimizer s -> disk s' = disk s ->
  epoch s' = epoch s -> model_training s' = model_training s ->
  history s' = history s -> best_state s' = best_state s ->
  trace s' = (trace s ++ t)%list -> forallb is_validation_event t = true ->
  validation_frame s s'.
Proof. intros. repeat split; try done. by exists t. Qed.

Lemma validation_frame_ac_loss_call (clean estimate : waveform) :
  preserves validation_frame (ac_loss_call clean estimate).
Proof.
  intros s. unfold ac_loss_call; unfold_M; cbn.
  destruct (AcousticLoss_call clean estimate None (ac_loss s)) as [r o].
  by apply (validation_frame_events _ _ [EvAcousticLoss None]).
Qed.

Ltac validation_leaf :=
  first
    [ apply validation_frame_ac_loss_call
    | unfold emit; apply preserves_modify; intros ?;
      eapply (validation_frame_events _ _ [_]); cbn; reflexivity ].

Lemma validation_frame_compute_loss (clean estimate : waveform) :
  preserves validation_frame (compute_loss clean estimate).
Proof.
  unfold compute_loss.
  preserves_with validation_frame_refl validation_frame_trans validation_leaf.
Qed.

Lemma validation_frame_batch_step (e i : nat) (b : batch) (tot : R * R * R) :
  preserves validation_frame (batch_step e true i b tot).
Proof.
  destruct b as [noisy clean], tot as [[t0 t1] t2]. unfold batch_step.
  cbn [negb]. rewrite andb_false_r. cbn [when].
  preserves_with validation_frame_refl validation_frame_trans
    ltac:(first [apply validation_frame_compute_loss | validation_leaf]).
Qed.

(** X12.  A validation pass trains nothing: the model, the optimizer,
    the disk, the epoch counter, the history and Best State are after
    the pass what they were before; it only runs the model forward and
    calls the acoustic loss.  The validation step of an epoch puts the
    model in evaluation mode when there are validation data, and leaves
    it there. *)
Theorem validation_pass_trains_nothing (e : nat) (s : Solver) :
  validation_frame s (_run_one_epoch e true s).2
  /\ model (cross_validation e s).2 = model s
  /\ optimizer (cross_validation e s).2 = optimizer s
  /\ disk (cross_validation e s).2 = disk s
  /\ model_training (cross_validation e s).2
     = (if truthy_loader (cv_loader s) then false else model_training s).
Proof.
  assert (Hrun : preserves validation_frame (_run_one_epoch e true)).
  { unfold _run_one_epoch.
    preserves_with validation_frame_refl validation_frame_trans
      ltac:(first [apply validation_frame_batch_step | validation_leaf]). }
  split; [apply Hrun |].
  unfold cross_validation. rewrite (bind_inr _ _ _ _ _ (get_eq s)).
  destruct (truthy_loader (cv_loader s)); [| done].
  rewrite (bind_inr _ _ _ _ _
             (eq_refl : modify (set_model_training false) s
                        = (inr tt, set_model_training false s))).
  pose proof (Hrun (set_model_training false s))
    as (Hm & Ho & Hd & _ & Hmt & _).
  destruct (_run_one_epoch e true (set_model_training false s))
    as [[err | v] s1] eqn:E.
  - by rewrite (bind_inl _ _ _ _ _ E).
  - by rewrite (bind_inr _ _ _ _ _ E).
Qed.

(** *** A training pass between two periodic checkpoints *)

Lemma disk_kept_refl (s : Solver) : disk_kept s s.
Proof. split; [done |]. exists []. by rewrite app_nil_r. Qed.

Lemma disk_kept_trans (s1 s2 s3 : Solver) :
  disk_kept s1 s2 -> disk_kept s2 s3 -> disk_kept s1 s3.
Proof.
  intros (Hd & t & Ht & Hf) (Hd' & t' & Ht' & Hf').
  split; [congruence |]. exists (t ++ t')%list. split.
  - by rewrite Ht', Ht, app_assoc.
  - unfold fs_ops in *. by rewrite flat_map_app, Hf, Hf'.
Qed.

Lemma disk_kept_events (s s' : Solver) (t : list event) :
  disk s' = disk s -> trace s' = (trace s ++ t)%list -> fs_ops t = [] ->
  disk_kept s s'.
Proof. intros. split; [done |]. by exists t. Qed.

Lemma disk_kept_ac_loss_call (clean estimate : waveform) :
  preserves disk_kept (ac_loss_call clean estimate).
Proof.
  intros s. unfold ac_loss_call; unfold_M; cbn.
  destruct (AcousticLoss_call clean estimate None (ac_loss s)) as [r o].
  by apply (disk_kept_events _ _ [EvAcousticLoss None]).
Qed.

Ltac disk_kept_leaf :=
  first
    [ apply disk_kept_ac_loss_call
    | apply preserves_modify; intros ?;
      eapply (disk_kept_events _ _ []); cbn; rewrite ?app_nil_r; reflexivity
    | unfold emit; apply preserves_modify; intros ?;
      eapply (disk_kept_events _ _ [_]); cbn; reflexivity ].

Lemma disk_kept_batch_step (e : nat) (cv : bool) (i : nat) (b : batch)
    (tot : R * R * R) :
  (i + 1 < 1000)%nat -> preserves disk_kept (batch_step e cv i b tot).
Proof.
  intros Hi. destruct b as [noisy clean], tot as [[t0 t1] t2].
  unfold batch_step. rewrite Nat.mod_small by lia.
  replace (Nat.eqb (i + 1) 0) with false
    by (symmetry; apply Nat.eqb_neq; lia).
  cbn [andb when]. unfold compute_loss.
  preserves_with disk_kept_refl disk_kept_trans disk_kept_leaf.
Qed.

Lemma disk_kept_for_batches (e : nat) (cv : bool) (l : list batch) :
  forall (i : nat) (tot : R * R * R),
    (i + length l < 1000)%nat ->
    preserves disk_kept (for_batches (batch_step e cv) i l tot).
Proof.
  induction l as [| b l IH]; intros i tot Hi; cbn [for_batches].
  - apply preserves_ret, disk_kept_refl.
  - cbn in Hi. apply preserves_bind; [exact disk_kept_trans | |].
    + apply disk_kept_batch_step. lia.
    + intros tot'. apply IH. lia.
Qed.

(** X13.  A training pass over fewer than 1000 batches leaves the disk
    alone: the periodic checkpoint inside an epoch is written before
    batch number 1000, 2000, ... only, and nothing else in a pass
    touches a file. *)
Theorem short_training_pass_keeps_disk
    (e : nat) (s : Solver) (l : list batch) :
  tr_loader s = Some l -> (length l < 1000)%nat ->
  disk_kept s (_run_one_epoch e false s).2.
Proof.
  intros Htr Hlen.
  unfold _run_one_epoch. rewrite (bind_inr _ _ _ _ _ (get_eq s)), Htr.
  apply (preserves_bind disk_kept disk_kept_trans).
  - apply disk_kept_for_batches. cbn. lia.
  - intros [[t0 t1] t2].
    destruct l; [apply preserves_raise | apply preserves_ret];
      apply disk_kept_refl.
Qed.

(** ** The end of an epoch *)

(** An epoch that returns has come through both passes to the
    bookkeeping, with the options, the test data and the history as they
    were. *)
Lemma train_epoch_inv (e : nat) (s s' : Solver) :
  train_epoch e s = (inr tt, s') ->
  exists tl v s2,
    args s2 = args s /\ tt_loader s2 = tt_loader s
    /\ history s2 = history s
    /\ record_epoch e tl v s2 = (inr tt, s').
Proof.
  unfold train_epoch, modify, emit, modify. cbn [bind]. intros Hrun.
  apply bind_inr_inv in Hrun as (tl & s1 & Hpass & Hrun).
  apply bind_inr_inv in Hrun as (v & s2 & Hcv & Hrun).
  exists tl.1.1, v, s2.
  pose proof (step_ok_run_one_epoch e false
                (add_event (EvPrintTrainEpoch (e + 1))
                   (set_model_training true (set_epoch e s)))) as Hs1.
  pose proof (pass_frame_run_one_epoch e false
                (add_event (EvPrintTrainEpoch (e + 1))
                   (set_model_training true (set_epoch e s)))) as Hp1.
  rewrite Hpass in Hs1, Hp1. cbn [snd] in Hs1, Hp1.
  pose proof (step_ok_cross_validation e s1) as Hs2.
  pose proof (pass_frame_cross_validation e s1) as Hp2.
  rewrite Hcv in Hs2, Hp2. cbn [snd] in Hs2, Hp2.
  destruct Hs1 as (Ha1 & _ & _ & Ht1 & _), Hs2 as (Ha2 & _ & _ & Ht2 & _).
  destruct Hp1 as [Hh1 _], Hp2 as [Hh2 _]. cbn in Ha1, Ht1, Hh1.
  repeat split; [congruence | congruence | congruence | exact Hrun].
Qed.

(** The bookkeeping of an epoch that returns: the record it appends and
    the state in which the files are written. *)
Lemma record_epoch_inv (e : nat) (tl v : R) (s s' : Solver) :
  record_epoch e tl v s = (inr tt, s') ->
  exists b0 s3,
    py_min (pull_metric_valid (history s) ++ [v]) = Some b0
    /\ eval_every (args s) <> 0%nat
    /\ history s3
       = (history s
          ++ [mkMetrics tl v b0
                (if evaluation_due e s
                 then Some (evaluate (args s) (model s)
                                     (default [] (tt_loader s)))
                 else None)])%list
    /\ args s3 = args s /\ model s3 = model s /\ disk s3 = disk s
    /\ persist_epoch s3 = (inr tt, s').
Proof.
  unfold record_epoch. rewrite (bind_inr _ _ _ _ _ (get_eq s)).
  destruct (py_min (pull_metric_valid (history s) ++ [v])) as [b0 |];
    [| done].
  intros Hrun. exists b0.
  apply bind_inr_inv in Hrun as ([] & s1 & Hbest & Hrun).
  assert (Hs1 : history s1 = history s /\ args s1 = args s
                /\ model s1 = model s /\ disk s1 = disk s).
  { unfold when in Hbest. destruct (Req_dec_T v b0);
      injection Hbest as <-; done. }
  destruct Hs1 as (Hh1 & Ha1 & Hm1 & Hd1).
  destruct (Nat.eqb (eval_every (args s)) 0) eqn:Hev; [done |].
  apply Nat.eqb_neq in Hev.
  apply bind_inr_inv in Hrun as (m1 & s2 & Hm & Hrun).
  apply bind_inr_inv in Hrun as ([] & s3 & Hmod & Hrun).
  injection Hmod as <-. exists (set_history (history s2 ++ [m1]) s2).
  unfold evaluation_due.
  destruct ((Nat.eqb ((e + 1) mod eval_every (args s)) 0
             || Nat.eqb (e + 1) (epochs (args s)))
            && truthy_loader (tt_loader s));
    cbn in Hm; injection Hm as <- <-;
    (split; [done |]); (split; [done |]);
    (split; [cbn; by rewrite Hh1 |]); (split; [done |]);
    (split; [done |]); (split; [done |]); exact Hrun.
Qed.

Lemma save_ckpts_keeps_path (p : string) (s : Solver) :
  (forall n, p <> ckpt_path n) ->
  files (disk (save_ckpts s).2) !! p = files (disk s) !! p.
Proof.
  intros Hp. unfold save_ckpts; unfold_M.
  destruct (exists_path checkpoints_dir (disk s)) eqn:Hex;
    destruct (save_checkpoints (args s)) eqn:Hsave; cbn;
    rewrite ?Hsave; cbn; rewrite ?Hex; cbn; try done;
    by rewrite lookup_insert_ne.
Qed.

Lemma serialize_keeps_path (p : string) (s : Solver) :
  p <> checkpoint_file (args s) ->
  p <> checkpoint_file (args s) +:+ ".tmp" ->
  p <> best_file (args s) -> p <> best_file (args s) +:+ ".tmp" ->
  files (disk (_serialize s).2) !! p = files (disk s) !! p.
Proof.
  intros Hp1 Hp2 Hp3 Hp4.
  destruct (checkpoint (args s)) eqn:Hc.
  - rewrite (serialize_disk s Hc); cbn.
    rewrite lookup_insert_ne by done. rewrite lookup_delete_ne by done.
    rewrite lookup_insert_ne by done. rewrite lookup_insert_ne by done.
    rewrite lookup_delete_ne by done. by rewrite lookup_insert_ne.
  - unfold _serialize. rewrite (bind_inr _ _ _ _ _ (get_eq s)), Hc. done.
Qed.

(** The history file after the files of an epoch are written. *)
Lemma persist_epoch_history_file (s : Solver) :
  distrib_rank = 0%nat ->
  (checkpoint (args s) = true -> history_file_apart (args s)) ->
  files (disk (persist_epoch s).2) !! history_file (args s)
  = Some (Complete (HistoryFile (history s))).
Proof.
  intros Hrank Hapart. unfold persist_epoch. rewrite Hrank. cbn [Nat.eqb when].
  rewrite (bind_inr _ _ _ _ _ (get_eq s)).
  set (s1 := add_event (EvFs (Save (HistoryFile (history s))
                                   (history_file (args s))))
               (set_disk (mkFS (<[history_file (args s) :=
                                    Complete (HistoryFile (history s))]>
                                  (files (disk s))) (dirs (disk s))) s)).
  rewrite (bind_inr _ _ _ _ _
             (eq_refl : fs_do (Save (HistoryFile (history s))
                                    (history_file (args s))) s
                        = (inr tt, s1))).
  assert (Hf1 : files (disk s1) !! history_file (args s)
                = Some (Complete (HistoryFile (history s))))
    by (cbn; by rewrite lookup_insert_eq).
  destruct (checkpoint (args s)) eqn:Hc; [| exact Hf1].
  destruct (Hapart eq_refl) as (Hn & Hcf & Hct & Hbf & Hbt).
  cbn [when].
  pose proof (save_ckpts_returns s1) as Hret.
  destruct (save_ckpts s1) as [r s2] eqn:Hs2. cbn in Hret. subst r.
  rewrite (bind_inr _ _ _ _ _ Hs2).
  assert (Ha2 : args s2 = args s).
  { pose proof (step_ok_save_ckpts s1) as (Ha & _). by rewrite Hs2 in Ha. }
  rewrite serialize_keeps_path by (rewrite Ha2; done).
  pose proof (save_ckpts_keeps_path (history_file (args s)) s1 Hn) as Hk.
  rewrite Hs2 in Hk. cbn [snd] in Hk. by rewrite Hk.
Qed.

(** The history file after an epoch that completes. *)
Lemma train_epoch_history_file (e : nat) (s s' : Solver) :
  distrib_rank = 0%nat ->
  (checkpoint (args s) = true -> history_file_apart (args s)) ->
  train_epoch e s = (inr tt, s') ->
  files (disk s') !! history_file (args s)
  = Some (Complete (HistoryFile (history s'))).
Proof.
  intros Hrank Hapart Hrun.
  apply train_epoch_inv in Hrun as (tl & v & s2 & Ha2 & _ & _ & Hrec).
  apply record_epoch_inv in Hrec
    as (b0 & s3 & _ & _ & _ & Ha3 & _ & _ & Hper).
  pose proof (persist_epoch_history_file s3 Hrank) as Hfile.
  pose proof (disk_only_persist_epoch s3) as (Hh & _).
  rewrite Hper in Hfile, Hh. cbn [snd] in Hfile, Hh.
  rewrite Hh, <- Ha2, <- Ha3. apply Hfile. by rewrite Ha3, Ha2.
Qed.

(** The bookkeeping of an epoch with [eval_every = 0]. *)
Lemma record_epoch_eval_every_zero (e : nat) (tl v : R) (s : Solver) :
  eval_every (args s) = 0%nat ->
  (record_epoch e tl v s).1 = inl ZeroDivisionError.
Proof.
  intros Hev. unfold record_epoch. rewrite (bind_inr _ _ _ _ _ (get_eq s)).
  destruct (py_min_snoc (pull_metric_valid (history s)) v) as (b & -> & _).
  unfold when. rewrite Hev.
  destruct (Req_dec_T v b); reflexivity.
Qed.

(** X15.  With [eval_every = 0] no epoch completes: the remainder
    [(epoch + 1) % eval_every] divides by zero after both passes of the
    epoch have been run, so nothing is ever recorded; when the passes
    themselves cannot fail (a recognised enhancement loss, no acoustic
    loss, a training batch), the epoch raises [ZeroDivisionError]. *)
Theorem eval_every_zero_fails_every_epoch (e : nat) (s : Solver) :
  eval_every (args s) = 0%nat ->
  (train_epoch e s).1 <> inr tt
  /\ history (train_epoch e s).2 = history s
  /\ (plain_losses (args s) = true ->
      (exists b bs, tr_loader s = Some (b :: bs)) ->
      (train_epoch e s).1 = inl ZeroDivisionError).
Proof.
  intros Hev.
  assert (Hno : (train_epoch e s).1 <> inr tt).
  { intros Hret. destruct (train_epoch e s) as [r s'] eqn:Hrun.
    cbn in Hret. subst r.
    apply train_epoch_inv in Hrun as (tl & v & s2 & Ha2 & _ & _ & Hrec).
    apply record_epoch_inv in Hrec as (b0 & s3 & _ & Hne & _).
    apply Hne. by rewrite Ha2. }
  split; [exact Hno |]. split.
  - pose proof (post_outcome _ _ _ _ (train_epoch_spec e s)) as Hspec.
    destruct (train_epoch e s).1 as [err | []]; [| done].
    apply Hspec.
  - intros Hplain (b & bs & Htr).
    unfold train_epoch, modify, emit, modify. cbn [bind].
    set (s0 := add_event (EvPrintTrainEpoch (e + 1))
                 (set_model_training true (set_epoch e s))).
    destruct (run_one_epoch_returns e false s0 b bs Hplain Htr) as [tl Htl].
    destruct (_run_one_epoch e false s0) as [r s1] eqn:Hpass.
    cbn in Htl. subst r. rewrite (bind_inr _ _ _ _ _ Hpass).
    assert (Ha1 : args s1 = args s).
    { pose proof (step_ok_run_one_epoch e false s0) as (Ha & _).
      by rewrite Hpass in Ha. }
    destruct (cross_validation_returns e s1) as [v Hv]; [congruence |].
    destruct (cross_validation e s1) as [r s2] eqn:Hcv.
    cbn in Hv. subst r. rewrite (bind_inr _ _ _ _ _ Hcv).
    assert (Ha2 : args s2 = args s).
    { pose proof (step_ok_cross_validation e s1) as (Ha & _).
      rewrite Hcv in Ha. cbn in Ha. congruence. }
    apply record_epoch_eval_every_zero. congruence.
Qed.

(** The record of an epoch that completes. *)
Lemma train_epoch_record (e : nat) (s s' : Solver) :
  train_epoch e s = (inr tt, s') ->
  exists m,
    history s' = (history s ++ [m])%list
    /\ pesq_stoi m
       = (if evaluation_due e s
          then Some (evaluate (args s) (model s') (default [] (tt_loader s)))
          else None).
Proof.
  intros Hrun.
  apply train_epoch_inv in Hrun as (tl & v & s2 & Ha2 & Ht2 & Hh2 & Hrec).
  apply record_epoch_inv in Hrec
    as (b0 & s3 & _ & _ & Hh3 & Ha3 & Hm3 & _ & Hper).
  pose proof (disk_only_persist_epoch s3) as (Hh & _ & Hm & _).
  rewrite Hper in Hh, Hm. cbn [snd] in Hh, Hm.
  eexists. split; [by rewrite Hh, Hh3, Hh2 |].
  cbn. unfold evaluation_due. by rewrite Ha2, Ht2, Hm, Hm3.
Qed.

(** The epoch loop that returns has run its last iteration. *)
Lemma for_epochs_last (l : list nat) (e : nat) :
  forall s s' : Solver,
    for_epochs (l ++ [e]) s = (inr tt, s') ->
    exists s1, for_epochs l s = (inr tt, s1)
               /\ train_epoch e s1 = (inr tt, s').
Proof.
  induction l as [| e0 l IH]; intros s s' Hrun; cbn [app for_epochs] in *.
  - apply bind_inr_inv in Hrun as ([] & s1 & Hep & Hret).
    injection Hret as <-. by exists s.
  - apply bind_inr_inv in Hrun as ([] & s0 & Hep & Hrun).
    apply IH in Hrun as (s1 & Hl & Hlast).
    exists s1. split; [| done]. by rewrite (bind_inr _ _ _ _ _ Hep).
Qed.

(** A run that returns after at least one epoch: its last iteration is
    the one of the last epoch, entered with one record less than epochs
    asked for. *)
Lemma train_last_epoch (s s' : Solver) :
  save_again (args s) = false ->
  (length (history s) < epochs (args s))%nat ->
  train s = (inr tt, s') ->
  exists s1, args s1 = args s /\ tt_loader s1 = tt_loader s
             /\ length (history s1) = (epochs (args s) - 1)%nat
             /\ train_epoch (epochs (args s) - 1) s1 = (inr tt, s').
Proof.
  intros Hsa Hlt Hrun. rewrite (train_loop_state s Hsa) in Hrun.
  set (s0 := (if exists_path tensorboard_dir (disk s) then s else _)) in Hrun.
  assert (Hs0 : args s0 = args s /\ tt_loader s0 = tt_loader s
                /\ history s0 = history s).
  { unfold s0. by destruct (exists_path tensorboard_dir (disk s)). }
  destruct Hs0 as (Ha0 & Ht0 & Hh0). clearbody s0.
  destruct (epochs (args s) - length (history s))%nat as [| n] eqn:E;
    [lia |].
  rewrite seq_S in Hrun.
  apply for_epochs_last in Hrun as (s1 & Hloop & Hlast).
  pose proof (for_epochs_spec (seq (length (history s)) n) s0) as Hspec.
  unfold post in Hspec. rewrite Hloop in Hspec.
  destruct Hspec as (Ha1 & _ & _ & Ht1 & _ & new & Hh1 & Hn & _).
  rewrite length_seq in Hn.
  replace (length (history s) + n)%nat with (epochs (args s) - 1)%nat
    in Hlast by lia.
  exists s1. repeat split; [congruence | congruence | | done].
  rewrite Hh1, length_app, Hh0, Hn. lia.
Qed.

(** X14.  On the coordinating worker, after every epoch that completes
    the history file holds the whole history, the record of that epoch
    included, and so it does when [train] returns after at least one
    epoch (when checkpointing is enabled: provided the history file is
    none of the checkpoint files). *)
Theorem history_file_mirrors_history (s : Solver) :
  distrib_rank = 0%nat ->
  (checkpoint (args s) = true -> history_file_apart (args s)) ->
  (forall e,
      (train_epoch e s).1 = inr tt ->
      files (disk (train_epoch e s).2) !! history_file (args s)
      = Some (Complete (HistoryFile (history (train_epoch e s).2))))
  /\ (save_again (args s) = false ->
      (length (history s) < epochs (args s))%nat ->
      (train s).1 = inr tt ->
      files (disk (train s).2) !! history_file (args s)
      = Some (Complete (HistoryFile (history (train s).2)))).
Proof.
  intros Hrank Hapart. split.
  - intros e Hret.
    destruct (train_epoch e s) as [r s'] eqn:Hrun. cbn in Hret. subst r.
    by apply (train_epoch_history_file e s s').
  - intros Hsa Hlt Hret.
    destruct (train s) as [r s'] eqn:Hrun. cbn in Hret. subst r.
    apply (train_last_epoch s s' Hsa Hlt) in Hrun
      as (s1 & Ha1 & _ & _ & Hlast).
    cbn [snd]. rewrite <- Ha1.
    apply (train_epoch_history_file (epochs (args s) - 1) s1 s');
      [done | by rewrite Ha1 | done].
Qed.

(** X16.  Every epoch that completes appends one record; the record
    carries the test metrics exactly when the epoch number is a multiple
    of [eval_every] or the epoch is the last one, and there are test
    data; the metrics are those of the current model on the test set,
    not those of Best State.  So when [train] returns after at least one
    epoch and there are test data, the last record of the history
    carries test metrics. *)
Theorem test_metrics_recorded_when_due (s : Solver) :
  (forall e,
      (train_epoch e s).1 = inr tt ->
      exists m,
        history (train_epoch e s).2 = (history s ++ [m])%list
        /\ pesq_stoi m
           = (if evaluation_due e s
              then Some (evaluate (args s) (model (train_epoch e s).2)
                                  (default [] (tt_loader s)))
              else None))
  /\ (save_again (args s) = false ->
      (length (history s) < epochs (args s))%nat ->
      truthy_loader (tt_loader s) = true ->
      (train s).1 = inr tt ->
      exists h m,
        history (train s).2 = (h ++ [m])%list
        /\ length h = (epochs (args s) - 1)%nat
        /\ pesq_stoi m
           = Some (evaluate (args s) (model (train s).2)
                            (default [] (tt_loader s)))).
Proof.
  split.
  - intros e Hret.
    destruct (train_epoch e s) as [r s'] eqn:Hrun. cbn in Hret. subst r.
    by apply train_epoch_record.
  - intros Hsa Hlt Htt Hret.
    destruct (train s) as [r s'] eqn:Hrun. cbn in Hret. subst r.
    apply (train_last_epoch s s' Hsa Hlt) in Hrun
      as (s1 & Ha1 & Ht1 & Hlen & Hlast).
    apply train_epoch_record in Hlast as (m & Hh & Hpq).
    exists (history s1), m. split; [done |]. split; [done |].
    rewrite Hpq. unfold evaluation_due. rewrite Ha1, Ht1, Htt.
    replace (epochs (args s) - 1 + 1)%nat with (epochs (args s)) by lia.
    rewrite Nat.eqb_refl, orb_true_r. done.
Qed.

(** ** What an epoch leaves on disk *)

Lemma make_package_frame (s s' : Solver) :
  disk_only s s' -> args s' = args s -> make_package s' = make_package s.
Proof.
  intros (Hh & Hb & Hm & Ho & _) Ha. unfold make_package.
  by rewrite Hh, Hb, Hm, Ho, Ha.
Qed.

(** The checkpoint file and the best file after the files of an epoch
    are written. *)
Lemma persist_epoch_checkpoint (s : Solver) :
  distrib_rank = 0%nat -> checkpoint (args s) = true ->
  checkpoint_files_apart (args s) ->
  files (disk (persist_epoch s).2) !! checkpoint_file (args s)
  = Some (Complete (PackageFile (make_package s)))
  /\ files (disk (persist_epoch s).2) !! best_file (args s)
     = Some (Complete (ModelFile (mkSerialized (best_state s)))).
Proof.
  intros Hrank Hc (Hcb & Hcbt & Hctb).
  pose proof (tmp_path_fresh (checkpoint_file (args s))) as Hct.
  unfold persist_epoch. rewrite Hrank. cbn [Nat.eqb when].
  rewrite (bind_inr _ _ _ _ _ (get_eq s)).
  set (s1 := add_event (EvFs (Save (HistoryFile (history s))
                                   (history_file (args s))))
               (set_disk (mkFS (<[history_file (args s) :=
                                    Complete (HistoryFile (history s))]>
                                  (files (disk s))) (dirs (disk s))) s)).
  rewrite (bind_inr _ _ _ _ _
             (eq_refl : fs_do (Save (HistoryFile (history s))
                                    (history_file (args s))) s
                        = (inr tt, s1))).
  rewrite Hc. cbn [when].
  pose proof (save_ckpts_returns s1) as Hret.
  pose proof (step_ok_save_ckpts s1) as (Ha2 & _).
  pose proof (disk_only_save_ckpts s1) as Hd2.
  destruct (save_ckpts s1) as [r s2] eqn:Hs2. cbn in Hret, Ha2, Hd2. subst r.
  rewrite (bind_inr _ _ _ _ _ Hs2).
  assert (Hp : make_package s2 = make_package s).
  { apply make_package_frame; [| done].
    apply (disk_only_trans s s1 s2); [by repeat split | done]. }
  assert (Hb : best_state s2 = best_state s) by apply Hd2.
  rewrite serialize_disk by (by rewrite Ha2). rewrite Ha2, Hp, Hb. cbn.
  split.
  - rewrite lookup_insert_ne by done. rewrite lookup_delete_ne by done.
    rewrite lookup_insert_ne by done. by rewrite lookup_insert_eq.
  - by rewrite lookup_insert_eq.
Qed.

(** The checkpoint file and the best file after an epoch that
    completes. *)
Lemma train_epoch_checkpoint (e : nat) (s s' : Solver) :
  distrib_rank = 0%nat -> checkpoint (args s) = true ->
  checkpoint_files_apart (args s) ->
  train_epoch e s = (inr tt, s') ->
  files (disk s') !! checkpoint_file (args s)
  = Some (Complete (PackageFile (make_package s')))
  /\ files (disk s') !! best_file (args s)
     = Some (Complete (ModelFile (mkSerialized (best_state s')))).
Proof.
  intros Hrank Hc Hapart Hrun.
  apply train_epoch_inv in Hrun as (tl & v & s2 & Ha2 & _ & _ & Hrec).
  apply record_epoch_inv in Hrec
    as (b0 & s3 & _ & _ & _ & Ha3 & _ & _ & Hper).
  assert (Ha : args s3 = args s) by congruence.
  destruct (persist_epoch_checkpoint s3 Hrank) as [Hcf Hbf];
    [by rewrite Ha | by rewrite Ha |].
  pose proof (disk_only_persist_epoch s3) as Hd.
  pose proof (step_ok_persist_epoch s3) as (Hargs & _).
  rewrite Hper in Hcf, Hbf, Hd, Hargs. cbn [snd] in Hcf, Hbf, Hd, Hargs.
  rewrite (make_package_frame s3 s' Hd Hargs).
  destruct Hd as (_ & -> & _). by rewrite <- Ha.
Qed.

(** X17.  On the coordinating worker with checkpointing enabled (and
    the checkpoint file, the best file and their temporary names apart),
    after every epoch that completes the checkpoint file holds the
    package of the state the epoch has ended in (its model, optimizer,
    history and Best State) and the best file holds the model with Best
    State; and so they do when [train] returns after at least one
    epoch. *)
Theorem checkpoint_holds_state_after_epoch (s : Solver) :
  distrib_rank = 0%nat -> checkpoint (args s) = true ->
  checkpoint_files_apart (args s) ->
  (forall e,
      (train_epoch e s).1 = inr tt ->
      files (disk (train_epoch e s).2) !! checkpoint_file (args s)
      = Some (Complete (PackageFile (make_package (train_epoch e s).2)))
      /\ files (disk (train_epoch e s).2) !! best_file (args s)
         = Some (Complete (ModelFile
                             (mkSerialized
                                (best_state (train_epoch e s).2)))))
  /\ (save_again (args s) = false ->
      (length (history s) < epochs (args s))%nat ->
      (train s).1 = inr tt ->
      files (disk (train s).2) !! checkpoint_file (args s)
      = Some (Complete (PackageFile (make_package (train s).2)))
      /\ files (disk (train s).2) !! best_file (args s)
         = Some (Complete (ModelFile
                             (mkSerialized (best_state (train s).2))))).
Proof.
  intros Hrank Hc Hapart. split.
  - intros e Hret.
    destruct (train_epoch e s) as [r s'] eqn:Hrun. cbn in Hret. subst r.
    by apply (train_epoch_checkpoint e s s').
  - intros Hsa Hlt Hret.
    destruct (train s) as [r s'] eqn:Hrun. cbn in Hret. subst r.
    apply (train_last_epoch s s' Hsa Hlt) in Hrun
      as (s1 & Ha1 & _ & _ & Hlast).
    cbn [snd]. rewrite <- Ha1.
    apply (train_epoch_checkpoint (epochs (args s) - 1) s1 s');
      [done | by rewrite Ha1 | by rewrite Ha1 | done].
Qed.

(** X18.  Resuming a run.  After [train] has returned from at least one
    epoch (on the coordinating worker, with checkpointing enabled and
    the checkpoint files apart), a Solver constructed with the same
    options on the disk that run has left, without restart and without
    a pretrained model, starts from the state the run ended in: its
    model, its history and its Best State, and its optimizer when the
    optimizer kind is adam; so its own [train] has no epoch left to
    run. *)
Theorem resume_after_training
    (s : Solver) (trl cvl ttl : option (list batch)) (m0 : model_state)
    (o0 : optim_state) (acl : AcousticLoss) :
  distrib_rank = 0%nat -> checkpoint (args s) = true ->
  checkpoint_files_apart (args s) ->
  restart (args s) = false ->
  truthy_str (continue_pretrained (args s)) = false ->
  save_again (args s) = false ->
  (length (history s) < epochs (args s))%nat ->
  (train s).1 = inr tt ->
  (Solver_init trl cvl ttl m0 o0 (args s) acl (disk (train s).2)).1 = inr tt
  /\ model (Solver_init trl cvl ttl m0 o0 (args s) acl (disk (train s).2)).2
     = model (train s).2
  /\ history (Solver_init trl cvl ttl m0 o0 (args s) acl
                          (disk (train s).2)).2
     = history (train s).2
  /\ best_state (Solver_init trl cvl ttl m0 o0 (args s) acl
                             (disk (train s).2)).2
     = best_state (train s).2
  /\ optimizer (Solver_init trl cvl ttl m0 o0 (args s) acl
                            (disk (train s).2)).2
     = (if decide (optim (args s) = "adam") then optimizer (train s).2
        else o0)
  /\ (epochs (args s)
      - length (history (Solver_init trl cvl ttl m0 o0 (args s) acl
                                     (disk (train s).2)).2))%nat = 0%nat.
Proof.
  intros Hrank Hc Hapart Hr Hpre Hsa Hlt Hret.
  destruct (train s) as [r s'] eqn:Hrun. cbn in Hret. subst r. cbn [snd].
  pose proof (train_last_epoch s s' Hsa Hlt Hrun)
    as (s1 & Ha1 & _ & Hlen & Hlast).
  assert (Hfile : files (disk s') !! checkpoint_file (args s)
                  = Some (Complete (PackageFile (make_package s')))).
  { rewrite <- Ha1.
    apply (train_epoch_checkpoint (epochs (args s) - 1) s1 s');
      [done | by rewrite Ha1 | by rewrite Ha1 | done]. }
  assert (Hargs : args s' = args s).
  { pose proof (post_outcome _ _ _ _
                  (train_epoch_spec (epochs (args s) - 1) s1)) as Hspec.
    rewrite Hlast in Hspec. cbn in Hspec.
    destruct Hspec as ((Ha & _) & _). congruence. }
  assert (Hhist : length (history s') = epochs (args s)).
  { apply train_epoch_record in Hlast as (m & -> & _).
    rewrite length_app, Hlen. cbn. lia. }
  rewrite (reset_own_checkpoint _ _ _ _ _ _ _ _ (make_package s') (model s')
             Hc Hr Hfile eq_refl Hpre).
  cbn. rewrite Hargs.
  repeat split; [| lia].
  destruct (decide (optim (args s) = "adam")) as [Hadam | Hadam]; cbn.
  - by rewrite bool_decide_eq_true_2.
  - done.
Qed.

(** ** Optimizer steps of a training pass *)

Lemma steps_made_trans (l1 l2 : list nat) (s1 s2 s3 : Solver) :
  steps_made l1 s1 s2 -> steps_made l2 s2 s3 ->
  steps_made (l1 ++ l2) s1 s3.
Proof.
  intros (t & Ht & Hl) (t' & Ht' & Hl'). exists (t ++ t')%list. split.
  - by rewrite Ht', Ht, app_assoc.
  - unfold optimizer_steps in *. by rewrite flat_map_app, Hl, Hl'.
Qed.

Lemma no_step_refl (s : Solver) : steps_made [] s s.
Proof. exists []. by rewrite app_nil_r. Qed.

Lemma no_step_trans (s1 s2 s3 : Solver) :
  steps_made [] s1 s2 -> steps_made [] s2 s3 -> steps_made [] s1 s3.
Proof. intros H1 H2. apply (steps_made_trans [] [] s1 s2 s3 H1 H2). Qed.

Lemma no_step_ac_loss_call (clean estimate : waveform) :
  preserves (steps_made []) (ac_loss_call clean estimate).
Proof.
  intros s. unfold ac_loss_call; unfold_M; cbn.
  destruct (AcousticLoss_call clean estimate None (ac_loss s)) as [r o].
  by exists [EvAcousticLoss None].
Qed.

Lemma no_step_events (s s' : Solver) (t : list event) :
  trace s' = (trace s ++ t)%list -> optimizer_steps t = [] ->
  steps_made [] s s'.
Proof. intros. by exists t. Qed.

Ltac no_step_leaf :=
  first
    [ apply no_step_ac_loss_call
    | apply preserves_modify; intros ?;
      eapply (no_step_events _ _ []); cbn; rewrite ?app_nil_r; reflexivity
    | apply preserves_fs_do; [apply no_step_refl |]; intros ? ?;
      eapply (no_step_events _ _ [_]); cbn; reflexivity
    | unfold emit; apply preserves_modify; intros ?;
      eapply (no_step_events _ _ [_]); cbn; reflexivity ].

Lemma post_bind_frame {A B} (Rel : Solver -> Solver -> Prop)
    (c : M A) (k : A -> M B) (s0 s : Solver)
    (Qok : B -> Solver -> Prop) (Qerr : exn -> Solver -> Prop) :
  (forall s1 s2 s3, Rel s1 s2 -> Rel s2 s3 -> Rel s1 s3) ->
  Rel s0 s -> preserves Rel c ->
  (forall err s1, Rel s0 s1 -> Qerr err s1) ->
  (forall a s1, Rel s0 s1 -> post (k a) s1 Qok Qerr) ->
  post (bind c k) s Qok Qerr.
Proof.
  intros Htrans H0s Hc Herr Hk. unfold post, bind in *.
  specialize (Hc s). destruct (c s) as [[err | a] s1]; cbn in Hc.
  - apply Herr. by apply (Htrans s0 s s1).
  - apply Hk. by apply (Htrans s0 s s1).
Qed.

(** A training batch makes one optimizer step, as the last thing it
    does. *)
Lemma batch_step_steps (e i : nat) (b : batch) (tot : R * R * R)
    (s : Solver) :
  post (batch_step e false i b tot) s
    (fun _ s' => steps_made [i] s s') (fun _ s' => steps_made [] s s').
Proof.
  destruct b as [noisy clean], tot as [[t0 t1] t2].
  unfold batch_step. cbn [negb].
  apply (post_bind_frame (steps_made []) _ _ s s);
    [exact no_step_trans | apply no_step_refl | | by intros | ].
  { apply preserves_when; [apply no_step_refl |]. unfold save_ckpts.
    preserves_with no_step_refl no_step_trans no_step_leaf. }
  intros [] s1 H1.
  apply (post_bind_frame (steps_made []) _ _ s s1);
    [exact no_step_trans | done | | by intros | ].
  { preserves_with no_step_refl no_step_trans no_step_leaf. }
  intros [noisy' clean'] s2 H2.
  apply (post_bind_frame (steps_made []) _ _ s s2);
    [exact no_step_trans | done | | by intros | ].
  { apply preserves_get, no_step_refl. }
  intros s3' s3 H3.
  apply (post_bind_frame (steps_made []) _ _ s s3);
    [exact no_step_trans | done | | by intros | ].
  { no_step_leaf. }
  intros [] s4 H4.
  apply (post_bind_frame (steps_made []) _ _ s s4);
    [exact no_step_trans | done | | by intros | ].
  { unfold compute_loss.
    preserves_with no_step_refl no_step_trans no_step_leaf. }
  intros [[l0 en] ac] s5 H5.
  unfold post; unfold_M; cbn.
  destruct (optimizer_step (args s5) (model s5) (optimizer s5)
                           (noisy', clean')) as [m o]; cbn.
  apply (steps_made_trans [] [i] s s5); [done |].
  by exists [EvOptimizerStep e i].
Qed.

Lemma for_batches_steps (e : nat) (l : list batch) :
  forall (i : nat) (tot : R * R * R) (s : Solver),
    post (for_batches (batch_step e false) i l tot) s
      (fun _ s' => steps_made (seq i (length l)) s s')
      (fun _ s' => exists n, (n < length l)%nat
                             /\ steps_made (seq i n) s s').
Proof.
  induction l as [| b l IH]; intros i tot s; cbn [for_batches length seq].
  - apply no_step_refl.
  - pose proof (batch_step_steps e i b tot s) as Hb.
    unfold post, bind in *.
    destruct (batch_step e false i b tot s) as [[err | tot'] s1].
    + exists 0%nat. split; [lia | done].
    + specialize (IH (S i) tot' s1).
      destruct (for_batches (batch_step e false) (S i) l tot' s1)
        as [[err | r] s2].
      * destruct IH as (n & Hn & Hsteps). exists (S n). split; [lia |].
        apply (steps_made_trans [i] (seq (S i) n) s s1 s2 Hb Hsteps).
      * apply (steps_made_trans [i] (seq (S i) (length l)) s s1 s2 Hb IH).
Qed.

(** X19.  A training pass makes one optimizer step per batch, in the
    order of the loader, each after the loss of its batch has been
    computed: a pass that returns has stepped once for every batch, and
    a pass that raises has stepped for the batches before the one that
    failed and for no other. *)
Theorem one_optimizer_step_per_batch
    (e : nat) (s : Solver) (l : list batch) :
  tr_loader s = Some l ->
  exists n,
    steps_made (seq 0 n) s (_run_one_epoch e false s).2
    /\ match (_run_one_epoch e false s).1 with
       | inr _ => n = length l
       | inl _ => (n < length l)%nat \/ l = []
       end.
Proof.
  intros Htr. unfold _run_one_epoch.
  rewrite (bind_inr _ _ _ _ _ (get_eq s)), Htr.
  pose proof (for_batches_steps e l 0 (0, 0, 0)%R s) as Hfb.
  unfold post, bind in *.
  destruct (for_batches (batch_step e false) 0 l (0, 0, 0)%R s)
    as [[err | [[t0 t1] t2]] s1].
  - destruct Hfb as (n & Hn & Hsteps). exists n. cbn. split; [done |].
    by left.
  - exists (length l). destruct l; cbn; split; try done. by right.
Qed.

End SolverFacts.


(* ===================================================================== *)
(** * Properties of the acoustic loss *)
(* ===================================================================== *)

Section TensorFacts.
Open Scope R_scope.

(** ** Sums *)

Lemma tsum_app (x y : tensor1) : tsum (x ++ y) = tsum x + tsum y.
Proof.
  unfold tsum. induction x as [| a x IH]; cbn; [lra | rewrite IH; lra].
Qed.

Lemma tsum_concat (l : tensor2) : tsum (concat l) = tsum (map tsum l).
Proof.
  induction l as [| r l IH]; cbn; [done |]. by rewrite tsum_app, IH.
Qed.

Lemma sum_upto_S (n : nat) (g : nat -> R) :
  sum_upto (S n) g = g 0%nat + sum_upto n (fun i => g (S i)).
Proof.
  unfold sum_upto. cbn [seq map tsum foldr].
  by rewrite <- seq_shift, map_map.
Qed.

Lemma sum_upto_ext (n : nat) (f g : nat -> R) :
  (forall i, (i < n)%nat -> f i = g i) -> sum_upto n f = sum_upto n g.
Proof.
  intros Hfg. unfold sum_upto. f_equal. apply map_ext_in.
  intros i Hi. apply in_seq in Hi. apply Hfg. lia.
Qed.

Lemma tsum_map_nth {A} (f : A -> R) (d : A) (l : list A) :
  tsum (map f l) = sum_upto (length l) (fun i => f (nth i l d)).
Proof.
  induction l as [| a l IH]; [done |].
  cbn [length]. rewrite sum_upto_S. cbn [map nth].
  change (tsum (f a :: map f l)) with (f a + tsum (map f l)).
  by rewrite IH.
Qed.

Lemma tsum_nth (l : tensor1) :
  tsum l = sum_upto (length l) (fun i => nth i l 0).
Proof. rewrite <- (map_id l) at 1. apply (tsum_map_nth (fun v => v)). Qed.

(** ** Shapes *)

Lemma shape3_nth (B T D : nat) (x : tensor3) (b : nat) :
  has_shape3 B T D x -> (b < B)%nat -> has_shape2 T D (nth b x []).
Proof.
  intros [Hlen Hall] Hb. rewrite List.Forall_forall in Hall.
  apply Hall, nth_In. lia.
Qed.

Lemma shape2_nth (T D : nat) (x : tensor2) (t : nat) :
  has_shape2 T D x -> (t < T)%nat -> length (nth t x []) = D.
Proof.
  intros [Hlen Hall] Ht. rewrite List.Forall_forall in Hall.
  apply Hall, nth_In. lia.
Qed.

Lemma length_concat_uniform {A} (n : nat) (l : list (list A)) :
  Forall (fun r => length r = n) l -> length (concat l) = (length l * n)%nat.
Proof.
  induction 1 as [| r l Hr _ IH]; cbn; [done |].
  rewrite length_app, IH, Hr. lia.
Qed.

Lemma length_flatten3 (B T D : nat) (x : tensor3) :
  has_shape3 B T D x -> length (flatten3 x) = (B * T * D)%nat.
Proof.
  intros [Hlen Hall]. unfold flatten3.
  rewrite (length_concat_uniform D).
  - rewrite (length_concat_uniform T), Hlen; [done |].
    eapply List.Forall_impl; [| exact Hall]. by intros m [Hm _].
  - apply Forall_concat.
    eapply List.Forall_impl; [| exact Hall]. by intros m [_ Hm].
Qed.

(** The sum of all entries, index by index. *)
Lemma tsum_flatten3 (B T D : nat) (x : tensor3) :
  has_shape3 B T D x ->
  tsum (flatten3 x)
  = sum_upto B (fun b => sum_upto T (fun t => sum_upto D (fun d => at3 x b t d))).
Proof.
  intros Hx. unfold flatten3.
  rewrite tsum_concat, concat_map, tsum_concat, map_map.
  rewrite (tsum_map_nth _ []). destruct Hx as [Hlen Hall] eqn:E. rewrite Hlen.
  apply sum_upto_ext. intros b Hb.
  pose proof (shape3_nth _ _ _ _ b Hx Hb) as Hm.
  rewrite (tsum_map_nth _ []). destruct Hm as [HlenT HallT] eqn:E'.
  rewrite HlenT.
  apply sum_upto_ext. intros t Ht.
  rewrite tsum_nth, (shape2_nth _ _ _ t Hm Ht). done.
Qed.

(** [torch.mean] as a mean over the indices. *)
Lemma mean3_index (B T D : nat) (x : tensor3) (g : nat -> nat -> nat -> R) :
  has_shape3 B T D x ->
  (forall b t d, (b < B)%nat -> (t < T)%nat -> (d < D)%nat ->
                 at3 x b t d = g b t d) ->
  mean3 x = mean_over B T D g.
Proof.
  intros Hx Hg. unfold mean3, mean_over.
  rewrite (length_flatten3 B T D), (tsum_flatten3 B T D) by done.
  f_equal.
  apply sum_upto_ext. intros b Hb.
  apply sum_upto_ext. intros t Ht.
  apply sum_upto_ext. intros d Hd. by apply Hg.
Qed.

(** ** Broadcasting *)

Lemma zipM_total {A B C} (f : A -> B -> option C) (g : A -> B -> C)
    (xs : list A) (ys : list B) :
  length xs = length ys ->
  (forall x y, In x xs -> In y ys -> f x y = Some (g x y)) ->
  zipM f xs ys = Some (zip_with g xs ys).
Proof.
  revert ys. induction xs as [| x xs IH]; intros [| y ys] Hlen Hf;
    try done.
  cbn. rewrite Hf by (by left). rewrite IH; [done | by injection Hlen |].
  intros x' y' Hx Hy. apply Hf; by right.
Qed.

Lemma mapOpt_total {A C} (f : A -> option C) (g : A -> C) (xs : list A) :
  (forall x, In x xs -> f x = Some (g x)) -> mapOpt f xs = Some (map g xs).
Proof.
  induction xs as [| x xs IH]; intros Hf; [done |].
  cbn. rewrite Hf by (by left). rewrite IH; [done |].
  intros x' Hx. apply Hf. by right.
Qed.

Lemma bcast_same {A B C} (f : A -> B -> option C) (g : A -> B -> C)
    (xs : list A) (ys : list B) :
  length xs = length ys ->
  (forall x y, In x xs -> In y ys -> f x y = Some (g x y)) ->
  bcast f xs ys = Some (zip_with g xs ys).
Proof.
  intros Hlen Hf. unfold bcast.
  rewrite (proj2 (Nat.eqb_eq _ _) Hlen). by apply zipM_total.
Qed.

Lemma bcast_stretch {A B C} (f : A -> B -> option C) (g : A -> B -> C)
    (x : A) (ys : list B) :
  (forall y, In y ys -> f x y = Some (g x y)) ->
  bcast f [x] ys = Some (map (g x) ys).
Proof.
  intros Hf. unfold bcast.
  destruct (Nat.eqb (length [x]) (length ys)) eqn:E.
  - apply Nat.eqb_eq in E. destruct ys as [| y [| ? ?]]; try done.
    cbn. rewrite Hf by (by left). done.
  - by apply mapOpt_total.
Qed.

(** Two tensors of one shape: the operation is applied entry by entry. *)
Lemma bop3_same_shape (op : R -> R -> R) (B T D : nat) (x y : tensor3) :
  has_shape3 B T D x -> has_shape3 B T D y ->
  bop3 op x y = Some (zip_with (zip_with (zip_with op)) x y).
Proof.
  intros [Hx Hxs] [Hy Hys]. unfold bop3.
  rewrite List.Forall_forall in Hxs, Hys.
  apply bcast_same; [congruence |]. intros mx my Hmx Hmy.
  destruct (Hxs _ Hmx) as [Hlx Hrx]. destruct (Hys _ Hmy) as [Hly Hry].
  rewrite List.Forall_forall in Hrx, Hry.
  apply bcast_same; [congruence |]. intros rx ry Hrx' Hry'.
  apply bcast_same; [| done].
  rewrite (Hrx _ Hrx'), (Hry _ Hry'). done.
Qed.

(** A per-frame weight against a tensor with [D] entries per frame: the
    weight is stretched over the last dimension. *)
Lemma bop3_unsqueezed (op : R -> R -> R) (B T D : nat)
    (w : tensor2) (y : tensor3) :
  has_shape2 B T w -> has_shape3 B T D y ->
  bop3 op (unsqueeze_last w) y
  = Some (zip_with (zip_with (fun wl r => map (op (hd 0 wl)) r))
                   (unsqueeze_last w) y).
Proof.
  intros [Hw Hws] [Hy Hys]. unfold bop3, unsqueeze_last, map2d.
  rewrite List.Forall_forall in Hws, Hys.
  apply bcast_same; [rewrite length_map; congruence |].
  intros mw my Hmw Hmy.
  apply in_map_iff in Hmw as (rw & <- & Hrw).
  destruct (Hys _ Hmy) as [Hly Hry].
  apply bcast_same; [rewrite length_map, (Hws _ Hrw); congruence |].
  intros wl r Hwl Hr.
  apply in_map_iff in Hwl as (v & <- & Hv).
  by apply (bcast_stretch _ (fun a b => op a b)).
Qed.

(** ** Entries of the tensors built by the loss *)

Lemma nth_zip_with {A B C} (f : A -> B -> C) (l : list A) (k : list B)
    (i : nat) (d : C) (da : A) (db : B) :
  (i < length l)%nat -> (i < length k)%nat ->
  nth i (zip_with f l k) d = f (nth i l da) (nth i k db).
Proof.
  revert k i. induction l as [| a l IH]; intros [| b k] [| i] Hl Hk;
    cbn in *; try lia; [done |].
  apply IH; lia.
Qed.

Lemma nth_map_in {A B} (f : A -> B) (l : list A) (i : nat) (d : B) (da : A) :
  (i < length l)%nat -> nth i (map f l) d = f (nth i l da).
Proof.
  intros Hi. rewrite (nth_indep _ d (f da)) by (by rewrite length_map).
  apply map_nth.
Qed.

Section Entries.
Variables (B T D : nat) (x y : tensor3) (w : tensor2).
Hypothesis Hx : has_shape3 B T D x.
Hypothesis Hy : has_shape3 B T D y.
Hypothesis Hw : has_shape2 B T w.
Variables (b t d : nat).
Hypothesis Hb : (b < B)%nat.
Hypothesis Ht : (t < T)%nat.
Hypothesis Hd : (d < D)%nat.

Lemma shape_lengths (z : tensor3) :
  has_shape3 B T D z ->
  length z = B /\ length (nth b z []) = T
  /\ length (nth t (nth b z []) []) = D.
Proof.
  intros Hz. pose proof (shape3_nth _ _ _ _ b Hz Hb) as Hm.
  split; [apply Hz |]. split; [apply Hm |].
  by apply (shape2_nth T).
Qed.

Lemma at3_zip (op : R -> R -> R) :
  at3 (zip_with (zip_with (zip_with op)) x y) b t d
  = op (at3 x b t d) (at3 y b t d).
Proof.
  destruct (shape_lengths x Hx) as (Lx & Lxb & Lxt).
  destruct (shape_lengths y Hy) as (Ly & Lyb & Lyt).
  unfold at3.
  rewrite (nth_zip_with _ _ _ _ _ [] []) by lia.
  rewrite (nth_zip_with _ _ _ _ _ [] []) by lia.
  rewrite (nth_zip_with _ _ _ _ _ 0 0) by lia. done.
Qed.

Lemma at3_map (f : R -> R) :
  at3 (map3d f x) b t d = f (at3 x b t d).
Proof.
  destruct (shape_lengths x Hx) as (Lx & Lxb & Lxt).
  unfold at3, map3d.
  rewrite (nth_map_in _ _ _ _ []) by lia.
  rewrite (nth_map_in _ _ _ _ []) by lia.
  rewrite (nth_map_in _ _ _ _ 0) by lia. done.
Qed.

Lemma at3_weighted (op : R -> R -> R) (f : R -> R) :
  at3 (zip_with (zip_with (fun wl r => map (op (hd 0 wl)) r))
                (unsqueeze_last (map2d f w)) y) b t d
  = op (f (at2 w b t)) (at3 y b t d).
Proof.
  destruct (shape_lengths y Hy) as (Ly & Lyb & Lyt).
  destruct Hw as [Lw Hws].
  assert (Lwb : length (nth b w []) = T).
  { rewrite List.Forall_forall in Hws. apply Hws, nth_In. lia. }
  unfold at3, at2, unsqueeze_last, map2d.
  rewrite (nth_zip_with _ _ _ _ _ [] []) by (rewrite ?length_map; lia).
  rewrite (nth_map_in _ _ _ _ []) by (rewrite ?length_map; lia).
  rewrite (nth_map_in _ _ _ _ []) by lia.
  rewrite (nth_zip_with _ _ _ _ _ [] []) by (rewrite ?length_map; lia).
  rewrite (nth_map_in _ _ _ _ 0) by (rewrite ?length_map; lia).
  rewrite (nth_map_in _ _ _ _ 0) by (rewrite ?length_map; lia).
  rewrite (nth_map_in _ _ _ _ 0) by (rewrite ?length_map; lia). done.
Qed.

End Entries.

(** Shapes of the tensors built by the loss. *)
Lemma Forall_zip_with_2 {A B C} (P : A -> Prop) (Q : B -> Prop) (S : C -> Prop)
    (f : A -> B -> C) (l : list A) (k : list B) :
  Forall P l -> Forall Q k -> (forall a b, P a -> Q b -> S (f a b)) ->
  Forall S (zip_with f l k).
Proof.
  intros Hl. revert k.
  induction Hl as [| a l Ha _ IH]; intros k Hk Hf; [constructor |].
  destruct Hk as [| b k Hb Hk]; cbn; constructor; auto.
Qed.

Lemma shape2_zip_with {A} (f : A -> tensor1 -> tensor1) (T D : nat)
    (l : list A) (m : tensor2) :
  length l = T -> has_shape2 T D m ->
  (forall a r, length (f a r) = length r) ->
  has_shape2 T D (zip_with f l m).
Proof.
  intros Hl [Hm Hrs] Hf. split.
  - rewrite length_zip_with. lia.
  - apply (Forall_zip_with_2 (fun _ => True) (fun r => length r = D));
      [by apply Forall_true | done |].
    intros a r _ Hr. by rewrite Hf.
Qed.

Lemma shape3_zip (op : R -> R -> R) (B T D : nat) (x y : tensor3) :
  has_shape3 B T D x -> has_shape3 B T D y ->
  has_shape3 B T D (zip_with (zip_with (zip_with op)) x y).
Proof.
  intros [Hx Hxs] [Hy Hys]. split.
  - rewrite length_zip_with. lia.
  - apply (Forall_zip_with_2 (has_shape2 T D) (has_shape2 T D)); try done.
    intros mx my [Hmx Hrx] [Hmy Hry]. split.
    + rewrite length_zip_with. lia.
    + apply (Forall_zip_with_2 (fun r => length r = D)
                               (fun r => length r = D)); try done.
      intros rx ry Hrx' Hry'. rewrite length_zip_with. lia.
Qed.

Lemma shape3_map (f : R -> R) (B T D : nat) (x : tensor3) :
  has_shape3 B T D x -> has_shape3 B T D (map3d f x).
Proof.
  intros [Hx Hxs]. unfold map3d. split; [by rewrite length_map |].
  apply Forall_map. eapply List.Forall_impl; [| exact Hxs].
  intros m [Hm Hrs]. split; [by rewrite length_map |].
  apply Forall_map. eapply List.Forall_impl; [| exact Hrs].
  intros r Hr. cbn. by rewrite length_map.
Qed.

Lemma shape2_map (f : R -> R) (B T : nat) (w : tensor2) :
  has_shape2 B T w -> has_shape2 B T (map2d f w).
Proof.
  intros [Hw Hws]. unfold map2d. split; [by rewrite length_map |].
  apply Forall_map. eapply List.Forall_impl; [| exact Hws].
  intros r Hr. cbn. by rewrite length_map.
Qed.

Lemma shape3_weighted (op : R -> R -> R) (B T D : nat)
    (w : tensor2) (y : tensor3) :
  has_shape2 B T w -> has_shape3 B T D y ->
  has_shape3 B T D (zip_with (zip_with (fun wl r => map (op (hd 0 wl)) r))
                             (unsqueeze_last w) y).
Proof.
  intros [Hw Hws] [Hy Hys]. unfold unsqueeze_last, map2d. split.
  - rewrite length_zip_with, length_map. lia.
  - apply (Forall_zip_with_2 (fun l => length l = T) (has_shape2 T D));
      try done.
    + apply Forall_map. eapply List.Forall_impl; [| exact Hws].
      intros r Hr. cbn. by rewrite length_map.
    + intros wl m Hwl Hm. apply shape2_zip_with; try done.
      intros a r. by rewrite length_map.
Qed.

End TensorFacts.

Section StftFacts.
Open Scope R_scope.

(** ** Shapes of the spectral transform *)

Lemma half_nfft : (nfft / 2 = 256)%nat.
Proof. reflexivity. Qed.

Lemma length_reflect_pad (p : nat) (x : tensor1) :
  (p < length x)%nat -> length (reflect_pad p x) = (length x + 2 * p)%nat.
Proof.
  intros Hp. unfold reflect_pad.
  rewrite !length_app, length_rev, !length_firstn, !length_skipn, length_rev.
  lia.
Qed.

Lemma length_analysis_frames (w : tensor1) :
  (256 < length w)%nat ->
  length (analysis_frames w) = (1 + length w / hop_length)%nat.
Proof.
  intros Hw. unfold analysis_frames, frames.
  rewrite length_map, length_seq, half_nfft, length_reflect_pad by done.
  do 2 f_equal. unfold nfft. lia.
Qed.

Lemma stft_row_rows (w : tensor1) :
  exists r rs,
    stft_row nfft hop_length w = r :: rs
    /\ length (r :: rs) = (nfft / 2 + 1)%nat
    /\ Forall (fun r' => length r' = length (analysis_frames w)) (r :: rs).
Proof.
  unfold stft_row. fold (analysis_frames w).
  rewrite Nat.add_1_r. cbn [seq map].
  eexists _, _. split; [reflexivity |]. split.
  - cbn [length]. by rewrite length_map, length_seq.
  - constructor; [by rewrite length_map |].
    apply Forall_map, Forall_forall. intros f _. cbn.
    by rewrite length_map.
Qed.

Lemma torch_stft_long (wav : tensor2) :
  Forall (fun w => (256 < length w)%nat) wav ->
  torch_stft wav nfft hop_length = Some (map (stft_row nfft hop_length) wav).
Proof.
  intros Hw. unfold torch_stft.
  rewrite (proj2 (forallb_forall _ _)); [done |].
  rewrite List.Forall_forall in Hw. intros w Hin.
  apply Nat.ltb_lt. rewrite half_nfft. by apply Hw.
Qed.

(** [get_stft] returns on waveforms of more than 256 samples. *)
Lemma get_stft_long (wav : tensor2) (b : bool) :
  Forall (fun w => (256 < length w)%nat) wav ->
  get_stft wav b
  = inr (spectrogram_of wav, if b then Some (st_energy_of wav) else None).
Proof.
  intros Hw. unfold spectrogram_of, st_energy_of, get_stft.
  rewrite (torch_stft_long _ Hw). by destruct b.
Qed.

Lemma zip_with_map_same {A B C D'} (g : B -> C -> D') (h1 : A -> B)
    (h2 : A -> C) (l : list A) :
  zip_with g (map h1 l) (map h2 l) = map (fun a => g (h1 a) (h2 a)) l.
Proof. induction l as [| a l IH]; cbn; [done | by rewrite IH]. Qed.

(** The short-time energy of one waveform, frame by frame. *)
Lemma st_energy_of_long (wav : tensor2) :
  Forall (fun w => (256 < length w)%nat) wav ->
  st_energy_of wav
  = map (fun w => map (fun v => v * (2 / INR nfft))
                      (sum_dim0 (map (map power) (stft_row nfft hop_length w))))
        wav.
Proof.
  intros Hw. unfold st_energy_of, get_stft.
  rewrite (torch_stft_long _ Hw). unfold map2d, map3d.
  rewrite zip_with_map_same, !map_map.
  apply map_ext. intros w. f_equal. f_equal.
  rewrite zip_with_map_same. apply map_ext. intros r.
  by rewrite zip_with_map_same.
Qed.

Lemma spectrogram_of_long (wav : tensor2) :
  Forall (fun w => (256 < length w)%nat) wav ->
  spectrogram_of wav
  = map (fun w => map (flat_map (fun c : R * R => [c.1; c.2]))
                      (transpose (0, 0) (stft_row nfft hop_length w)))
        wav.
Proof.
  intros Hw. unfold spectrogram_of, get_stft.
  rewrite (torch_stft_long _ Hw). by rewrite map_map.
Qed.

Lemma length_fold_zip_plus (rs : tensor2) (r : tensor1) (T : nat) :
  length r = T -> Forall (fun r' => length r' = T) rs ->
  length (fold_left (zip_with Rplus) rs r) = T.
Proof.
  revert r. induction rs as [| r' rs IH]; intros r Hr Hrs; [done |].
  inversion Hrs; subst. cbn. apply IH; [| done].
  rewrite length_zip_with. lia.
Qed.

Lemma spectrogram_shape (B L : nat) (wav : tensor2) :
  has_shape2 B L wav -> (256 < L)%nat ->
  length (spectrogram_of wav) = B
  /\ Forall (fun m => length m = (1 + L / hop_length)%nat) (spectrogram_of wav).
Proof.
  intros [Hlen Hrows] HL.
  assert (Hw : Forall (fun w => (256 < length w)%nat) wav).
  { eapply List.Forall_impl; [| exact Hrows]. cbn. intros w ->. done. }
  rewrite spectrogram_of_long by done. split; [by rewrite length_map |].
  apply Forall_map. eapply List.Forall_impl; [| exact Hrows].
  intros w Hwl. cbv beta in Hwl |- *.
  destruct (stft_row_rows w) as (r & rs & -> & _ & Hall).
  inversion Hall as [| ? ? Hr _]; subst.
  rewrite length_map. unfold transpose. rewrite length_map, length_seq, Hr.
  by rewrite length_analysis_frames by lia.
Qed.

Lemma st_energy_shape (B L : nat) (wav : tensor2) :
  has_shape2 B L wav -> (256 < L)%nat ->
  has_shape2 B (1 + L / hop_length) (st_energy_of wav).
Proof.
  intros [Hlen Hrows] HL.
  assert (Hw : Forall (fun w => (256 < length w)%nat) wav).
  { eapply List.Forall_impl; [| exact Hrows]. cbn. intros w ->. done. }
  rewrite st_energy_of_long by done. split; [by rewrite length_map |].
  apply Forall_map. eapply List.Forall_impl; [| exact Hrows].
  intros w Hwl. cbv beta in Hwl |- *.
  destruct (stft_row_rows w) as (r & rs & -> & _ & Hall).
  inversion Hall as [| ? ? Hr Hrs]; subst.
  rewrite length_map. cbn [map sum_dim0].
  rewrite (length_fold_zip_plus _ _ (length (analysis_frames w))).
  - by rewrite length_analysis_frames by lia.
  - by rewrite length_map.
  - apply Forall_map. eapply List.Forall_impl; [| exact Hrs].
    intros r' Hr'. cbn. by rewrite length_map.
Qed.

(** ** Entries of the short-time energy *)

Lemma power_nonneg (c : R * R) : 0 <= power c.
Proof.
  unfold power. pose proof (pow2_ge_0 c.1). pose proof (pow2_ge_0 c.2). lra.
Qed.

Lemma tsum_nonneg (l : tensor1) : Forall (Rle 0) l -> 0 <= tsum l.
Proof.
  unfold tsum. induction 1 as [| a l Ha _ IH]; cbn; lra.
Qed.

Lemma nth_nonneg (l : tensor1) (t : nat) : Forall (Rle 0) l -> 0 <= nth t l 0.
Proof.
  intros Hl. destruct (nth_in_or_default t l 0) as [Hin | ->]; [| lra].
  rewrite List.Forall_forall in Hl. by apply Hl.
Qed.

Lemma nth_fold_zip_plus (rs : tensor2) (r : tensor1) (t : nat) :
  (t < length r)%nat -> Forall (fun r' => (t < length r')%nat) rs ->
  nth t (fold_left (zip_with Rplus) rs r) 0
  = nth t r 0 + tsum (map (fun r' => nth t r' 0) rs).
Proof.
  revert r. induction rs as [| r' rs IH]; intros r Hr Hrs.
  - unfold tsum. cbn. lra.
  - inversion Hrs; subst. cbn [fold_left map].
    rewrite IH; [| rewrite length_zip_with; lia | done].
    rewrite (nth_zip_with _ _ _ _ _ 0 0) by lia.
    change (tsum (nth t r' 0 :: map (fun r'0 => nth t r'0 0) rs))
      with (nth t r' 0 + tsum (map (fun r'0 => nth t r'0 0) rs)).
    lra.
Qed.

Lemma stft_row_first (w : tensor1) :
  exists rs,
    stft_row nfft hop_length w
    = map (fun frame => dft_bin nfft frame 0) (analysis_frames w) :: rs
    /\ Forall (fun r' => length r' = length (analysis_frames w)) rs.
Proof.
  unfold stft_row. fold (analysis_frames w).
  rewrite Nat.add_1_r. cbn [seq map].
  eexists. split; [reflexivity |].
  apply Forall_map, Forall_forall. intros f _. cbv beta.
  by rewrite length_map.
Qed.

(** In bin 0 every factor [cos] is one: the real part is the sum of the
    samples of the frame. *)
Lemma imap_ext_map {A B} (f : nat -> A -> B) (g : A -> B) (l : list A) :
  (forall k x, f k x = g x) -> imap f l = map g l.
Proof.
  revert f. induction l as [| a l IH]; intros f Hf; [done |].
  cbn. rewrite Hf. f_equal. apply IH. intros k x. apply Hf.
Qed.

Lemma dft_bin_0_real (n : nat) (frame : tensor1) :
  (dft_bin n frame 0).1 = tsum frame.
Proof.
  unfold dft_bin. cbn [fst].
  rewrite (imap_ext_map _ (fun x => x)); [by rewrite map_id |].
  intros k x. unfold dft_angle. cbn [INR].
  replace (2 * PI * 0 * INR k / INR n) with 0 by (unfold Rdiv; ring).
  rewrite cos_0. ring.
Qed.

(** Every entry of the short-time energy is at least [2 / nfft] times the
    squared sum of the samples of its frame. *)
Lemma st_energy_lower_bound (w : tensor1) (t : nat) :
  (256 < length w)%nat -> (t < length (analysis_frames w))%nat ->
  tsum (nth t (analysis_frames w) []) ^ 2 * (2 / INR nfft)
  <= at2 (st_energy_of [w]) 0 t.
Proof.
  intros Hw Ht.
  rewrite st_energy_of_long by (by repeat constructor).
  unfold at2. cbn [map nth].
  destruct (stft_row_first w) as (rs & -> & Hrs).
  cbn [map sum_dim0].
  assert (Hlen : length (fold_left (zip_with Rplus) (map (map power) rs)
                   (map power (map (fun frame => dft_bin nfft frame 0)
                                   (analysis_frames w))))
                 = length (analysis_frames w)).
  { apply length_fold_zip_plus; [by rewrite !length_map |].
    apply Forall_map. eapply List.Forall_impl; [| exact Hrs].
    intros r' Hr'. cbv beta. by rewrite length_map. }
  rewrite (nth_map_in _ _ _ _ 0) by lia.
  rewrite nth_fold_zip_plus.
  - rewrite (nth_map_in _ _ _ _ (0, 0)) by (by rewrite length_map).
    rewrite (nth_map_in _ _ _ _ []) by done.
    assert (Hrest : 0 <= tsum (map (fun r' => nth t r' 0)
                                   (map (map power) rs))).
    { apply tsum_nonneg. rewrite map_map. apply Forall_map, Forall_forall.
      intros r' _. cbv beta. apply nth_nonneg.
      apply Forall_map, Forall_forall. intros c _. apply power_nonneg. }
    assert (Hc : 0 <= 2 / INR nfft).
    { apply Rlt_le, Rdiv_lt_0_compat; [lra |].
      apply lt_0_INR. unfold nfft. lia. }
    set (c := 2 / INR nfft) in *.
    set (frame := nth t (analysis_frames w) []).
    pose proof (dft_bin_0_real nfft frame) as Hre.
    assert (Hp : tsum frame ^ 2 <= power (dft_bin nfft frame 0)).
    { unfold power. rewrite Hre.
      pose proof (pow2_ge_0 (dft_bin nfft frame 0).2). lra. }
    apply Rmult_le_compat_r; [done | lra].
  - by rewrite !length_map.
  - apply Forall_map. eapply List.Forall_impl; [| exact Hrs].
    intros r' Hr'. cbv beta in Hr' |- *. rewrite length_map. lia.
Qed.

(** ** Frames of a constant waveform *)

Lemma Forall_reflect_pad (P : R -> Prop) (p : nat) (x : tensor1) :
  Forall P x -> Forall P (reflect_pad p x).
Proof.
  intros Hx. unfold reflect_pad.
  repeat (apply Forall_app; split); try done.
  - apply Forall_rev. by apply Forall_take, Forall_drop.
  - by apply Forall_take, Forall_drop, Forall_rev.
Qed.

Lemma frame_of_frames (n hop : nat) (x : tensor1) (t : nat) :
  (t < length (frames n hop x))%nat ->
  nth t (frames n hop x) [] = frame_at n hop x t.
Proof.
  unfold frames. rewrite length_map, length_seq. intros Ht.
  rewrite (nth_map_in _ _ _ _ 0%nat) by (by rewrite length_seq).
  by rewrite seq_nth.
Qed.

Lemma length_frame_at (n hop : nat) (x : tensor1) (t : nat) :
  (t < length (frames n hop x))%nat -> (n <= length x)%nat ->
  (0 < hop)%nat ->
  length (frame_at n hop x t) = n.
Proof.
  unfold frames, frame_at.
  rewrite length_map, length_seq, length_firstn, length_skipn.
  intros Ht Hn Hhop.
  assert (t * hop <= length x - n)%nat.
  { transitivity (hop * ((length x - n) / hop))%nat.
    - rewrite (Nat.mul_comm t). apply Nat.mul_le_mono_l. lia.
    - apply Nat.Div0.mul_div_le. }
  lia.
Qed.

Lemma tsum_ones (l : tensor1) : Forall (eq 1) l -> tsum l = INR (length l).
Proof.
  unfold tsum. induction 1 as [| a l <- _ IH]; [done |].
  cbn [foldr length]. rewrite IH, S_INR. lra.
Qed.

Lemma frame_energy_ones (l : tensor1) :
  Forall (eq 1) l -> frame_energy l = INR (length l).
Proof.
  unfold frame_energy, tsum. induction 1 as [| a l <- _ IH]; [done |].
  cbn [map foldr length]. rewrite IH, S_INR. lra.
Qed.

Lemma INR_nfft : INR nfft = 512.
Proof. unfold nfft. rewrite INR_IZR_INZ. by f_equal. Qed.

(** The frames of a waveform of ones of more than 256 samples are 512
    ones each. *)
Lemma frames_of_ones (w : tensor1) (t : nat) :
  Forall (eq 1) w -> (256 < length w)%nat ->
  (t < length (analysis_frames w))%nat ->
  Forall (eq 1) (nth t (analysis_frames w) [])
  /\ length (nth t (analysis_frames w) []) = nfft.
Proof.
  intros Hones Hw Ht. unfold analysis_frames in *.
  rewrite frame_of_frames by done. split.
  - unfold frame_at. by apply Forall_take, Forall_drop, Forall_reflect_pad.
  - apply length_frame_at; [done | | unfold hop_length; lia].
    rewrite half_nfft, length_reflect_pad by done. unfold nfft. lia.
Qed.

End StftFacts.

Section AcousticLossFacts.
Context `{Estimator}.
Open Scope R_scope.

Lemma sigmoid_pos (x : R) : 0 < sigmoid x.
Proof.
  unfold sigmoid. pose proof (exp_pos (- x)).
  apply Rdiv_lt_0_compat; lra.
Qed.

Lemma sqrt_sigmoid (x : R) : Rpower (sigmoid x) 0.5 = sqrt (sigmoid x).
Proof.
  replace 0.5 with (/ 2) by lra. apply Rpower_sqrt, sigmoid_pos.
Qed.

(** The distance [forward] computes from embeddings of one shape and a
    per-frame energy is the formula of the specification for the loss
    kind; any other kind raises. *)
Lemma acoustic_distance_spec (o : AcousticLoss) (B T D : nat)
    (energy : tensor2) (enhan clean : tensor3) :
  constructed o ->
  has_shape2 B T energy -> has_shape3 B T D enhan -> has_shape3 B T D clean ->
  acoustic_distance o energy enhan clean
  = match spec_loss (loss_type o) B T D energy enhan clean with
    | Some v => inr v
    | None => inl (ValueError ("Invalid loss_type " +:+ loss_type o))
    end.
Proof.
  intros [Hl2 Hl1] He Hen Hcl.
  pose proof (shape3_zip Rminus _ _ _ _ _ Hen Hcl) as Hd.
  unfold acoustic_distance, spec_loss.
  repeat case_decide; try done.
  - rewrite Hl2 by done. unfold MSELoss.
    rewrite (bop3_same_shape _ B T D) by done. cbn. f_equal.
    apply mean3_index; [by apply shape3_map |].
    intros b t d Hb Ht Hd'.
    rewrite (at3_map B T D _ Hd b t d Hb Ht Hd').
    by rewrite (at3_zip B T D _ _ Hen Hcl b t d Hb Ht Hd').
  - rewrite Hl1 by done. unfold L1Loss.
    rewrite (bop3_same_shape _ B T D) by done. cbn. f_equal.
    apply mean3_index; [by apply shape3_map |].
    intros b t d Hb Ht Hd'.
    rewrite (at3_map B T D _ Hd b t d Hb Ht Hd').
    by rewrite (at3_zip B T D _ _ Hen Hcl b t d Hb Ht Hd').
  - rewrite (bop3_same_shape _ B T D) by done.
    rewrite (bop3_unsqueezed _ B T D) by (try done; by apply shape2_map).
    f_equal.
    pose proof (shape3_weighted Rmult B T D _ _
                  (shape2_map (fun e => Rpower (sigmoid e) 0.5) _ _ _ He) Hd)
      as Hp.
    apply mean3_index; [by apply shape3_map |].
    intros b t d Hb Ht Hd'.
    rewrite (at3_map B T D _ Hp b t d Hb Ht Hd').
    rewrite (at3_weighted B T D _ _ Hd He b t d Hb Ht Hd').
    rewrite (at3_zip B T D _ _ Hen Hcl b t d Hb Ht Hd').
    by rewrite sqrt_sigmoid.
  - rewrite (bop3_same_shape _ B T D) by done.
    pose proof (shape3_map Rabs _ _ _ _ Hd) as Ha.
    rewrite (bop3_unsqueezed _ B T D) by (try done; by apply shape2_map).
    cbn. f_equal.
    apply mean3_index; [by apply shape3_weighted; [apply shape2_map |] |].
    intros b t d Hb Ht Hd'.
    rewrite (at3_weighted B T D _ _ Ha He b t d Hb Ht Hd').
    rewrite (at3_map B T D _ Hd b t d Hb Ht Hd').
    by rewrite (at3_zip B T D _ _ Hen Hcl b t d Hb Ht Hd').
Qed.

Lemma init_constructed (lt path dev : string) (o : AcousticLoss) :
  AcousticLoss_init lt path dev = inr o -> constructed o.
Proof.
  unfold AcousticLoss_init.
  destruct (torch_load_state_dict path) as [sd |]; [| done].
  destruct (load_state_dict AcousticEstimator sd) as [params |]; [| done].
  intros [= <-]. unfold constructed; cbn.
  split; intros ->; repeat case_decide; done.
Qed.

Lemma forward_loss_long (clean enhan : tensor2) (o : AcousticLoss) :
  Forall (fun w => (256 < length w)%nat) clean ->
  Forall (fun w => (256 < length w)%nat) enhan ->
  forward_loss clean enhan o
  = (acoustic_distance o (st_energy_of enhan)
       (estimate (estimate_acoustics o) (est_training o) (S (est_calls o))
                 (spectrogram_of enhan))
       (estimate (estimate_acoustics o) (est_training o) (est_calls o)
                 (spectrogram_of clean)),
     bump_calls o).
Proof.
  intros Hc He. unfold forward_loss.
  by rewrite (get_stft_long _ false Hc), (get_stft_long _ true He).
Qed.

Lemma forward_valid_mode (clean enhan : tensor2) (mode : string)
    (o : AcousticLoss) :
  mode = "train" \/ mode = "eval" ->
  forward clean enhan mode o
  = forward_loss clean enhan
      (set_est_training (bool_decide (mode = "train")) o).
Proof.
  unfold forward. intros [-> | ->]; repeat case_decide; done.
Qed.

Lemma shape2_long (B L : nat) (wav : tensor2) :
  has_shape2 B L wav -> (256 < L)%nat ->
  Forall (fun w => (256 < length w)%nat) wav.
Proof.
  intros [_ Hrows] HL. eapply List.Forall_impl; [| exact Hrows].
  cbv beta. intros w ->. done.
Qed.

(** C2.  For an object as [__init__] makes it, a valid mode, two batches
    of [B] waveforms of [L] samples (more than 256, so that the spectral
    transform accepts them) and an estimator that answers one embedding
    of [D] parameters per frame: [forward] returns, for each of the four
    loss kinds, the value of the formula of the specification over the
    embeddings of the enhanced and the clean batch and the short-time
    energy of the enhanced batch, with one frame per hop of 160 samples;
    for any other kind it raises.  The object stays as [__init__] makes
    it. *)
Theorem forward_computes_spec_loss
    (o : AcousticLoss) (mode : string) (clean enhan : tensor2)
    (B L D : nat) :
  constructed o ->
  mode = "train" \/ mode = "eval" ->
  has_shape2 B L clean -> has_shape2 B L enhan -> (256 < L)%nat ->
  one_embedding_per_frame D ->
  (forward clean enhan mode o).1
  = match spec_loss (loss_type o) B (1 + L / hop_length) D
            (st_energy_of enhan)
            (estimate (estimate_acoustics o) (bool_decide (mode = "train"))
                      (S (est_calls o)) (spectrogram_of enhan))
            (estimate (estimate_acoustics o) (bool_decide (mode = "train"))
                      (est_calls o) (spectrogram_of clean))
    with
    | Some v => inr v
    | None => inl (ValueError ("Invalid loss_type " +:+ loss_type o))
    end
  /\ constructed (forward clean enhan mode o).2.
Proof.
  intros Hcon Hmode Hclean Henhan HL Hest.
  rewrite (forward_valid_mode _ _ _ _ Hmode).
  rewrite forward_loss_long by (by apply (shape2_long B L)).
  cbn [fst snd]. split; [| exact Hcon].
  destruct (spectrogram_shape _ _ _ Hclean HL) as [Hcl Hcf].
  destruct (spectrogram_shape _ _ _ Henhan HL) as [Hel Hef].
  apply (acoustic_distance_spec
           (set_est_training (bool_decide (mode = "train")) o)).
  - exact Hcon.
  - by apply st_energy_shape.
  - by apply Hest.
  - by apply Hest.
Qed.

(** C6, as the code has it.  [__init__] does not look at the loss kind
    beyond creating [l2] or [l1]: with a kind that is none of the four it
    returns an object whenever the checkpoint loads.  The configuration
    error is raised by [forward], on every call with a valid mode and
    waveforms the spectral transform accepts, after both estimator
    passes have been made. *)
Theorem loss_kind_checked_by_forward (lt path dev : string) :
  recognised_loss_type lt = false ->
  AcousticLoss_init lt path dev
  = match torch_load_state_dict path with
    | None => inl (FileNotFoundError path)
    | Some sd =>
        match load_state_dict AcousticEstimator sd with
        | None => inl (RuntimeError "Error(s) in loading state_dict")
        | Some params => inr (mkAcousticLoss dev params true 0 lt None None)
        end
    end
  /\ (forall (o : AcousticLoss) (mode : string) (clean enhan : tensor2),
        loss_type o = lt -> mode = "train" \/ mode = "eval" ->
        Forall (fun w => (256 < length w)%nat) clean ->
        Forall (fun w => (256 < length w)%nat) enhan ->
        (forward clean enhan mode o).1
        = inl (ValueError ("Invalid loss_type " +:+ lt))
        /\ est_calls (forward clean enhan mode o).2 = (2 + est_calls o)%nat).
Proof.
  unfold recognised_loss_type. intros Hlt.
  repeat (apply orb_false_iff in Hlt as [Hlt ?]).
  repeat match goal with
         | Hb : bool_decide _ = false |- _ => apply bool_decide_eq_false in Hb
         end.
  split.
  - unfold AcousticLoss_init. by repeat case_decide.
  - intros o mode clean enhan Ho Hmode Hc He.
    rewrite (forward_valid_mode _ _ _ _ Hmode).
    rewrite forward_loss_long by done. cbn [fst snd]. split; [| done].
    unfold acoustic_distance. cbn. rewrite Ho.
    by repeat case_decide.
Qed.

End AcousticLossFacts.

Section StftMore.
Open Scope R_scope.

(** ** The two results of [get_stft], entry by entry *)


Lemma nth_interleave (l : list (R * R)) :
  forall f : nat,
    nth (2 * f) (interleave l) 0 = (nth f l (0, 0)).1
    /\ nth (2 * f + 1) (interleave l) 0 = (nth f l (0, 0)).2.
Proof.
  unfold interleave. induction l as [| c l IH]; intros f.
  - cbn. by destruct (2 * f)%nat, (f + (f + 0) + 1)%nat, f.
  - destruct f as [| f]; [done |].
    replace (2 * S f)%nat with (S (S (2 * f))) by lia.
    replace (S (S (2 * f)) + 1)%nat with (S (S (2 * f + 1))) by lia.
    cbn [flat_map app nth]. apply IH.
Qed.


Lemma nth_transpose {A} (d : A) (r : list A) (rs : list (list A)) (t : nat) :
  (t < length r)%nat ->
  nth t (transpose d (r :: rs)) [] = map (fun row => nth t row d) (r :: rs).
Proof.
  intros Ht. unfold transpose.
  rewrite (nth_map_in _ _ _ _ 0%nat) by (by rewrite length_seq).
  by rewrite seq_nth.
Qed.

(** Frame [t] of every row of the transform of a waveform: the spectrum
    of the analysis frame [t]. *)
Lemma stft_column (w : tensor1) (t : nat) :
  (t < length (analysis_frames w))%nat ->
  map (fun row => nth t row (0, 0)) (stft_row nfft hop_length w)
  = spectrum (nth t (analysis_frames w) []).
Proof.
  intros Ht. unfold stft_row, spectrum. fold (analysis_frames w).
  rewrite map_map. apply map_ext. intros f.
  by rewrite (nth_map_in _ _ _ _ []).
Qed.

(** Row [t] of the spectrogram of a waveform. *)
Lemma spectrogram_row (wav : tensor2) (b t : nat) :
  Forall (fun w => (256 < length w)%nat) wav ->
  (b < length wav)%nat ->
  (t < length (analysis_frames (nth b wav [])))%nat ->
  nth t (nth b (spectrogram_of wav) []) []
  = interleave (spectrum (nth t (analysis_frames (nth b wav [])) [])).
Proof.
  intros Hw Hb Ht. rewrite spectrogram_of_long by done.
  rewrite (nth_map_in _ _ _ _ []) by done.
  set (w := nth b wav []) in *.
  destruct (stft_row_rows w) as (r & rs & Hrows & _ & Hall).
  inversion Hall as [| ? ? Hr _]; subst.
  rewrite Hrows.
  rewrite (nth_map_in _ _ _ _ []).
  - rewrite nth_transpose by lia. rewrite <- Hrows. by rewrite stft_column.
  - unfold transpose. rewrite length_map, length_seq. lia.
Qed.



Lemma shape2_frames (B L : nat) (wav : tensor2) (b : nat) :
  has_shape2 B L wav -> (256 < L)%nat -> (b < B)%nat ->
  length (analysis_frames (nth b wav [])) = (1 + L / hop_length)%nat.
Proof.
  intros [Hlen Hrows] HL Hb.
  assert (Hw : length (nth b wav []) = L).
  { rewrite List.Forall_forall in Hrows. apply Hrows, nth_In. lia. }
  rewrite length_analysis_frames by lia. by rewrite Hw.
Qed.


(** X22.  Real and imaginary parts alternate along the last axis of the
    spectrogram: row [t] of waveform [b] is the one-sided spectrum of
    analysis frame [t] of that waveform, the real part of bin [f] at
    index [2 f] and its imaginary part at index [2 f + 1]. *)
Theorem spectrogram_interleaves_real_and_imaginary
    (B L : nat) (wav : tensor2) (b t : nat) :
  has_shape2 B L wav -> (256 < L)%nat ->
  (b < B)%nat -> (t < 1 + L / hop_length)%nat ->
  nth t (nth b (spectrogram_of wav) []) []
  = interleave (spectrum (nth t (analysis_frames (nth b wav [])) []))
  /\ forall f, (f <= nfft / 2)%nat ->
       at3 (spectrogram_of wav) b t (2 * f)
       = (dft_bin nfft (nth t (analysis_frames (nth b wav [])) []) f).1
       /\ at3 (spectrogram_of wav) b t (2 * f + 1)
          = (dft_bin nfft (nth t (analysis_frames (nth b wav [])) []) f).2.
Proof.
  intros Hshape HL Hb Ht.
  pose proof (shape2_long B L wav Hshape HL) as Hw.
  assert (Hrow : nth t (nth b (spectrogram_of wav) []) []
                 = interleave
                     (spectrum (nth t (analysis_frames (nth b wav [])) []))).
  { destruct Hshape as [HB Hall]. apply spectrogram_row; [done | lia |].
    rewrite (shape2_frames B L) by (done || lia). lia. }
  split; [exact Hrow |].
  intros f Hf. unfold at3. rewrite Hrow.
  destruct (nth_interleave
              (spectrum (nth t (analysis_frames (nth b wav [])) [])) f)
    as [-> ->].
  unfold spectrum.
  rewrite (nth_map_in _ _ _ _ 0%nat) by (rewrite length_seq; lia).
  rewrite seq_nth by lia. done.
Qed.



End StftMore.

Section AcousticLossMore.
Context `{Estimator}.
Open Scope R_scope.

(** ** [__init__] *)


(** ** [forward] *)

Lemma get_stft_short (wav : tensor2) (e : bool) :
  Exists (fun w => (length w <= 256)%nat) wav ->
  get_stft wav e
  = inl (RuntimeError "stft: padding size should be less than the input size").
Proof.
  intros Hex. unfold get_stft, torch_stft.
  destruct (forallb _ wav) eqn:Hall; [| done].
  exfalso. rewrite forallb_forall in Hall.
  apply List.Exists_exists in Hex as (w & Hin & Hlen).
  specialize (Hall w Hin). apply Nat.ltb_lt in Hall.
  rewrite half_nfft in Hall. lia.
Qed.

Lemma get_stft_error (wav : tensor2) (e : bool) (err : exn) :
  get_stft wav e = inl err ->
  err = RuntimeError "stft: padding size should be less than the input size".
Proof.
  unfold get_stft. destruct (torch_stft wav nfft hop_length); [| congruence].
  by destruct e.
Qed.

(** X25.  [forward] checks the mode before anything else: a mode that is
    neither ["train"] nor ["eval"] raises [ValueError] and leaves the
    object as it is.  With a valid mode the estimator is switched to
    that mode at once, and stays so even when the call fails later; a
    waveform of at most 256 samples, which the spectral transform
    rejects, makes the call fail before any estimator pass, and on
    waveforms the transform accepts exactly two passes are made.  No
    call changes the loss kind, the loss attributes, the parameters or
    the device. *)
Theorem forward_checks_mode_first
    (clean enhan : tensor2) (mode : string) (o : AcousticLoss) :
  (mode <> "train" -> mode <> "eval" ->
   forward clean enhan mode o
   = (inl (ValueError "Invalid mode, must be either 'train' or 'eval'."), o))
  /\ (mode = "train" \/ mode = "eval" ->
      est_training (forward clean enhan mode o).2
      = bool_decide (mode = "train")
      /\ (Forall (fun w => (256 < length w)%nat) clean ->
          Forall (fun w => (256 < length w)%nat) enhan ->
          est_calls (forward clean enhan mode o).2 = (2 + est_calls o)%nat)
      /\ (Exists (fun w => (length w <= 256)%nat) clean
          \/ Exists (fun w => (length w <= 256)%nat) enhan ->
          (exists msg, (forward clean enhan mode o).1
                       = inl (RuntimeError msg))
          /\ est_calls (forward clean enhan mode o).2 = est_calls o))
  /\ loss_type (forward clean enhan mode o).2 = loss_type o
  /\ l2 (forward clean enhan mode o).2 = l2 o
  /\ l1 (forward clean enhan mode o).2 = l1 o
  /\ estimate_acoustics (forward clean enhan mode o).2 = estimate_acoustics o
  /\ device (forward clean enhan mode o).2 = device o.
Proof.
  assert (Hfl : forall o' : AcousticLoss,
             est_training (forward_loss clean enhan o').2 = est_training o'
             /\ loss_type (forward_loss clean enhan o').2 = loss_type o'
             /\ l2 (forward_loss clean enhan o').2 = l2 o'
             /\ l1 (forward_loss clean enhan o').2 = l1 o'
             /\ estimate_acoustics (forward_loss clean enhan o').2
                = estimate_acoustics o'
             /\ device (forward_loss clean enhan o').2 = device o').
  { intros o'. unfold forward_loss.
    destruct (get_stft clean false) as [? | [? ?]]; [done |].
    by destruct (get_stft enhan true) as [? | [? [? |]]]. }
  split; [| split].
  - intros Ht He. unfold forward. by repeat case_decide.
  - intros Hmode. rewrite (forward_valid_mode _ _ _ _ Hmode).
    split;
      [exact (proj1 (Hfl (set_est_training (bool_decide (mode = "train"))
                                           o))) |].
    split.
    + intros Hc He. by rewrite forward_loss_long.
    + intros Hshort. unfold forward_loss.
      destruct (get_stft clean false) as [err | [spec ?]] eqn:Hcl.
      * rewrite (get_stft_error _ _ _ Hcl). split; [by eexists | done].
      * destruct Hshort as [Hs | Hs].
        -- by rewrite (get_stft_short _ _ Hs) in Hcl.
        -- rewrite (get_stft_short _ _ Hs). split; [by eexists | done].
  - unfold forward.
    repeat case_decide;
      [apply (proj2 (Hfl (set_est_training true o)))
      | apply (proj2 (Hfl (set_est_training false o))) | done].
Qed.

(** ** The loss values *)

Lemma sum_upto_nonneg (n : nat) (g : nat -> R) :
  (forall i, 0 <= g i) -> 0 <= sum_upto n g.
Proof.
  intros Hg. unfold sum_upto. apply tsum_nonneg, Forall_map, Forall_forall.
  intros i _. apply Hg.
Qed.

Lemma sum_upto_zero (n : nat) (g : nat -> R) :
  (forall i, g i = 0) -> sum_upto n g = 0.
Proof.
  intros Hg. unfold sum_upto, tsum.
  induction (seq 0 n) as [| i l IH]; [done |]. cbn. rewrite Hg, IH. lra.
Qed.

Lemma mean_over_nonneg (B T D : nat) (g : nat -> nat -> nat -> R) :
  (forall b t d, 0 <= g b t d) -> 0 <= mean_over B T D g.
Proof.
  intros Hg. unfold mean_over, Rdiv. apply Rmult_le_pos.
  - apply sum_upto_nonneg. intros b. apply sum_upto_nonneg. intros t.
    apply sum_upto_nonneg. intros d. apply Hg.
  - destruct (Req_dec (INR (B * T * D)) 0) as [-> | Hne].
    + rewrite Rinv_0. lra.
    + apply Rlt_le, Rinv_0_lt_compat.
      pose proof (pos_INR (B * T * D)). lra.
Qed.

Lemma mean_over_zero (B T D : nat) (g : nat -> nat -> nat -> R) :
  (forall b t d, g b t d = 0) -> mean_over B T D g = 0.
Proof.
  intros Hg. unfold mean_over.
  rewrite sum_upto_zero; [unfold Rdiv; ring |].
  intros b. apply sum_upto_zero. intros t. apply sum_upto_zero.
  intros d. apply Hg.
Qed.

(** X26.  The acoustic loss behaves as a distance between the two
    embeddings: whenever [forward] returns a value, the value is not
    negative; and for each of the four loss kinds the value is 0 when
    the estimator answers the same embedding for the enhanced and the
    clean batch. *)
Theorem acoustic_loss_is_a_distance
    (o : AcousticLoss) (mode : string) (clean enhan : tensor2)
    (B L D : nat) :
  constructed o ->
  mode = "train" \/ mode = "eval" ->
  has_shape2 B L clean -> has_shape2 B L enhan -> (256 < L)%nat ->
  one_embedding_per_frame D ->
  (forall v, (forward clean enhan mode o).1 = inr v -> 0 <= v)
  /\ (recognised_loss_type (loss_type o) = true ->
      estimate (estimate_acoustics o) (bool_decide (mode = "train"))
               (S (est_calls o)) (spectrogram_of enhan)
      = estimate (estimate_acoustics o) (bool_decide (mode = "train"))
                 (est_calls o) (spectrogram_of clean) ->
      (forward clean enhan mode o).1 = inr 0).
Proof.
  intros Hcon Hmode Hclean Henhan HL Hest.
  rewrite (forward_valid_mode _ _ _ _ Hmode).
  rewrite forward_loss_long by (by apply (shape2_long B L)).
  cbn [fst snd].
  destruct (spectrogram_shape _ _ _ Hclean HL) as [Hcl Hcf].
  destruct (spectrogram_shape _ _ _ Henhan HL) as [Hel Hef].
  rewrite (acoustic_distance_spec
             (set_est_training (bool_decide (mode = "train")) o)
             B (1 + L / hop_length) D);
    [| exact Hcon | by apply st_energy_shape | by apply Hest
     | by apply Hest ].
  cbn [loss_type set_est_training estimate_acoustics est_training est_calls].
  generalize (bool_decide (mode = "train")). intros tr.
  unfold spec_loss, spec_l2, spec_l1, spec_few_l2, spec_few_l1.
  split.
  - intros v Hv.
    repeat case_decide; try done; injection Hv as <-;
      apply mean_over_nonneg; intros b t d;
      first [ apply pow2_ge_0 | apply Rabs_pos
            | apply Rmult_le_pos; [apply Rlt_le, sigmoid_pos | apply Rabs_pos] ].
  - intros Hrec Heq. rewrite Heq.
    assert (Hkind : loss_type o = "l2" \/ loss_type o = "l1"
                    \/ loss_type o = "frame_energy_weighted_l2"
                    \/ loss_type o = "frame_energy_weighted_l1").
    { unfold recognised_loss_type in Hrec.
      repeat (apply orb_true_iff in Hrec as [Hrec | Hrec]);
        apply bool_decide_eq_true in Hrec; tauto. }
    clear Hrec.
    repeat case_decide; [.. | exfalso; tauto];
      f_equal; apply mean_over_zero; intros b t d;
      rewrite Rminus_diag, ?Rabs_R0; lra.
Qed.

End AcousticLossMore.


(* ===================================================================== *)
(** * The embedding run on concrete inputs *)
(* ===================================================================== *)

Section Runs.
Import Examples.
#[local] Existing Instance ex_estimator.
#[local] Existing Instance ex_collaborators.
Open Scope R_scope.

(** C3 as stated fails: a Solver that continues from the external
    package of the examples (no resumable checkpoint, continue-best not
    set, optimizer kind adam) ends [__init__] with the optimizer state 7
    of the package instead of its own 0, and with the best state 3 of the
    package as Best State instead of none: more than the model state is
    loaded. *)
Lemma reset_external_loads_more_than_model :
  checkpoint ex_args_external = false
  ∧ truthy_str (continue_from ex_args_external) = true
  ∧ (Solver_init ex_loader None None 0%nat 0%nat ex_args_external
                 ex_ac_loss ex_disk_external).1 = inr tt
  ∧ optimizer (init_fields ex_loader None None 0%nat 0%nat ex_args_external
                           ex_ac_loss ex_disk_external) = 0%nat
  ∧ optimizer (Solver_init ex_loader None None 0%nat 0%nat ex_args_external
                           ex_ac_loss ex_disk_external).2 = 7%nat
  ∧ best_state (init_fields ex_loader None None 0%nat 0%nat ex_args_external
                            ex_ac_loss ex_disk_external) = None
  ∧ best_state (Solver_init ex_loader None None 0%nat 0%nat ex_args_external
                            ex_ac_loss ex_disk_external).2 = Some 3%nat.
Proof. repeat split; reflexivity. Qed.

(** The theorems above, applied to the inputs of the examples. *)

Lemma reset_from_external_checkpoint_witness :
  (Solver_init ex_loader None None 0%nat 0%nat ex_args_external
               ex_ac_loss ex_disk_external).1 = inr tt
  ∧ model (Solver_init ex_loader None None 0%nat 0%nat ex_args_external
                       ex_ac_loss ex_disk_external).2 = 5%nat
  ∧ optimizer (Solver_init ex_loader None None 0%nat 0%nat ex_args_external
                           ex_ac_loss ex_disk_external).2 =
      match pkg_optimizer ex_package with
      | Some o => if negb (continue_best ex_args_external)
                     && bool_decide (optim ex_args_external = "adam")
                  then o else 0%nat
      | None => 0%nat
      end
  ∧ best_state (Solver_init ex_loader None None 0%nat 0%nat ex_args_external
                            ex_ac_loss ex_disk_external).2
    = pkg_best_state ex_package
  ∧ history (Solver_init ex_loader None None 0%nat 0%nat ex_args_external
                         ex_ac_loss ex_disk_external).2 = []
  ∧ seq (length (history (Solver_init ex_loader None None 0%nat 0%nat
                            ex_args_external ex_ac_loss ex_disk_external).2))
        (epochs ex_args_external
         - length (history (Solver_init ex_loader None None 0%nat 0%nat
                              ex_args_external ex_ac_loss ex_disk_external).2))
    = seq 0 (epochs ex_args_external).
Proof.
  apply (@reset_from_external_checkpoint ex_estimator ex_collaborators
           ex_loader None None 0%nat 0%nat ex_args_external ex_ac_loss
           ex_disk_external ex_package 5%nat); reflexivity.
Defined.

(** C5 as stated fails: with acoustic-loss-only requested and the acoustic
    loss disabled, the run of the example Solver raises the configuration
    error only after the first training batch has been augmented and
    passed through the model. *)
Lemma acoustic_only_error_after_forward_pass :
  acoustic_loss_only ex_args_acoustic_only = true
  ∧ acoustic_loss ex_args_acoustic_only = false
  ∧ (train (ex_solver ex_args_acoustic_only empty_disk)).1
    = inl (ValueError acoustic_only_message)
  ∧ trace (train (ex_solver ex_args_acoustic_only empty_disk)).2
    = [EvFs (Mkdir tensorboard_dir); EvPrintTrainEpoch 1;
       EvAugment 0 0; EvForward false 0 0].
Proof. repeat split; reflexivity. Qed.

Lemma acoustic_only_error_in_first_batch_witness :
  (train (ex_solver ex_args_acoustic_only empty_disk)).1
    = inl (ValueError acoustic_only_message)
  ∧ trace (train (ex_solver ex_args_acoustic_only empty_disk)).2
    = (trace (ex_solver ex_args_acoustic_only empty_disk)
       ++ (if exists_path tensorboard_dir
                (disk (ex_solver ex_args_acoustic_only empty_disk))
           then []
           else [EvFs (Mkdir tensorboard_dir)])
       ++ [EvPrintTrainEpoch
             (length (history (ex_solver ex_args_acoustic_only empty_disk)) + 1);
           EvAugment
             (length (history (ex_solver ex_args_acoustic_only empty_disk))) 0;
           EvForward false
             (length (history (ex_solver ex_args_acoustic_only empty_disk))) 0])%list
  ∧ history (train (ex_solver ex_args_acoustic_only empty_disk)).2
    = history (ex_solver ex_args_acoustic_only empty_disk)
  ∧ model (train (ex_solver ex_args_acoustic_only empty_disk)).2
    = model (ex_solver ex_args_acoustic_only empty_disk)
  ∧ optimizer (train (ex_solver ex_args_acoustic_only empty_disk)).2
    = optimizer (ex_solver ex_args_acoustic_only empty_disk).
Proof.
  apply (@acoustic_only_error_in_first_batch ex_estimator ex_collaborators
           (ex_solver ex_args_acoustic_only empty_disk) ([[]], [[]]) []);
    first [reflexivity | cbn; lia].
Defined.

Lemma acoustic_loss_called_in_train_mode_witness :
  est_training (ac_loss ex_solver_valid) = false
  ∧ est_training (ac_loss (_run_one_epoch 0 true ex_solver_valid).2) = true.
Proof.
  split; [reflexivity |].
  apply (proj2 (proj2 (@acoustic_loss_called_in_train_mode
                         ex_estimator ex_collaborators 0%nat true
                         ex_solver_valid)));
    [reflexivity | eexists _, _; reflexivity].
Defined.

(** C4 at a failing input.  A fresh Solver with checkpointing and the
    periodic named checkpoints enabled, on an empty disk: [save_ckpts]
    creates the directory and then saves straight into
    ["./checkpoints/checkpoint_epoch_1.pt"], without a temporary file and
    without a rename; a process killed during that save leaves a
    half-written checkpoint under the final name. *)
Theorem save_ckpts_writes_in_place :
  ckpt_path 1 = "./checkpoints/checkpoint_epoch_1.pt"
  ∧ fs_ops (trace (save_ckpts (ex_solver ex_args_checkpoints empty_disk)).2)
    = [Mkdir checkpoints_dir;
       Save (PackageFile
               (make_package (ex_solver ex_args_checkpoints empty_disk)))
            (ckpt_path 1)]
  ∧ ∃ d : FS nat nat,
      In d (crash_states
              (fs_ops (trace (save_ckpts
                                (ex_solver ex_args_checkpoints empty_disk)).2))
              empty_disk)
      ∧ files d !! ckpt_path 1 = Some Partial.
Proof.
  split; [reflexivity |]. split; [reflexivity |].
  eexists. split.
  - cbn. right; right; left. reflexivity.
  - reflexivity.
Qed.

Lemma train_history_invariant_witness :
  save_again (args (ex_solver ex_args empty_disk)) = false
  ∧ (train (ex_solver ex_args empty_disk)).1 = inr ()
  ∧ length (history (train (ex_solver ex_args empty_disk)).2) = 2%nat.
Proof.
  split; [reflexivity |].
  destruct (@train_history_invariant ex_estimator ex_collaborators
              (ex_solver ex_args empty_disk) eq_refl)
    as (_ & _ & _ & _ & Hcompletes).
  apply Hcompletes; [reflexivity | eexists _, _; reflexivity | discriminate].
Defined.

Lemma no_validation_every_epoch_is_best_witness :
  truthy_loader (cv_loader (ex_solver ex_args empty_disk)) = false
  ∧ Forall (fun m => 0 <= valid m) (history (ex_solver ex_args empty_disk))
  ∧ (train_epoch 0 (ex_solver ex_args empty_disk)).1 = inr ()
  ∧ ∃ new,
      history (train (ex_solver ex_args empty_disk)).2
      = (history (ex_solver ex_args empty_disk) ++ new)%list
      ∧ Forall (fun m => valid m = 0 ∧ best m = 0) new.
Proof.
  split; [reflexivity |]. split; [constructor |].
  destruct (@no_validation_every_epoch_is_best ex_estimator ex_collaborators
              (ex_solver ex_args empty_disk) eq_refl (List.Forall_nil _))
    as (_ & Hrun & Hreturns).
  split.
  - apply Hreturns; [reflexivity | eexists _, _; reflexivity | discriminate].
  - apply Hrun. reflexivity.
Defined.

(** The estimator of the examples keeps the contract, with two
    parameters per frame. *)
Lemma ex_estimator_contract : one_embedding_per_frame 2.
Proof.
  intros p training n x B T Hx Hrows. cbn. unfold map2d. split.
  - by rewrite length_map.
  - apply Forall_map. eapply List.Forall_impl; [| exact Hrows].
    intros m Hm. cbv beta in Hm |- *. split; [by rewrite length_map |].
    apply Forall_map, Forall_forall. by intros r _.
Qed.

Lemma constant_waveform_shape : has_shape2 1 512 [constant_waveform].
Proof.
  split; [done |]. constructor; [| constructor].
  unfold constant_waveform. by rewrite repeat_length.
Qed.

Lemma forward_computes_spec_loss_witness :
  (forward [constant_waveform] [constant_waveform] "train" ex_ac_loss).1
  = match spec_loss (loss_type ex_ac_loss) 1 (1 + 512 / hop_length) 2
            (st_energy_of [constant_waveform])
            (estimate (estimate_acoustics ex_ac_loss)
                      (bool_decide ("train" = "train"))
                      (S (est_calls ex_ac_loss))
                      (spectrogram_of [constant_waveform]))
            (estimate (estimate_acoustics ex_ac_loss)
                      (bool_decide ("train" = "train"))
                      (est_calls ex_ac_loss)
                      (spectrogram_of [constant_waveform]))
    with
    | Some v => inr v
    | None => inl (ValueError ("Invalid loss_type " +:+ loss_type ex_ac_loss))
    end
  ∧ constructed (forward [constant_waveform] [constant_waveform] "train"
                         ex_ac_loss).2.
Proof.
  apply (@forward_computes_spec_loss ex_estimator ex_ac_loss "train"
           [constant_waveform] [constant_waveform] 1 512 2).
  - split; [reflexivity | discriminate].
  - by left.
  - exact constant_waveform_shape.
  - exact constant_waveform_shape.
  - lia.
  - exact ex_estimator_contract.
Defined.

(** C6 as stated fails: constructing the acoustic loss with the kind
    ["cosine"], which is none of the four, and a checkpoint that loads
    raises nothing and returns an object. *)
Lemma init_accepts_unrecognised_kind :
  recognised_loss_type "cosine" = false
  ∧ AcousticLoss_init "cosine" "tap.pt" "cuda"
    = inr ex_ac_loss_cosine.
Proof. split; reflexivity. Qed.

Lemma loss_kind_checked_by_forward_witness :
  AcousticLoss_init "cosine" "tap.pt" "cuda" = inr ex_ac_loss_cosine
  ∧ (forward [constant_waveform] [constant_waveform] "train"
             ex_ac_loss_cosine).1
    = inl (ValueError "Invalid loss_type cosine").
Proof.
  destruct (@loss_kind_checked_by_forward ex_estimator "cosine" "tap.pt"
              "cuda" eq_refl) as [Hinit Hforward].
  split; [exact Hinit |].
  apply (Hforward ex_ac_loss_cosine
                  "train" [constant_waveform] [constant_waveform]);
    [reflexivity | by left | |];
    (constructor; [| constructor]);
    unfold constant_waveform; rewrite repeat_length; lia.
Defined.

(** C7 at a failing input.  For the batch that holds the waveform of 512
    ones, [get_stft] returns a short-time energy of shape (1, 4); each
    of the four analysis frames is 512 ones, with time-domain energy
    512; and every entry of the short-time energy is at least 1024,
    twice the energy of its frame: the factor [2 / nfft] counts bin 0
    twice. *)
Theorem short_time_energy_doubles_constant_frame :
  get_stft [constant_waveform] true
  = inr (spectrogram_of [constant_waveform],
         Some (st_energy_of [constant_waveform]))
  ∧ has_shape2 1 4 (st_energy_of [constant_waveform])
  ∧ length (analysis_frames constant_waveform) = 4%nat
  ∧ ∀ t, (t < 4)%nat ->
      frame_energy (nth t (analysis_frames constant_waveform) []) = 512
      ∧ 2 * frame_energy (nth t (analysis_frames constant_waveform) [])
        <= at2 (st_energy_of [constant_waveform]) 0 t.
Proof.
  assert (Hlen : length constant_waveform = 512%nat)
    by (unfold constant_waveform; by rewrite repeat_length).
  assert (Hones : Forall (eq 1) constant_waveform).
  { unfold constant_waveform. apply Forall_forall.
    intros x Hx. apply list_elem_of_In, repeat_spec in Hx. by subst. }
  assert (Hlong : (256 < length constant_waveform)%nat) by lia.
  assert (Hframes : length (analysis_frames constant_waveform) = 4%nat).
  { rewrite length_analysis_frames by done. by rewrite Hlen. }
  split; [| split; [| split]].
  - apply get_stft_long. by repeat constructor.
  - apply (st_energy_shape 1 512 _ constant_waveform_shape). lia.
  - exact Hframes.
  - intros t Ht.
    destruct (frames_of_ones constant_waveform t Hones Hlong)
      as [Hf Hl]; [lia |].
    assert (He : frame_energy (nth t (analysis_frames constant_waveform) [])
                 = 512).
    { by rewrite (frame_energy_ones _ Hf), Hl, INR_nfft. }
    split; [exact He |].
    etrans; [| apply st_energy_lower_bound; [done | lia]].
    rewrite He, (tsum_ones _ Hf), Hl, INR_nfft. lra.
Qed.

(** ** The further properties, applied to the inputs of the examples *)

Lemma serialize_writes_both_files_witness :
  (_serialize (ex_solver ex_args_checkpoints empty_disk)).1 = inr tt
  ∧ files (disk (_serialize (ex_solver ex_args_checkpoints empty_disk)).2)
      !! "checkpoint.th"
    = Some (Complete (PackageFile
                        (make_package
                           (ex_solver ex_args_checkpoints empty_disk))))
  ∧ files (disk (_serialize (ex_solver ex_args_checkpoints empty_disk)).2)
      !! "best.th"
    = Some (Complete (ModelFile (mkSerialized None)))
  ∧ files (disk (_serialize (ex_solver ex_args_checkpoints empty_disk)).2)
      !! "checkpoint.th.tmp" = None.
Proof.
  destruct (@serialize_writes_both_files ex_estimator ex_collaborators
              (ex_solver ex_args_checkpoints empty_disk))
    as (Hret & Hc & Hb & Ht & _);
    [reflexivity | by vm_compute | by vm_compute | by vm_compute |].
  split; [exact Hret |]. split; [exact Hc |]. split; [exact Hb | exact Ht].
Defined.

Lemma serialize_never_leaves_partial_file_witness :
  In ex_disk_crashed
     (crash_states
        (serialize_ops (ex_solver ex_args_checkpoints empty_disk)) empty_disk)
  ∧ files ex_disk_crashed !! "checkpoint.th" <> Some Partial.
Proof.
  assert (Hin : In ex_disk_crashed
                   (crash_states
                      (serialize_ops
                         (ex_solver ex_args_checkpoints empty_disk))
                      empty_disk)).
  { cbn. right; left. reflexivity. }
  split; [exact Hin |].
  apply (@serialize_never_leaves_partial_file ex_estimator ex_collaborators
           (ex_solver ex_args_checkpoints empty_disk)
           (map EvFs (serialize_ops
                        (ex_solver ex_args_checkpoints empty_disk)))
           "checkpoint.th" ex_disk_crashed);
    [reflexivity | reflexivity | by vm_compute | by vm_compute
    | by vm_compute | exact Hin].
Defined.

Lemma serialize_replaces_files_atomically_witness :
  files ex_disk_crashed !! "checkpoint.th" = None
  ∨ files ex_disk_crashed !! "checkpoint.th"
    = Some (Complete (PackageFile
                        (make_package
                           (ex_solver ex_args_checkpoints empty_disk)))).
Proof.
  apply (@serialize_replaces_files_atomically ex_estimator ex_collaborators
           (ex_solver ex_args_checkpoints empty_disk)
           (map EvFs (serialize_ops
                        (ex_solver ex_args_checkpoints empty_disk)))
           ex_disk_crashed);
    [reflexivity | reflexivity | by vm_compute | by vm_compute
    | by vm_compute | cbn; right; left; reflexivity].
Defined.

Lemma train_save_again_only_serializes_witness :
  (train (ex_solver ex_args_save_again empty_disk)).1 = inr tt
  ∧ history (train (ex_solver ex_args_save_again empty_disk)).2 = []
  ∧ trace (train (ex_solver ex_args_save_again empty_disk)).2
    = map EvFs (serialize_ops (ex_solver ex_args_save_again empty_disk)).
Proof.
  destruct (@train_save_again_only_serializes ex_estimator ex_collaborators
              (ex_solver ex_args_save_again empty_disk) eq_refl)
    as (_ & Hframe & Hret & Htrace & _).
  split; [exact Hret |]. split; [apply Hframe | exact Htrace].
Defined.

Lemma reset_resumes_own_checkpoint_witness :
  (Solver_init ex_loader None None 0%nat 0%nat ex_args_resume ex_ac_loss
               ex_disk_checkpoint).1 = inr tt
  ∧ model (Solver_init ex_loader None None 0%nat 0%nat ex_args_resume
                       ex_ac_loss ex_disk_checkpoint).2 = 5%nat
  ∧ history (Solver_init ex_loader None None 0%nat 0%nat ex_args_resume
                         ex_ac_loss ex_disk_checkpoint).2
    = [mkMetrics 1 1 1 None].
Proof.
  destruct (@reset_resumes_own_checkpoint ex_estimator ex_collaborators
              ex_loader None None 0%nat 0%nat ex_args_resume ex_ac_loss
              ex_disk_checkpoint ex_package 5%nat)
    as (Hret & Hm & _ & Hh & _); try reflexivity.
  split; [exact Hret |]. split; [exact Hm | exact Hh].
Defined.

Lemma resume_after_serialize_witness :
  model (Solver_init ex_loader None None 9%nat 9%nat ex_args_resume
           ex_ac_loss
           (disk (_serialize (ex_solver ex_args_resume empty_disk)).2)).2
  = 0%nat
  ∧ optimizer (Solver_init ex_loader None None 9%nat 9%nat ex_args_resume
                 ex_ac_loss
                 (disk (_serialize (ex_solver ex_args_resume empty_disk)).2)).2
    = 0%nat.
Proof.
  destruct (@resume_after_serialize ex_estimator ex_collaborators
              (ex_solver ex_args_resume empty_disk) ex_loader None None
              9%nat 9%nat ex_ac_loss)
    as (_ & Hm & _ & _ & Ho);
    [reflexivity | reflexivity | reflexivity | by vm_compute
    | by vm_compute |].
  split; [exact Hm | exact Ho].
Defined.

Lemma pretrained_overrides_checkpoint_witness :
  @Solver_init ex_estimator ex_collaborators_zoo ex_loader None None
     0%nat 0%nat ex_args_pretrained ex_ac_loss empty_disk
  = (inr tt,
     @set_model ex_estimator ex_collaborators_zoo 48%nat
       (@init_fields ex_estimator ex_collaborators_zoo ex_loader None None
          0%nat 0%nat ex_args_pretrained ex_ac_loss empty_disk)).
Proof.
  destruct (@pretrained_overrides_checkpoint ex_estimator
              ex_collaborators_zoo ex_loader None None 0%nat 0%nat
              ex_args_pretrained ex_ac_loss empty_disk eq_refl)
    as (_ & _ & Hfresh).
  apply Hfresh; reflexivity.
Defined.

Lemma reset_fresh_start_witness :
  Solver_init ex_loader None None 0%nat 0%nat ex_args ex_ac_loss
              ex_disk_checkpoint
  = (inr tt,
     init_fields ex_loader None None 0%nat 0%nat ex_args ex_ac_loss
                 ex_disk_checkpoint).
Proof.
  apply (@reset_fresh_start ex_estimator ex_collaborators ex_loader None
           None 0%nat 0%nat ex_args ex_ac_loss ex_disk_checkpoint);
    [by left | reflexivity | reflexivity].
Defined.


Lemma train_without_training_data_witness :
  (train ex_solver_no_data).1 = inl (AttributeError "epoch")
  ∧ history (train ex_solver_no_data).2 = [].
Proof.
  destruct (@train_without_training_data ex_estimator ex_collaborators
              ex_solver_no_data eq_refl)
    as (Hret & _ & Hh & _); [cbn; lia | reflexivity |].
  split; [exact Hret | exact Hh].
Defined.

Lemma invalid_loss_kind_error_in_first_batch_witness :
  (train (ex_solver ex_args_cosine empty_disk)).1
  = inl (ValueError "Invalid loss cosine")
  ∧ optimizer (train (ex_solver ex_args_cosine empty_disk)).2 = 0%nat.
Proof.
  destruct (@invalid_loss_kind_error_in_first_batch ex_estimator
              ex_collaborators (ex_solver ex_args_cosine empty_disk)
              ([[]], [[]]) [])
    as (Hret & _ & _ & _ & Ho & _);
    [reflexivity | reflexivity | by vm_compute | by vm_compute
    | by vm_compute | reflexivity | cbn; lia |].
  split; [exact Hret | exact Ho].
Defined.

Lemma total_loss_is_sum_of_parts_witness :
  ∃ r, (_run_one_epoch 0 false (ex_solver ex_args empty_disk)).1 = inr r
       ∧ sum_ok r.
Proof.
  destruct (run_one_epoch_returns 0 false (ex_solver ex_args empty_disk)
              ([[]], [[]]) [] eq_refl eq_refl) as [r Hr].
  exists r. split; [exact Hr |].
  destruct (@total_loss_is_sum_of_parts ex_estimator ex_collaborators
              0%nat false (ex_solver ex_args empty_disk)) as [_ Hpass].
  apply Hpass; [by intros | exact Hr].
Defined.

Lemma short_training_pass_keeps_disk_witness :
  disk (_run_one_epoch 0 false (ex_solver ex_args empty_disk)).2 = empty_disk.
Proof.
  apply (@short_training_pass_keeps_disk ex_estimator ex_collaborators
           0%nat (ex_solver ex_args empty_disk) [([[]], [[]])]);
    [reflexivity | cbn; lia].
Defined.

Lemma ex_history_file_apart : history_file_apart ex_args_resume.
Proof.
  split; [| by vm_compute].
  intros n Heq. cbn in Heq. discriminate.
Qed.

Lemma ex_resume_epoch_returns :
  (train_epoch 0 (ex_solver ex_args_resume empty_disk)).1 = inr tt.
Proof.
  destruct (train_epoch_returns 0 (ex_solver ex_args_resume empty_disk)
              ([[]], [[]]) [] eq_refl eq_refl) as [[] Hr];
    [discriminate | exact Hr].
Qed.

Lemma ex_resume_train_returns :
  (train (ex_solver ex_args_resume empty_disk)).1 = inr tt.
Proof.
  apply (train_returns (ex_solver ex_args_resume empty_disk) ([[]], [[]]) []);
    [reflexivity | reflexivity | reflexivity | discriminate].
Qed.

Lemma history_file_mirrors_history_witness :
  files (disk (train_epoch 0 (ex_solver ex_args_resume empty_disk)).2)
    !! "history.json"
  = Some (Complete
            (HistoryFile
               (history (train_epoch 0
                           (ex_solver ex_args_resume empty_disk)).2))).
Proof.
  destruct (@history_file_mirrors_history ex_estimator ex_collaborators
              (ex_solver ex_args_resume empty_disk) eq_refl
              (fun _ => ex_history_file_apart)) as [Hepoch _].
  apply Hepoch. exact ex_resume_epoch_returns.
Defined.

Lemma eval_every_zero_fails_every_epoch_witness :
  (train_epoch 0 (ex_solver ex_args_eval_never empty_disk)).1
  = inl ZeroDivisionError
  ∧ history (train_epoch 0 (ex_solver ex_args_eval_never empty_disk)).2 = [].
Proof.
  destruct (@eval_every_zero_fails_every_epoch ex_estimator ex_collaborators
              0%nat (ex_solver ex_args_eval_never empty_disk) eq_refl)
    as (_ & Hh & Herr).
  split; [| exact Hh].
  apply Herr; [reflexivity | by exists ([[]], [[]]), []].
Defined.

Lemma test_metrics_recorded_when_due_witness :
  ∃ h m,
    history (train ex_solver_tested).2 = (h ++ [m])%list
    ∧ length h = 1%nat
    ∧ pesq_stoi m
      = Some (evaluate ex_args (model (train ex_solver_tested).2)
                       [([[]], [[]])]).
Proof.
  destruct (@test_metrics_recorded_when_due ex_estimator ex_collaborators
              ex_solver_tested) as [_ Hlast].
  apply Hlast; [reflexivity | cbn; lia | reflexivity |].
  apply (train_returns ex_solver_tested ([[]], [[]]) []);
    [reflexivity | reflexivity | reflexivity | discriminate].
Defined.

Lemma ex_checkpoint_files_apart : checkpoint_files_apart ex_args_resume.
Proof. by vm_compute. Qed.

Lemma checkpoint_holds_state_after_epoch_witness :
  files (disk (train (ex_solver ex_args_resume empty_disk)).2)
    !! "checkpoint.th"
  = Some (Complete
            (PackageFile
               (make_package (train (ex_solver ex_args_resume empty_disk)).2))).
Proof.
  destruct (@checkpoint_holds_state_after_epoch ex_estimator
              ex_collaborators (ex_solver ex_args_resume empty_disk)
              eq_refl eq_refl ex_checkpoint_files_apart) as [_ Hrun].
  apply Hrun; [reflexivity | cbn; lia | exact ex_resume_train_returns].
Defined.

Lemma resume_after_training_witness :
  (Solver_init ex_loader None None 0%nat 0%nat ex_args_resume ex_ac_loss
               (disk (train (ex_solver ex_args_resume empty_disk)).2)).1
  = inr tt
  ∧ model (Solver_init ex_loader None None 0%nat 0%nat ex_args_resume
                       ex_ac_loss
                       (disk (train (ex_solver ex_args_resume
                                       empty_disk)).2)).2
    = model (train (ex_solver ex_args_resume empty_disk)).2
  ∧ history (Solver_init ex_loader None None 0%nat 0%nat ex_args_resume
                         ex_ac_loss
                         (disk (train (ex_solver ex_args_resume
                                         empty_disk)).2)).2
    = history (train (ex_solver ex_args_resume empty_disk)).2.
Proof.
  destruct (@resume_after_training ex_estimator ex_collaborators
              (ex_solver ex_args_resume empty_disk) ex_loader None None
              0%nat 0%nat ex_ac_loss eq_refl eq_refl
              ex_checkpoint_files_apart eq_refl eq_refl eq_refl)
    as (Hret & Hm & Hh & _); [cbn; lia | exact ex_resume_train_returns |].
  split; [exact Hret |]. split; [exact Hm | exact Hh].
Defined.

Lemma one_optimizer_step_per_batch_witness :
  ∃ n,
    steps_made (seq 0 n) (ex_solver ex_args empty_disk)
               (_run_one_epoch 0 false (ex_solver ex_args empty_disk)).2
    ∧ match (_run_one_epoch 0 false (ex_solver ex_args empty_disk)).1 with
      | inr _ => n = 1%nat
      | inl _ => (n < 1)%nat ∨ [([[]], [[]])] = ([] : list batch)
      end.
Proof.
  apply (@one_optimizer_step_per_batch ex_estimator ex_collaborators
           0%nat (ex_solver ex_args empty_disk) [([[]], [[]])]).
  reflexivity.
Defined.


Lemma spectrogram_interleaves_real_and_imaginary_witness :
  nth 0 (nth 0 (spectrogram_of [constant_waveform]) []) []
  = interleave (spectrum (nth 0 (analysis_frames constant_waveform) [])).
Proof.
  destruct (spectrogram_interleaves_real_and_imaginary 1 512
              [constant_waveform] 0 0 constant_waveform_shape)
    as [Hrow _]; [lia | lia | cbn; lia |].
  exact Hrow.
Defined.



Lemma forward_checks_mode_first_witness :
  forward [constant_waveform] [constant_waveform] "test" ex_ac_loss
  = (inl (ValueError "Invalid mode, must be either 'train' or 'eval'."),
     ex_ac_loss).
Proof.
  destruct (@forward_checks_mode_first ex_estimator [constant_waveform]
              [constant_waveform] "test" ex_ac_loss) as [Hmode _].
  apply Hmode; discriminate.
Defined.

Lemma acoustic_loss_is_a_distance_witness :
  (forward [constant_waveform] [constant_waveform] "eval" ex_ac_loss).1
  = inr 0.
Proof.
  destruct (@acoustic_loss_is_a_distance ex_estimator ex_ac_loss "eval"
              [constant_waveform] [constant_waveform] 1 512 2)
    as [_ Hzero].
  - split; [reflexivity | discriminate].
  - by right.
  - exact constant_waveform_shape.
  - exact constant_waveform_shape.
  - lia.
  - exact ex_estimator_contract.
  - apply Hzero; reflexivity.
Defined.

End Runs.
